(** * ChatMat: the request interpreter [parseMaterialRequest]

    A shallow embedding of
    [chatmat/frontend/src/utils/parseRequest.js] and the properties of
    it that the specification states; then of its callers, [onSend] of
    [App.vue] with the request body of [api/backend.js], and of
    [parseXYZ] of [components/Visualizer3D.vue].

    JavaScript strings are sequences of UTF-16 code units; the regular
    expressions of the file carry no [u] flag, so they work on code
    units as well.  A string is therefore a [list N].  The regular
    expressions are kept as syntax trees, transcribed from the
    literals of the source, and run by a backtracking matcher that
    follows the continuation semantics of ECMA-262 (22.2.2).

    [String.prototype.toLowerCase] is the Unicode case folding of the
    host.  The interpreter takes it as a parameter, so that what is
    proved for every text holds for every case folding; [asciiLowerCase]
    is what it does on ASCII text, and runs the examples. *)

From Stdlib Require Import List NArith ZArith Bool Lia Arith String Ascii.
Import ListNotations.

#[local] Abbreviation length := Datatypes.length (only parsing).

(** ** Strings of code units *)

Abbreviation codeunit := N (only parsing).
Definition jsstring := list codeunit.

(** An ASCII literal of the source, as code units. *)
Definition js (s : string) : jsstring :=
  map N_of_ascii (list_ascii_of_string s).

Definition jsstring_eqb (a b : jsstring) : bool :=
  if list_eq_dec N.eq_dec a b then true else false.

Local Open Scope N_scope.

Definition inRange (lo hi c : codeunit) : bool := (lo <=? c) && (c <=? hi).

Definition isDigit (c : codeunit) : bool := inRange 48 57 c.   (* \d, [0-9] *)
Definition isUpper (c : codeunit) : bool := inRange 65 90 c.   (* [A-Z] *)
Definition isLower (c : codeunit) : bool := inRange 97 122 c.  (* [a-z] *)
Definition isLetter (c : codeunit) : bool := isUpper c || isLower c.

(** [\w] without the [u] flag: [A-Za-z0-9_]. *)
Definition isWordChar (c : codeunit) : bool :=
  isUpper c || isLower c || isDigit c || (c =? 95)%N.

(** [\s], and what [trim] strips: WhiteSpace and LineTerminator. *)
Definition isSpace (c : codeunit) : bool :=
  inRange 9 13 c || (c =? 32)%N || (c =? 160)%N || (c =? 5760)%N
  || inRange 8192 8202 c || (c =? 8232)%N || (c =? 8233)%N
  || (c =? 8239)%N || (c =? 8287)%N || (c =? 12288)%N || (c =? 65279)%N.

Definition isASCII (c : codeunit) : bool := (c <? 128)%N.

(** What [toLowerCase] does to a code unit of an ASCII string. *)
Definition lowerUnit (c : codeunit) : codeunit :=
  if isUpper c then (c + 32)%N else c.

Definition upperUnit (c : codeunit) : codeunit :=
  if isLower c then (c - 32)%N else c.

(** [String.prototype.toLowerCase] restricted to ASCII text.  On other
    text the Unicode mapping of the host applies, which is why the
    interpreter below takes the case folding as a parameter. *)
Definition asciiLowerCase (s : jsstring) : jsstring := map lowerUnit s.

(** [s.startsWith(p)] *)
Fixpoint startsWith (p s : jsstring) : bool :=
  match p, s with
  | [], _ => true
  | _ :: _, [] => false
  | a :: p', b :: s' => (a =? b)%N && startsWith p' s'
  end.

(** [s.includes(key)] *)
Fixpoint includes (s key : jsstring) : bool :=
  startsWith key s ||
  match s with
  | [] => false
  | _ :: s' => includes s' key
  end.

Fixpoint dropSpaces (s : jsstring) : jsstring :=
  match s with
  | c :: s' => if isSpace c then dropSpaces s' else s
  | [] => []
  end.

(** [s.trim()] *)
Definition trim (s : jsstring) : jsstring :=
  rev (dropSpaces (rev (dropSpaces s))).

Local Close Scope N_scope.

(** ** Numbers

    [parseInt] is only ever applied to a capture of [\d+], so white
    space, sign and radix prefix are left out.  The result is the
    Number nearest to the decimal value (round half to even in
    binary64), [NaN] when the string does not start with a digit.
    (Past 20 significant digits ECMA-262 lets an implementation read
    further digits as 0; the value taken here is the exact one.) *)

Inductive number :=
| NaN
| Fin (z : Z)
| PosInf.

Definition roundToDouble (n : Z) : number :=
  if (n <? 2 ^ 53)%Z then Fin n
  else
    let e := (Z.log2 n - 52)%Z in
    let q := Z.shiftr n e in
    let r := (n - Z.shiftl q e)%Z in
    let half := Z.shiftl 1 (e - 1) in
    let q' := if (half <? r)%Z || ((r =? half)%Z && Z.odd q) then (q + 1)%Z else q in
    if (2 ^ 1024 <=? Z.shiftl q' e)%Z then PosInf else Fin (Z.shiftl q' e).

Definition digitValue (c : codeunit) : Z := Z.of_N c - 48.

(** The digits of the longest decimal prefix, and their value. *)
Fixpoint takeDigits (s : jsstring) : jsstring :=
  match s with
  | c :: s' => if isDigit c then c :: takeDigits s' else []
  | [] => []
  end.

Definition decimalValue (ds : jsstring) : Z :=
  fold_left (fun acc c => (10 * acc + digitValue c)%Z) ds 0%Z.

Definition parseInt (s : jsstring) : number :=
  match takeDigits s with
  | [] => NaN
  | ds => roundToDouble (decimalValue ds)
  end.

(** [parseFloat] on a capture of [[\d.]+]: the longest prefix that is a
    decimal literal (digits, an optional point, digits; at least one
    digit).  The value is kept as mantissa and number of decimals; the
    Number stored is the double nearest to [mantissa / 10^decimals]. *)
Inductive float :=
| FNaN
| FDec (mantissa : Z) (decimals : nat).

Definition parseFloat (s : jsstring) : float :=
  let ip := takeDigits s in
  let after := skipn (length ip) s in
  let fp := match after with
            | c :: t => if (c =? 46)%N then takeDigits t else []
            | [] => []
            end in
  match ip ++ fp with
  | [] => FNaN
  | ds => FDec (decimalValue ds) (length fp)
  end.

(** ** Regular expressions *)

Inductive regex :=
| Empty
| Char (p : codeunit -> bool)          (* a literal, a class, an escape *)
| Seq (r1 r2 : regex)
| Alt (r1 r2 : regex)                  (* r1|r2, r1 tried first *)
| Star (r : regex)                     (* r*, greedy *)
| Group (i : nat) (r : regex)          (* the i-th capturing group *)
| WordBoundary                         (* \b *)
| InputStart                           (* ^ *)
| InputEnd.                            (* $ *)

(** The constructs that the patterns of the source use.  No capturing
    group of the source stands under a quantifier, so the reset of
    captures at each iteration is not needed.

    [r?] and [r+]: every [r] under [?] in the source consumes input, so
    the greedy [?] is "try [r], else nothing". *)
Definition Opt (r : regex) : regex := Alt r Empty.
Definition Plus (r : regex) : regex := Seq r (Star r).

Definition lit (c : codeunit) : regex := Char (N.eqb c).

(** A letter under the [i] flag: without [u], Canonicalize never maps a
    code unit above 127 to one below, so only the two ASCII cases match. *)
Definition liti (c : codeunit) : regex :=
  Char (fun x => (x =? lowerUnit c)%N || (x =? upperUnit c)%N).

Fixpoint word (s : jsstring) : regex :=
  match s with
  | [] => Empty
  | [c] => lit c
  | c :: s' => Seq (lit c) (word s')
  end.

Fixpoint wordi (s : jsstring) : regex :=
  match s with
  | [] => Empty
  | [c] => liti c
  | c :: s' => Seq (liti c) (wordi s')
  end.

Fixpoint seqs (rs : list regex) : regex :=
  match rs with
  | [] => Empty
  | [r] => r
  | r :: rs' => Seq r (seqs rs')
  end.

Definition oneOf (cs : list codeunit) : regex :=
  Char (fun x => existsb (N.eqb x) cs).

(** The state of a match: the input left of the current index
    (reversed), the input right of it, and the captures so far. *)
Record mstate := MState {
  before : jsstring;
  rest : jsstring;
  caps : list (nat * jsstring)
}.

Definition advance (s : mstate) : mstate :=
  match rest s with
  | c :: t => MState (c :: before s) t (caps s)
  | [] => s
  end.

(** The input between two states of one match. *)
Definition between (s s' : mstate) : jsstring :=
  rev (firstn (length (before s') - length (before s)) (before s')).

Definition capture (i : nat) (s s' : mstate) : mstate :=
  MState (before s') (rest s') ((i, between s s') :: caps s').

Definition headIs (p : codeunit -> bool) (l : jsstring) : bool :=
  match l with
  | c :: _ => p c
  | [] => false
  end.

Definition atWordBoundary (s : mstate) : bool :=
  xorb (headIs isWordChar (before s)) (headIs isWordChar (rest s)).

Definition isNil (l : jsstring) : bool :=
  match l with [] => true | _ => false end.

(** The loop of a greedy star (RepeatMatcher of ECMA-262 22.2.2.3.1
    with min 0 and no max): one more iteration of [step] if that leads
    to a match, the continuation otherwise.  An iteration that consumes
    nothing fails.  The fuel is the length of the input still to read,
    which iterations that consume input cannot exhaust. *)
Fixpoint starLoop (step : (mstate -> option mstate) -> mstate -> option mstate)
    (k : mstate -> option mstate) (fuel : nat) (s : mstate) : option mstate :=
  match fuel with
  | O => k s
  | S fuel' =>
      match step (fun s' => if Nat.ltb (length (rest s')) (length (rest s))
                            then starLoop step k fuel' s' else None) s with
      | Some x => Some x
      | None => k s
      end
  end.

(** The matcher of [r] with continuation [k]: the first successful
    path in backtracking order. *)
Fixpoint matcher (r : regex) (k : mstate -> option mstate) (s : mstate)
  : option mstate :=
  match r with
  | Empty => k s
  | Char p =>
      match rest s with
      | c :: _ => if p c then k (advance s) else None
      | [] => None
      end
  | Seq r1 r2 => matcher r1 (matcher r2 k) s
  | Alt r1 r2 =>
      match matcher r1 k s with
      | Some x => Some x
      | None => matcher r2 k s
      end
  | Star r' => starLoop (matcher r') k (length (rest s)) s
  | Group i r' => matcher r' (fun s' => k (capture i s s')) s
  | WordBoundary => if atWordBoundary s then k s else None
  | InputStart => if isNil (before s) then k s else None
  | InputEnd => if isNil (rest s) then k s else None
  end.

(** A match anchored at the current index. *)
Definition matchHere (r : regex) (bef rst : jsstring) : option mstate :=
  matcher r Some (MState bef rst []).

(** The leftmost match at or after the current index, with the state
    it started from. *)
Fixpoint search (r : regex) (bef rst : jsstring) : option (mstate * mstate) :=
  match matchHere r bef rst with
  | Some s' => Some (MState bef rst [], s')
  | None =>
      match rst with
      | [] => None
      | c :: t => search r (c :: bef) t
      end
  end.

(** The result of [RegExp.prototype.exec]: the matched text and the
    captures. *)
Record matchResult := MatchResult {
  matched : jsstring;
  groups : list (nat * jsstring)
}.

(** [match[i]] for [i >= 1]; [None] is [undefined]. *)
Fixpoint lookupCap (i : nat) (cs : list (nat * jsstring)) : option jsstring :=
  match cs with
  | [] => None
  | (j, v) :: cs' => if Nat.eqb i j then Some v else lookupCap i cs'
  end.

Definition group (i : nat) (m : matchResult) : option jsstring :=
  lookupCap i (groups m).

(** [str.match(r)] for [r] without the [g] flag; [None] is [null]. *)
Definition jsMatch (r : regex) (str : jsstring) : option matchResult :=
  match search r [] str with
  | Some (s, s') => Some (MatchResult (between s s') (caps s'))
  | None => None
  end.

(** [r.test(str)] *)
Definition test (r : regex) (str : jsstring) : bool :=
  match jsMatch r str with Some _ => true | None => false end.

(** [str.match(r)] for [r] with the [g] flag: the matched texts from
    left to right, each search starting where the last match ended (one
    further after an empty match).  The empty list stands for [null],
    which the source turns into [[]] at once. *)
Fixpoint matchAllFrom (fuel : nat) (r : regex) (bef rst : jsstring)
  : list jsstring :=
  match fuel with
  | O => []
  | S fuel' =>
      match search r bef rst with
      | None => []
      | Some (s, s') =>
          between s s' ::
          (if Nat.ltb (length (rest s')) (length (rest s))
           then matchAllFrom fuel' r (before s') (rest s')
           else match rest s' with
                | [] => []
                | c :: t => matchAllFrom fuel' r (c :: before s') t
                end)
      end
  end.

Definition matchAll (r : regex) (str : jsstring) : list jsstring :=
  matchAllFrom (S (length str)) r [] str.

(** [str.replace(r, "")] for [r] without the [g] flag. *)
Definition replaceEmpty (r : regex) (str : jsstring) : jsstring :=
  match search r [] str with
  | Some (s, s') => rev (before s) ++ rest s'
  | None => str
  end.

(** ** The patterns of the source *)

Definition digit : regex := Char isDigit.
Definition space : regex := Char isSpace.
Definition upper : regex := Char isUpper.
Definition lower : regex := Char isLower.

Definition cx : codeunit := 120%N.       (* x *)
Definition ctimes : codeunit := 215%N.   (* the multiplication sign *)
Definition ccomma : codeunit := 44%N.
Definition ccolon : codeunit := 58%N.
Definition cequal : codeunit := 61%N.
Definition cdot : codeunit := 46%N.
Definition cdash : codeunit := 45%N.
Definition cslash : codeunit := 47%N.
Definition cbackslash : codeunit := 92%N.

(** [/(\d+)\s*[x×]\s*(\d+)\s*[x×]\s*(\d+)/] *)
Definition supercellPattern1 : regex :=
  seqs [Group 1 (Plus digit); Star space; oneOf [cx; ctimes]; Star space;
        Group 2 (Plus digit); Star space; oneOf [cx; ctimes]; Star space;
        Group 3 (Plus digit)].

(** [/supercell\s*[:\s]+(\d+)\s*[x×,]\s*(\d+)\s*[x×,]\s*(\d+)/] *)
Definition supercellPattern2 : regex :=
  seqs [word (js "supercell"); Star space;
        Plus (Char (fun c => (c =? ccolon)%N || isSpace c));
        Group 1 (Plus digit); Star space; oneOf [cx; ctimes; ccomma]; Star space;
        Group 2 (Plus digit); Star space; oneOf [cx; ctimes; ccomma]; Star space;
        Group 3 (Plus digit)].

(** [/(\d+)\s+(\d+)\s+(\d+)/] *)
Definition supercellPattern3 : regex :=
  seqs [Group 1 (Plus digit); Plus space; Group 2 (Plus digit); Plus space;
        Group 3 (Plus digit)].

Definition supercellPatterns : list regex :=
  [supercellPattern1; supercellPattern2; supercellPattern3].

Definition numeral : regex := Plus (Char (fun c => isDigit c || (c =? cdot)%N)).

(** [/[al]\s*=\s*([\d.]+)/],
    [/lattice\s*(?:parameter|constant)?\s*[:=]?\s*([\d.]+)/],
    [/a\s*=\s*([\d.]+)/] *)
Definition latticePatterns : list regex :=
  [ seqs [oneOf (js "al"); Star space; lit cequal; Star space; Group 1 numeral];
    seqs [word (js "lattice"); Star space;
          Opt (Alt (word (js "parameter")) (word (js "constant")));
          Star space; Opt (oneOf [ccolon; cequal]); Star space; Group 1 numeral];
    seqs [lit 97%N; Star space; lit cequal; Star space; Group 1 numeral] ].

(** [compoundPattern] of the source: [\b], a group holding
    [[A-Z][a-z]?[A-Z]?[a-z]?\d*], [\b]; flag [g]. *)
Definition compoundPattern : regex :=
  seqs [WordBoundary;
        Group 1 (seqs [upper; Opt lower; Opt upper; Opt lower; Star digit]);
        WordBoundary].

(** [/[A-Z][a-z]?/g] *)
Definition elementPattern : regex := Seq upper (Opt lower).

(** [/\b([A-Z][a-z]?)\b/g] *)
Definition symbolPattern : regex :=
  seqs [WordBoundary; Group 1 (Seq upper (Opt lower)); WordBoundary].

(** [/\bmp-\d+\b/i] *)
Definition mpPattern : regex :=
  seqs [WordBoundary; wordi (js "mp"); lit cdash; Plus digit; WordBoundary].

(** [/\bcod-?\d+\b/i] *)
Definition codPattern : regex :=
  seqs [WordBoundary; wordi (js "cod"); Opt (lit cdash); Plus digit; WordBoundary].

(** [/^cod-?/] *)
Definition codPrefix : regex :=
  seqs [InputStart; word (js "cod"); Opt (lit cdash)].

(** [/https?:\/\/\S+/] *)
Definition urlPattern : regex :=
  seqs [word (js "http"); Opt (lit 115%N); word (js "://");
        Plus (Char (fun c => negb (isSpace c)))].

(** [/[\/\\]/] and [/\.(cif|xyz|vasp|poscar)$/] *)
Definition separatorPattern : regex := oneOf [cslash; cbackslash].

Definition extensionPattern : regex :=
  seqs [lit cdot;
        Group 1 (Alt (word (js "cif")) (Alt (word (js "xyz"))
                (Alt (word (js "vasp")) (word (js "poscar")))));
        InputEnd].

(** ** The tables of the source

    [Object.entries] lists string keys in insertion order, so each
    object literal is the list of its entries as written. *)

Definition structureKeywords : list (jsstring * list jsstring) :=
  [ (js "fcc", [js "fcc"; js "face-centered cubic"; js "face centered cubic"]);
    (js "bcc", [js "bcc"; js "body-centered cubic"; js "body centered cubic"]);
    (js "hcp", [js "hcp"; js "hexagonal close-packed"; js "hexagonal close packed"]);
    (js "diamond", [js "diamond"; js "diamond cubic"]);
    (js "sc", [js "sc"; js "simple cubic"]);
    (js "zincblende", [js "zincblende"; js "zinc blende"; js "sphalerite"]);
    (js "rocksalt", [js "rocksalt"; js "rock salt"; js "nacl structure"]);
    (js "wurtzite", [js "wurtzite"]);
    (js "perovskite", [js "perovskite"]);
    (js "rutile", [js "rutile"]) ].

Definition commonWords : list jsstring :=
  [ js "the"; js "for"; js "get"; js "calculate"; js "energy"; js "force";
    js "structure"; js "supercell"; js "bulk"; js "of"; js "a"; js "an";
    js "in"; js "on"; js "at" ].

(** [commonWords.has(w)] *)
Definition has (set : list jsstring) (w : jsstring) : bool :=
  existsb (jsstring_eqb w) set.

Record compoundEntry := CompoundEntry {
  name : jsstring;
  elements : list jsstring;
  entry_structure_type : option jsstring
}.

Definition entry (n : string) (els : list string) (st : option string)
  : compoundEntry :=
  CompoundEntry (js n) (map js els) (option_map js st).

Definition compoundMap : list (jsstring * compoundEntry) :=
  [ (js "nacl", entry "NaCl" ["Na"; "Cl"] None);
    (js "sodium chloride", entry "NaCl" ["Na"; "Cl"] None);
    (js "mgo", entry "MgO" ["Mg"; "O"] None);
    (js "magnesium oxide", entry "MgO" ["Mg"; "O"] None);
    (js "gan", entry "GaN" ["Ga"; "N"] None);
    (js "gallium nitride", entry "GaN" ["Ga"; "N"] None);
    (js "gap", entry "GaP" ["Ga"; "P"] None);
    (js "gallium phosphide", entry "GaP" ["Ga"; "P"] None);
    (js "zns", entry "ZnS" ["Zn"; "S"] None);
    (js "zinc sulfide", entry "ZnS" ["Zn"; "S"] None);
    (js "tio2", entry "TiO2" ["Ti"; "O"] None);
    (js "titanium dioxide", entry "TiO2" ["Ti"; "O"] None);
    (js "sio2", entry "SiO2" ["Si"; "O"] (Some "quartz"));
    (js "silicon dioxide", entry "SiO2" ["Si"; "O"] (Some "quartz"));
    (js "quartz", entry "SiO2" ["Si"; "O"] (Some "quartz"));
    (js "catio3", entry "CaTiO3" ["Ca"; "Ti"; "O"] None);
    (js "calcium titanate", entry "CaTiO3" ["Ca"; "Ti"; "O"] None) ]%string.

Definition elementMap : list (jsstring * jsstring) :=
  map (fun p => (js (fst p), js (snd p)))
  [ ("silicon", "Si"); ("si", "Si");
    ("aluminum", "Al"); ("aluminium", "Al"); ("al", "Al");
    ("gold", "Au"); ("au", "Au");
    ("copper", "Cu"); ("cu", "Cu");
    ("iron", "Fe"); ("fe", "Fe");
    ("titanium", "Ti"); ("ti", "Ti");
    ("magnesium", "Mg"); ("mg", "Mg");
    ("nickel", "Ni"); ("ni", "Ni");
    ("zinc", "Zn"); ("zn", "Zn");
    ("carbon", "C"); ("c", "C");
    ("germanium", "Ge"); ("ge", "Ge");
    ("chromium", "Cr"); ("cr", "Cr");
    ("molybdenum", "Mo"); ("mo", "Mo");
    ("tungsten", "W"); ("w", "W");
    ("vanadium", "V"); ("v", "V");
    ("cobalt", "Co"); ("co", "Co");
    ("palladium", "Pd"); ("pd", "Pd");
    ("platinum", "Pt"); ("pt", "Pt");
    ("silver", "Ag"); ("ag", "Ag");
    ("beryllium", "Be"); ("be", "Be");
    ("zirconium", "Zr"); ("zr", "Zr") ]%string.

(** ** The request record *)

Record StructureRequest := {
  material_name : jsstring;
  supercell_dims : list number;
  structure_type : option jsstring;
  lattice_parameter : option float;
  compound : option (list jsstring);
  source_type : option jsstring;
  source_params : list (jsstring * jsstring);
  use_llm : bool;
  llm_provider : option jsstring;
  llm_params : list (jsstring * jsstring)
}.

Definition defaults : StructureRequest :=
  {| material_name := js "Si";
     supercell_dims := [Fin 1; Fin 1; Fin 1];
     structure_type := None;
     lattice_parameter := None;
     compound := None;
     source_type := None;
     source_params := [];
     use_llm := false;
     llm_provider := None;
     llm_params := [] |}.

(** The assignments to the accumulator [result]. *)
Definition set_material_name (v : jsstring) (r : StructureRequest) :=
  {| material_name := v; supercell_dims := supercell_dims r;
     structure_type := structure_type r; lattice_parameter := lattice_parameter r;
     compound := compound r; source_type := source_type r;
     source_params := source_params r; use_llm := use_llm r;
     llm_provider := llm_provider r; llm_params := llm_params r |}.

Definition set_supercell_dims (v : list number) (r : StructureRequest) :=
  {| material_name := material_name r; supercell_dims := v;
     structure_type := structure_type r; lattice_parameter := lattice_parameter r;
     compound := compound r; source_type := source_type r;
     source_params := source_params r; use_llm := use_llm r;
     llm_provider := llm_provider r; llm_params := llm_params r |}.

Definition set_structure_type (v : option jsstring) (r : StructureRequest) :=
  {| material_name := material_name r; supercell_dims := supercell_dims r;
     structure_type := v; lattice_parameter := lattice_parameter r;
     compound := compound r; source_type := source_type r;
     source_params := source_params r; use_llm := use_llm r;
     llm_provider := llm_provider r; llm_params := llm_params r |}.

Definition set_lattice_parameter (v : option float) (r : StructureRequest) :=
  {| material_name := material_name r; supercell_dims := supercell_dims r;
     structure_type := structure_type r; lattice_parameter := v;
     compound := compound r; source_type := source_type r;
     source_params := source_params r; use_llm := use_llm r;
     llm_provider := llm_provider r; llm_params := llm_params r |}.

Definition set_compound (v : option (list jsstring)) (r : StructureRequest) :=
  {| material_name := material_name r; supercell_dims := supercell_dims r;
     structure_type := structure_type r; lattice_parameter := lattice_parameter r;
     compound := v; source_type := source_type r;
     source_params := source_params r; use_llm := use_llm r;
     llm_provider := llm_provider r; llm_params := llm_params r |}.

Definition set_source_type (v : option jsstring) (r : StructureRequest) :=
  {| material_name := material_name r; supercell_dims := supercell_dims r;
     structure_type := structure_type r; lattice_parameter := lattice_parameter r;
     compound := compound r; source_type := v;
     source_params := source_params r; use_llm := use_llm r;
     llm_provider := llm_provider r; llm_params := llm_params r |}.

(** ** The stages *)

(** A [for ... of] loop over patterns that stops at the first match. *)
Fixpoint firstMatch (patterns : list regex) (str : jsstring)
  : option matchResult :=
  match patterns with
  | [] => None
  | p :: ps =>
      match jsMatch p str with
      | Some m => Some m
      | None => firstMatch ps str
      end
  end.

(** [parseInt(match[i])]; a group that took no part is [undefined],
    which [parseInt] reads as the text "undefined". *)
Definition parseIntGroup (i : nat) (m : matchResult) : number :=
  match group i m with
  | Some s => parseInt s
  | None => NaN
  end.

Definition parseFloatGroup (i : nat) (m : matchResult) : float :=
  match group i m with
  | Some s => parseFloat s
  | None => FNaN
  end.

(** Lines 30-36. *)
Definition supercellStage (textLower : jsstring) (result : StructureRequest)
  : StructureRequest :=
  match firstMatch supercellPatterns textLower with
  | Some m =>
      set_supercell_dims
        [parseIntGroup 1 m; parseIntGroup 2 m; parseIntGroup 3 m] result
  | None => result
  end.

(** Lines 52-57: the first tag one of whose keywords the text includes. *)
Definition matchingTag (textLower : jsstring) : option jsstring :=
  option_map fst
    (find (fun e => existsb (includes textLower) (snd e)) structureKeywords).

Definition structureStage (textLower : jsstring) (result : StructureRequest)
  : StructureRequest :=
  match matchingTag textLower with
  | Some structType => set_structure_type (Some structType) result
  | None => result
  end.

(** Lines 65-71. *)
Definition latticeStage (textLower : jsstring) (result : StructureRequest)
  : StructureRequest :=
  match firstMatch latticePatterns textLower with
  | Some m => set_lattice_parameter (Some (parseFloatGroup 1 m)) result
  | None => result
  end.

(** Lines 98-107: the first key of [compoundMap] that the text includes. *)
Definition dictionaryHit (textLower : jsstring) : option compoundEntry :=
  option_map snd (find (fun e => includes textLower (fst e)) compoundMap).

Definition applyEntry (value : compoundEntry) (result : StructureRequest)
  : StructureRequest :=
  let result := set_material_name (name value) result in
  let result := set_compound (Some (elements value)) result in
  match entry_structure_type value with
  | Some st => set_structure_type (Some st) result
  | None => result
  end.

Section Interpreter.

(** [String.prototype.toLowerCase], the Unicode case folding of the
    host. *)
Variable toLowerCase : jsstring -> jsstring.

(** Lines 114-129: the loop over [compoundMatches]; a [break] ends the
    recursion, every other path goes on with the next match. *)
Fixpoint formulaLoop (compoundMatches : list jsstring) (result : StructureRequest)
  : StructureRequest :=
  match compoundMatches with
  | [] => result
  | m :: ms =>
      if negb (has commonWords (toLowerCase m)) then
        if test digit m then
          let result := set_material_name m result in
          let elements := matchAll elementPattern m in
          if 2 <=? length elements then set_compound (Some elements) result
          else formulaLoop ms result
        else
          match m with
          | [c0; c1] =>
              if test upper [c0] && test upper [c1] then
                set_compound (Some [[c0]; [c1]]) (set_material_name m result)
              else formulaLoop ms result
          | _ => formulaLoop ms result
          end
      else formulaLoop ms result
  end.

(** Lines 110-130. *)
Definition formulaStage (text : jsstring) (result : StructureRequest)
  : StructureRequest :=
  match compound result with
  | None => formulaLoop (matchAll compoundPattern text) result
  | Some _ => result
  end.

(** Lines 158-163. *)
Definition elementHit (textLower : jsstring) : option jsstring :=
  option_map snd (find (fun e => includes textLower (fst e)) elementMap).

(** Lines 167-168. *)
Definition potentialElements (text : jsstring) : list jsstring :=
  filter (fun m => negb (has commonWords (toLowerCase m)) && (length m <=? 2))
         (matchAll symbolPattern text).

(** Lines 133-173. *)
Definition elementStage (text textLower : jsstring) (result : StructureRequest)
  : StructureRequest :=
  match compound result with
  | None =>
      let result :=
        match elementHit textLower with
        | Some symbol => set_material_name symbol result
        | None => result
        end in
      if jsstring_eqb (material_name result) (js "Si") then
        match potentialElements text with
        | e :: _ => set_material_name e result
        | [] => result
        end
      else result
  | Some _ => result
  end.

(** Lines 176-202. *)
Definition sourceStage (text : jsstring) (result : StructureRequest)
  : StructureRequest :=
  match jsMatch mpPattern text with
  | Some mpMatch =>
      set_source_type (Some (js "mp")) (set_material_name (matched mpMatch) result)
  | None =>
  match jsMatch codPattern text with
  | Some codMatch =>
      set_source_type (Some (js "cod"))
        (set_material_name (replaceEmpty codPrefix (matched codMatch)) result)
  | None =>
  match jsMatch urlPattern text with
  | Some urlMatch =>
      set_source_type (Some (js "url")) (set_material_name (matched urlMatch) result)
  | None =>
      if test separatorPattern text || test extensionPattern text then
        set_source_type (Some (js "file")) (set_material_name (trim text) result)
      else result
  end end end.

Definition parseMaterialRequest (text : jsstring) : StructureRequest :=
  let textLower := toLowerCase text in
  let result := defaults in
  let result := supercellStage textLower result in
  let result := structureStage textLower result in
  let result := latticeStage textLower result in
  match dictionaryHit textLower with
  | Some value => applyEntry value result
  | None =>
      let result := formulaStage text result in
      let result := elementStage text textLower result in
      sourceStage text result
  end.

End Interpreter.


(** ** What a match is

    [matches r s s']: the pattern [r] can take the state [s] to the
    state [s'].  The matcher only ever succeeds along such a path
    ([matcher_sound] below). *)

Inductive matches : regex -> mstate -> mstate -> Prop :=
| MEmpty s : matches Empty s s
| MChar p s c t :
    rest s = c :: t -> p c = true -> matches (Char p) s (advance s)
| MSeq r1 r2 s s1 s2 :
    matches r1 s s1 -> matches r2 s1 s2 -> matches (Seq r1 r2) s s2
| MAltL r1 r2 s s' : matches r1 s s' -> matches (Alt r1 r2) s s'
| MAltR r1 r2 s s' : matches r2 s s' -> matches (Alt r1 r2) s s'
| MStarStop r s : matches (Star r) s s
| MStarStep r s s1 s2 :
    matches r s s1 -> length (rest s1) < length (rest s) ->
    matches (Star r) s1 s2 -> matches (Star r) s s2
| MGroup i r s s' : matches r s s' -> matches (Group i r) s (capture i s s')
| MWordBoundary s : atWordBoundary s = true -> matches WordBoundary s s
| MInputStart s : before s = [] -> matches InputStart s s
| MInputEnd s : rest s = [] -> matches InputEnd s s.

(** [s'] is [s] after reading [w]. *)
Definition reads (w : jsstring) (s s' : mstate) : Prop :=
  rest s = w ++ rest s' /\ before s' = rev w ++ before s.

(** The texts a pattern can read, whatever surrounds them. *)
Fixpoint lang (r : regex) (w : jsstring) : Prop :=
  match r with
  | Empty => w = []
  | Char p => exists c, w = [c] /\ p c = true
  | Seq r1 r2 => exists u v, w = u ++ v /\ lang r1 u /\ lang r2 v
  | Alt r1 r2 => lang r1 w \/ lang r2 w
  | Star r' => exists ws, w = List.concat ws /\ Forall (lang r') ws
  | Group _ r' => lang r' w
  | WordBoundary | InputStart | InputEnd => w = []
  end.

Fixpoint groupFree (r : regex) : bool :=
  match r with
  | Seq r1 r2 | Alt r1 r2 => groupFree r1 && groupFree r2
  | Star r' => groupFree r'
  | Group _ _ => false
  | _ => true
  end.

(** ** The geometry pattern as a scanner

    Pattern (a) of the specification, read from left to right without
    backtracking: a run of digits, optional white space, [x] or the
    multiplication sign, optional white space, a second run, the same
    separator part, a third run.  Every run is taken whole. *)

Definition isTimes (c : codeunit) : bool := ((c =? cx) || (c =? ctimes))%N.

Definition dropDigits (s : jsstring) : jsstring := skipn (length (takeDigits s)) s.

Definition digitTriple (s : jsstring) : option (jsstring * jsstring * jsstring) :=
  let d1 := takeDigits s in
  match dropSpaces (dropDigits s) with
  | x1 :: s1 =>
      let d2 := takeDigits (dropSpaces s1) in
      match dropSpaces (dropDigits (dropSpaces s1)) with
      | x2 :: s2 =>
          let d3 := takeDigits (dropSpaces s2) in
          if negb (isNil d1) && isTimes x1 && negb (isNil d2) && isTimes x2
             && negb (isNil d3)
          then Some (d1, d2, d3) else None
      | [] => None
      end
  | [] => None
  end.

(** The leftmost triple of a text. *)
Fixpoint firstTriple (s : jsstring) : option (jsstring * jsstring * jsstring) :=
  match digitTriple s with
  | Some t => Some t
  | None =>
      match s with
      | [] => None
      | _ :: s' => firstTriple s'
      end
  end.

(** The record after lines 30-71, before any identity is resolved. *)
Definition parameterStages (textLower : jsstring) : StructureRequest :=
  latticeStage textLower
    (structureStage textLower (supercellStage textLower defaults)).

(** ** Predicates of the statements *)

(** A non-empty run of decimal digits. *)
Definition isNumeral (w : jsstring) : Prop := w <> [] /\ forallb isDigit w = true.

(** A Number that is neither [NaN] nor negative. *)
Definition nonNegative (n : number) : Prop :=
  match n with
  | Fin z => (0 <= z)%Z
  | PosInf => True
  | NaN => False
  end.

(** A Number that is at least 1. *)
Definition atLeastOne (n : number) : Prop :=
  match n with
  | Fin z => (1 <= z)%Z
  | PosInf => True
  | NaN => False
  end.

(** Captures 1 to 3 are present and are numerals. *)
Definition threeNumerals (cs : list (nat * jsstring)) : Prop :=
  exists a b c,
    lookupCap 1 cs = Some a /\ lookupCap 2 cs = Some b /\ lookupCap 3 cs = Some c /\
    isNumeral a /\ isNumeral b /\ isNumeral c.

(** A candidate token that the loop of lines 114-129 passes over
    without writing anything: a stop-list word, or a token without
    digit that is not two capitals. *)
Definition twoCapitals (m : jsstring) : bool :=
  match m with
  | [c0; c1] => test upper [c0] && test upper [c1]
  | _ => false
  end.

Definition passedOver (toLowerCase : jsstring -> jsstring) (m : jsstring) : bool :=
  has commonWords (toLowerCase m) || (negb (test digit m) && negb (twoCapitals m)).

(** ** Names that are stop-list words *)

(** A name is a stop-list word in some capitalisation. *)
Definition isStopWord (w : jsstring) : bool := has commonWords (asciiLowerCase w).

(** ** Predicates on the fields of the record *)

(** An element-like symbol: a capital, or a capital and a small letter. *)
Definition isSymbol (w : jsstring) : bool :=
  match w with
  | [c] => isUpper c
  | [c; d] => isUpper c && isLower d
  | _ => false
  end.

(** [w] occurs in [text]. *)
Definition occursIn (w text : jsstring) : Prop :=
  exists pre post, text = pre ++ w ++ post.

(** A pattern whose last item is [\b]. *)
Fixpoint endsAtBoundary (r : regex) : bool :=
  match r with
  | WordBoundary => true
  | Seq _ r2 => endsAtBoundary r2
  | _ => false
  end.

(** The structure-file extensions of line 197. *)
Definition structureExtensions : list jsstring :=
  [js "cif"; js "xyz"; js "vasp"; js "poscar"].

(** A code unit of the class [[\d.]] of the lattice patterns. *)
Definition isDecimalChar (c : codeunit) : bool := isDigit c || (c =? cdot)%N.

(** * The callers: [onSend] and the body of the request

    [App.vue] hands the text of the input box to
    [parseMaterialRequest], and the record with the agent chosen to
    [sendCalculationRequest] of [api/backend.js], which builds the body
    of the POST request.  The exchange with the server is not part of
    the embedding: [onSend] below is the body that is sent, if any. *)

Module Backend.

(** [payload.structure_details] *)
Record StructureDetails := {
  supercell_dims : list number;
  structure_type : option jsstring;
  lattice_parameter : option float;
  compound : option (list jsstring);
  source_type : option jsstring;
  source_params : list (jsstring * jsstring);
  use_llm : bool;
  llm_provider : option jsstring;
  llm_params : list (jsstring * option jsstring)
}.

(** [payload] *)
Record Payload := {
  intent : jsstring;
  material_name : jsstring;
  user_input : jsstring;
  structure_details : StructureDetails
}.

End Backend.

(** A string is truthy unless it is empty. *)
Definition truthy (s : jsstring) : bool := negb (isNil s).

(** [x ? String(x) : null] and [x || null], for [x] a string or [null]. *)
Definition stringOrNull (x : option jsstring) : option jsstring :=
  match x with
  | Some s => if truthy s then Some s else None
  | None => None
  end.

(** [parseFloat(x)] for a Number [x]: [x] is first turned into a string,
    whose digits Number::toString chooses so that they read back as [x]
    (ECMA-262 6.1.6.1.20); [parseFloat] reads all of that string. *)
Definition parseFloatNumber (x : float) : float := x.

(** The decimal digits of a non-negative integer. *)
Fixpoint digitsOf (fuel : nat) (z : Z) (acc : jsstring) : jsstring :=
  match fuel with
  | O => acc
  | S fuel' =>
      let acc' := (48 + Z.to_N (z mod 10))%N :: acc in
      if (z <? 10)%Z then acc' else digitsOf fuel' (z / 10) acc'
  end.

Definition decimalDigits (z : Z) : jsstring :=
  digitsOf (S (Z.to_nat (Z.log2 z))) z [].

(** Number::toString where its result is plain: "NaN", "Infinity", and
    for an integer from 0 below 2^53 the digits of the integer.  (From
    2^53 on the digits are the shortest that read back as the Number,
    which this function does not compute.) *)
Definition exactToString (x : number) : jsstring :=
  match x with
  | NaN => js "NaN"
  | PosInf => js "Infinity"
  | Fin z => decimalDigits z
  end.

Section Frontend.

Variable toLowerCase : jsstring -> jsstring.

(** Number::toString of the host, applied by [parseInt(x)] to a
    Number [x]. *)
Variable numberToString : number -> jsstring.

(** Lines 25-27 of [api/backend.js]. *)
Definition llmModel (llmProvider : jsstring) : option jsstring :=
  if jsstring_eqb llmProvider (js "openai") then Some (js "gpt-4o-mini")
  else if jsstring_eqb llmProvider (js "anthropic")
       then Some (js "claude-3-haiku-20240307")
  else if jsstring_eqb llmProvider (js "ollama") then Some (js "llama3")
  else None.

(** [payload] of [sendCalculationRequest], lines 9-30.  The record
    [parsed] has no property [user_input], so [parsed.user_input] is
    [undefined]; objects and arrays are truthy. *)
Definition payload (parsed : StructureRequest) (useGPU : bool)
    (llmProvider : option jsstring) (userInput : jsstring) : Backend.Payload :=
  let latticeParam := option_map parseFloatNumber (lattice_parameter parsed) in
  {| Backend.intent := js "CALCULATE";
     Backend.material_name :=
       if truthy (material_name parsed) then material_name parsed else js "Si";
     Backend.user_input := if truthy userInput then userInput else [];
     Backend.structure_details :=
       {| Backend.supercell_dims :=
            map (fun x => parseInt (numberToString x)) (supercell_dims parsed);
          Backend.structure_type := stringOrNull (structure_type parsed);
          Backend.lattice_parameter := latticeParam;
          Backend.compound := option_map (map (fun x => x)) (compound parsed);
          Backend.source_type := stringOrNull (source_type parsed);
          Backend.source_params := source_params parsed;
          Backend.use_llm := useGPU;
          Backend.llm_provider := stringOrNull llmProvider;
          Backend.llm_params :=
            match llmProvider with
            | Some p => if useGPU && truthy p then [(js "model", llmModel p)] else []
            | None => []
            end |} |}.

(** [submit] of [FloatingInput.vue]: what it emits, if anything. *)
Definition submit (text agent : jsstring) : option (jsstring * jsstring) :=
  if truthy (trim text) then Some (text, agent) else None.

(** [onSend] of [App.vue], lines 30-50: the body that is sent, if any. *)
Definition onSend (text agent : jsstring) : option Backend.Payload :=
  if truthy (trim text) then
    let parsed := parseMaterialRequest toLowerCase text in
    let useLLM := negb (jsstring_eqb agent (js "Agent")) in
    let llmProvider := if useLLM then Some agent else None in
    Some (payload parsed useLLM llmProvider text)
  else None.

End Frontend.

(** The agents that the selector of [FloatingInput.vue] offers. *)
Definition agents : list jsstring :=
  [js "Agent"; js "openai"; js "anthropic"; js "ollama"; js "gemini"].

(** What [parseInt(x)] makes of a component [x] of [supercell_dims]:
    an integer below 2^53 stays, Infinity becomes [NaN]. *)
Definition sentAs (x sent : number) : Prop :=
  match x with
  | Fin z => (z < 2 ^ 53)%Z -> sent = Fin z
  | PosInf => sent = NaN
  | NaN => sent = NaN
  end.

(** The names of [elementMap] that hold an earlier key of the map:
    "magnesium" holds "si", "germanium" and "zirconium" hold "ni",
    "chromium", "cr" and "co" hold "c", "cobalt" and "palladium" hold
    "al", "platinum" holds "ti", "silver" holds "si". *)
Definition shadowedNames : list jsstring :=
  [js "magnesium"; js "germanium"; js "chromium"; js "cr"; js "cobalt"; js "co";
   js "palladium"; js "platinum"; js "silver"; js "zirconium"].

(** The entries of a table up to the first one that satisfies [f]. *)
Fixpoint upTo {A} (f : A -> bool) (l : list A) : list A :=
  match l with
  | [] => []
  | e :: l' => if f e then [e] else e :: upTo f l'
  end.

(** * The structure viewer: [parseXYZ] of [Visualizer3D.vue] *)

(** The result of [parseInt] on any string: a sign and a magnitude.
    [NaN] has the magnitude [NaN]; a negative zero is [-0]. *)
Record integer := {
  negative : bool;
  magnitude : number
}.

Definition integerNaN : integer := {| negative := false; magnitude := NaN |}.

(** The value of a code unit as a digit of radix [R], if it is one. *)
Definition radixDigit (R : Z) (c : codeunit) : option Z :=
  let v := if isDigit c then Some (Z.of_N c - 48)%Z
           else if isLower c then Some (Z.of_N c - 97 + 10)%Z
           else if isUpper c then Some (Z.of_N c - 65 + 10)%Z
           else None in
  match v with
  | Some d => if (d <? R)%Z then Some d else None
  | None => None
  end.

Fixpoint takeRadixDigits (R : Z) (s : jsstring) : list Z :=
  match s with
  | c :: s' =>
      match radixDigit R c with
      | Some d => d :: takeRadixDigits R s'
      | None => []
      end
  | [] => []
  end.

(** Steps 3 and 4 of [parseInt]: a sign is taken off. *)
Definition dropSign (S : jsstring) : jsstring :=
  match S with
  | c :: t => if (c =? 43)%N || (c =? 45)%N then t else S
  | [] => S
  end.

(** Step 9: "0x" or "0X" is taken off and makes the radix 16. *)
Definition radixPrefix (S : jsstring) : Z * jsstring :=
  match S with
  | a :: b :: t =>
      if (a =? 48)%N && ((b =? 120)%N || (b =? 88)%N) then (16%Z, t)
      else (10%Z, S)
  | _ => (10%Z, S)
  end.

(** [parseInt(s)] without a radix, for any string (ECMA-262 19.2.5):
    leading white space is dropped, then a sign, then "0x" or "0X";
    the digits up to the first code unit that is none are read. *)
Definition parseIntString (s : jsstring) : integer :=
  let S := dropSpaces s in
  let sign := headIs (N.eqb 45) S in
  let RS := radixPrefix (dropSign S) in
  match takeRadixDigits (fst RS) (snd RS) with
  | [] => integerNaN
  | ds => {| negative := sign;
             magnitude :=
               roundToDouble (fold_left (fun acc d => (fst RS * acc + d)%Z) ds 0%Z) |}
  end.

(** [x > 0] *)
Definition isPositive (x : integer) : bool :=
  negb (negative x) &&
  match magnitude x with
  | Fin z => (0 <? z)%Z
  | PosInf => true
  | NaN => false
  end.

(** [s.split(sep)] for a separator of one code unit. *)
Fixpoint split (sep : codeunit) (s : jsstring) : list jsstring :=
  match s with
  | [] => [[]]
  | c :: s' =>
      if (c =? sep)%N then [] :: split sep s'
      else match split sep s' with
           | l :: ls => (c :: l) :: ls
           | [] => [[c]]
           end
  end.

(** [str.split(r)[0]] for a pattern [r] that matches no empty string:
    the text before the leftmost match of [r], all of [str] when there
    is none. *)
Definition splitHead (r : regex) (str : jsstring) : jsstring :=
  match search r [] str with
  | Some (s, _) => rev (before s)
  | None => str
  end.

(** [set.add(x)] for a [Set] kept in insertion order. *)
Definition setAdd (x : jsstring) (set : list jsstring) : list jsstring :=
  if has set x then set else set ++ [x].

(** [parts.join(sep)] *)
Fixpoint join (sep : jsstring) (parts : list jsstring) : jsstring :=
  match parts with
  | [] => []
  | [p] => p
  | p :: ps => p ++ sep ++ join sep ps
  end.

(** The leading run of code units that are no white space: empty when
    the line starts with white space. *)
Fixpoint leadingToken (l : jsstring) : jsstring :=
  match l with
  | c :: l' => if isSpace c then [] else c :: leadingToken l'
  | [] => []
  end.

(** The two refs that [parseXYZ] writes. *)
Record ViewerState := {
  atomCount : integer;
  debugInfo : jsstring
}.

(** [Math.min(2 + atomCount.value, lines.length)] for a positive
    count.  The sum is a Number; where it is rounded it is at least
    2^53, beyond every length. *)
Definition loopBound (count : integer) (len : nat) : nat :=
  match magnitude count with
  | Fin z => Z.to_nat (Z.min (2 + z) (Z.of_nat len))
  | _ => len
  end.

(** The loop of lines 52-57 from index [i] on, over the lines from
    that index on.  [parts] is never empty. *)
Fixpoint collectElements (i bound : nat) (lines : list jsstring)
    (elements : list jsstring) : list jsstring :=
  match lines with
  | [] => elements
  | l :: lines' =>
      if Nat.ltb i bound
      then collectElements (S i) bound lines'
             (setAdd (splitHead (Plus space) l) elements)
      else elements
  end.

(** [lines] of line 46: the lines of the trimmed text that are not
    blank. *)
Definition nonBlankLines (xyzData : jsstring) : list jsstring :=
  filter (fun l => truthy (trim l)) (split 10%N (trim xyzData)).

(** [parseXYZ], lines 39-66.  Nothing in the [try] block throws, so the
    [catch] branch is left out. *)
Definition parseXYZ (xyzData : option jsstring) (debugMode : bool)
    (st : ViewerState) : ViewerState :=
  match xyzData with
  | None | Some [] => {| atomCount := {| negative := false; magnitude := Fin 0 |};
                         debugInfo := [] |}
  | Some data =>
      let lines := nonBlankLines data in
      match lines with
      | [] => st
      | first :: _ =>
          let count := parseIntString (trim first) in
          if debugMode && isPositive count then
            let elements :=
              collectElements 2 (loopBound count (length lines)) (skipn 2 lines) [] in
            {| atomCount := count;
               debugInfo := js "Elements: " ++ join (js ", ") elements |}
          else {| atomCount := count; debugInfo := debugInfo st |}
      end
  end.

(** A candidate token after which the loop of lines 114-129 goes on
    without a compound: one it passes over, or one with a digit that
    segments into fewer than two element symbols. *)
Definition withoutCompound (toLowerCase : jsstring -> jsstring) (m : jsstring)
  : bool :=
  passedOver toLowerCase m ||
  (test digit m && (length (matchAll elementPattern m) <? 2)).

(** ** The matcher is sound *)

Lemma jsstring_eqb_eq a b : jsstring_eqb a b = true <-> a = b.
Proof.
  unfold jsstring_eqb. destruct (list_eq_dec N.eq_dec a b); split; congruence.
Qed.

Lemma jsstring_eqb_refl a : jsstring_eqb a a = true.
Proof. now apply jsstring_eqb_eq. Qed.

Section Soundness.

Variable r : regex.
Hypothesis step_sound : forall k s x,
  matcher r k s = Some x -> exists s', matches r s s' /\ k s' = Some x.

Lemma starLoop_sound k fuel : forall s x,
  starLoop (matcher r) k fuel s = Some x ->
  exists s', matches (Star r) s s' /\ k s' = Some x.
Proof.
  induction fuel as [|fuel IH]; intros s x H; simpl in H.
  - exists s. split; [constructor | assumption].
  - destruct (matcher r _ s) as [y|] eqn:E.
    + inversion H; subst y; clear H.
      apply step_sound in E. destruct E as (s1 & M1 & K1).
      destruct (Nat.ltb (length (rest s1)) (length (rest s))) eqn:L;
        [|discriminate].
      apply IH in K1. destruct K1 as (s2 & M2 & K2).
      exists s2. split; [|assumption].
      eapply MStarStep; eauto. now apply Nat.ltb_lt.
    + exists s. split; [constructor | assumption].
Qed.

End Soundness.

Theorem matcher_sound r : forall k s x,
  matcher r k s = Some x -> exists s', matches r s s' /\ k s' = Some x.
Proof.
  induction r as [|p|r1 IH1 r2 IH2|r1 IH1 r2 IH2|r IH|i r IH| | |];
    intros k s x H; simpl in H.
  - exists s. split; [constructor | assumption].
  - destruct (rest s) as [|c t] eqn:E; [discriminate|].
    destruct (p c) eqn:P; [|discriminate].
    exists (advance s). split; [econstructor; eauto | assumption].
  - apply IH1 in H. destruct H as (s1 & M1 & H).
    apply IH2 in H. destruct H as (s2 & M2 & H).
    exists s2. split; [econstructor; eauto | assumption].
  - destruct (matcher r1 k s) as [y|] eqn:E.
    + inversion H; subst y. apply IH1 in E. destruct E as (s1 & M1 & K1).
      exists s1. split; [now apply MAltL | assumption].
    + apply IH2 in H. destruct H as (s1 & M1 & K1).
      exists s1. split; [now apply MAltR | assumption].
  - eapply starLoop_sound; eauto.
  - apply IH in H. destruct H as (s1 & M1 & K1).
    exists (capture i s s1). split; [now constructor | assumption].
  - destruct (atWordBoundary s) eqn:E; [|discriminate].
    exists s. split; [now constructor | assumption].
  - destruct (before s) eqn:E; [|discriminate].
    exists s. split; [now constructor | assumption].
  - destruct (rest s) eqn:E; [|discriminate].
    exists s. split; [now constructor | assumption].
Qed.

(** ** What a match reads *)

Lemma reads_nil s : reads [] s s.
Proof. split; reflexivity. Qed.

Lemma reads_app u v s s1 s2 :
  reads u s s1 -> reads v s1 s2 -> reads (u ++ v) s s2.
Proof.
  intros [R1 B1] [R2 B2]. split.
  - rewrite R1, R2. now rewrite app_assoc.
  - rewrite B2, B1, rev_app_distr. now rewrite app_assoc.
Qed.

Lemma reads_advance s c t : rest s = c :: t -> reads [c] s (advance s).
Proof.
  intros E. unfold reads, advance. rewrite E. simpl. split; reflexivity.
Qed.

Lemma reads_capture i w s0 s s' : reads w s s' -> reads w s (capture i s0 s').
Proof. intros H. exact H. Qed.

Lemma reads_length w s s' :
  reads w s s' -> length (rest s) = length w + length (rest s').
Proof. intros [R _]. rewrite R. apply length_app. Qed.

Lemma between_reads w s s' : reads w s s' -> between s s' = w.
Proof.
  intros [_ B]. unfold between. rewrite B, length_app, length_rev.
  replace (length w + length (before s) - length (before s)) with (length w) by lia.
  rewrite <- (length_rev w) at 1. rewrite firstn_app, Nat.sub_diag, firstn_all. simpl.
  now rewrite app_nil_r, rev_involutive.
Qed.

(** A match reads a text of the pattern's language. *)
Theorem matches_lang r s s' :
  matches r s s' -> exists w, reads w s s' /\ lang r w.
Proof.
  induction 1 as [s|p s c t E P|r1 r2 s s1 s2 _ IH1 _ IH2|r1 r2 s s' _ IH
                 |r1 r2 s s' _ IH|r s|r s s1 s2 _ IH1 L _ IH2|i r s s' _ IH
                 |s|s|s]; simpl.
  - exists []. split; [apply reads_nil | reflexivity].
  - exists [c]. split; [now apply reads_advance with t | eauto].
  - destruct IH1 as (u & R1 & L1), IH2 as (v & R2 & L2).
    exists (u ++ v). split; [eapply reads_app; eauto | eauto].
  - destruct IH as (w & R & L). eauto.
  - destruct IH as (w & R & L). eauto.
  - exists []. split; [apply reads_nil | exists []; split; [reflexivity | constructor]].
  - destruct IH1 as (u & R1 & L1), IH2 as (v & R2 & ws & E & F).
    exists (u ++ v). split; [eapply reads_app; eauto |].
    exists (u :: ws). split; [simpl; now rewrite E | now constructor].
  - destruct IH as (w & R & L). exists w. split; [now apply reads_capture | assumption].
  - exists []. split; [apply reads_nil | reflexivity].
  - exists []. split; [apply reads_nil | reflexivity].
  - exists []. split; [apply reads_nil | reflexivity].
Qed.

(** Only groups touch the captures. *)
Lemma matches_groupFree r s s' :
  matches r s s' -> groupFree r = true -> caps s' = caps s.
Proof.
  induction 1 as [s|p s c t E P|r1 r2 s s1 s2 _ IH1 _ IH2|r1 r2 s s' _ IH
                 |r1 r2 s s' _ IH|r s|r s s1 s2 _ IH1 L _ IH2|i r s s' _ IH
                 |s|s|s]; simpl; intros G; try reflexivity.
  - unfold advance. now rewrite E.
  - apply andb_prop in G. destruct G as [G1 G2]. now rewrite IH2, IH1.
  - apply andb_prop in G. now apply IH.
  - apply andb_prop in G. now apply IH.
  - now rewrite IH2, IH1.
  - discriminate.
Qed.

Lemma matches_plain r s s' :
  groupFree r = true -> matches r s s' ->
  exists w, reads w s s' /\ lang r w /\ caps s' = caps s.
Proof.
  intros G M. destruct (matches_lang _ _ _ M) as (w & R & L).
  exists w. repeat split; try apply R; auto. eapply matches_groupFree; eauto.
Qed.

Lemma matches_group i r s s' :
  groupFree r = true -> matches (Group i r) s s' ->
  exists w, reads w s s' /\ lang r w /\ caps s' = (i, w) :: caps s.
Proof.
  intros G M. inversion M; subst. clear M.
  destruct (matches_plain _ _ _ G H3) as (w & R & L & C).
  exists w. repeat split; try apply R; auto.
  simpl. rewrite C. now rewrite (between_reads _ _ _ R).
Qed.

(** The leftmost match starts after some prefix of the text. *)
Lemma search_sound r : forall rst bef s s',
  search r bef rst = Some (s, s') ->
  exists pre, rst = pre ++ rest s /\ s = MState (rev pre ++ bef) (rest s) [] /\
              matches r s s'.
Proof.
  induction rst as [|c t IH]; intros bef s s' H; simpl in H.
  - destruct (matchHere r bef []) as [y|] eqn:E; [|discriminate].
    inversion H; subst. exists []. repeat split.
    apply matcher_sound in E. destruct E as (z & M & K). now inversion K; subst.
  - destruct (matchHere r bef (c :: t)) as [y|] eqn:E.
    + inversion H; subst. exists []. repeat split.
      apply matcher_sound in E. destruct E as (z & M & K). now inversion K; subst.
    + apply IH in H. destruct H as (pre & E1 & E2 & M).
      exists (c :: pre). repeat split; auto.
      * simpl. now rewrite <- E1.
      * rewrite E2. simpl. now rewrite <- app_assoc.
Qed.

(** [str.match(r)], when it is not [null], is a text of [r] inside
    [str], with the captures of one match of [r]. *)
Lemma jsMatch_sound r str m :
  jsMatch r str = Some m ->
  exists pre post s s',
    str = pre ++ matched m ++ post /\ reads (matched m) s s' /\
    s = MState (rev pre) (matched m ++ post) [] /\
    matches r s s' /\ groups m = caps s'.
Proof.
  unfold jsMatch. intros H.
  destruct (search r [] str) as [[s s']|] eqn:E; [|discriminate].
  inversion H; subst m. clear H. simpl.
  apply search_sound in E. destruct E as (pre & E1 & E2 & M).
  destruct (matches_lang _ _ _ M) as (w & R & _).
  rewrite (between_reads _ _ _ R).
  exists pre, (rest s'), s, s'. destruct R as [R1 R2].
  repeat split; auto.
  - now rewrite E1, R1.
  - rewrite E2. simpl. now rewrite app_nil_r, R1.
Qed.

(** ** Characters *)

Ltac chars :=
  unfold isTimes, isLetter, isWordChar, isSpace, isDigit, isUpper, isLower,
         isASCII, inRange, cx, ctimes, ccomma, ccolon, cequal, cdot, cdash,
         cslash, cbackslash in *;
  repeat match goal with
         | H : _ = false |- _ => apply not_true_iff_false in H
         | |- _ = false => apply not_true_iff_false; intro
         end;
  repeat (rewrite ?orb_true_iff, ?andb_true_iff, ?N.leb_le, ?N.ltb_lt, ?N.eqb_eq in * );
  lia.

Lemma digit_not_space c : isDigit c = true -> isSpace c = false.
Proof. intros. chars. Qed.

Lemma digit_not_times c : isDigit c = true -> isTimes c = false.
Proof. intros. chars. Qed.

Lemma space_not_digit c : isSpace c = true -> isDigit c = false.
Proof. intros. chars. Qed.

Lemma times_not_digit c : isTimes c = true -> isDigit c = false.
Proof. intros. chars. Qed.

Lemma times_not_space c : isTimes c = true -> isSpace c = false.
Proof. intros. chars. Qed.

(** ** Texts of starred and plussed classes *)

Lemma lang_star_char p w : lang (Star (Char p)) w -> forallb p w = true.
Proof.
  intros (ws & E & F). subst w. induction F as [|u ws (c & Eu & P) _ IH]; simpl.
  - reflexivity.
  - subst u. simpl. now rewrite P.
Qed.

Lemma lang_plus_char p w :
  lang (Plus (Char p)) w -> w <> [] /\ forallb p w = true.
Proof.
  intros (u & v & E & (c & Eu & P) & S). subst. split; [discriminate|].
  simpl. rewrite P. now apply lang_star_char.
Qed.

Lemma lang_word w u : lang (word w) u -> u = w.
Proof.
  revert u. induction w as [|c w IH]; intros u H; simpl in H.
  - assumption.
  - destruct w as [|d w].
    + destruct H as (x & E & P). apply N.eqb_eq in P. now subst.
    + destruct H as (a & b & E & (x & Ea & P) & L).
      apply N.eqb_eq in P. apply IH in L. now subst.
Qed.

(** ** Numbers read from numerals *)

Lemma takeDigits_all w : forallb isDigit w = true -> takeDigits w = w.
Proof.
  induction w as [|c w IH]; simpl; intros H; [reflexivity|].
  apply andb_prop in H. destruct H as [D F]. rewrite D. now rewrite IH.
Qed.

Lemma decimal_fold_nonneg w : forall acc,
  (0 <= acc)%Z -> forallb isDigit w = true ->
  (0 <= fold_left (fun a c => 10 * a + digitValue c) w acc)%Z.
Proof.
  induction w as [|c w IH]; cbn [fold_left forallb]; intros acc Hacc H;
    [assumption|].
  apply andb_prop in H. destruct H as [D F]. apply IH; [|assumption].
  unfold digitValue. assert (48 <= c)%N by chars. lia.
Qed.

Lemma decimalValue_nonneg w :
  forallb isDigit w = true -> (0 <= decimalValue w)%Z.
Proof. intros H. apply decimal_fold_nonneg; [lia | assumption]. Qed.

Lemma roundToDouble_nonNegative n : (0 <= n)%Z -> nonNegative (roundToDouble n).
Proof.
  intros H. unfold roundToDouble.
  destruct (n <? 2 ^ 53)%Z; [exact H|]. cbv zeta.
  destruct (2 ^ 1024 <=? _)%Z; [exact I|].
  unfold nonNegative. apply Z.shiftl_nonneg.
  assert (0 <= Z.shiftr n (Z.log2 n - 52))%Z by (apply Z.shiftr_nonneg; exact H).
  destruct (_ || _); lia.
Qed.

Lemma parseInt_numeral w :
  isNumeral w -> parseInt w = roundToDouble (decimalValue w).
Proof.
  intros [N D]. unfold parseInt. rewrite (takeDigits_all _ D).
  destruct w; [contradiction | reflexivity].
Qed.

Lemma parseInt_nonNegative w : isNumeral w -> nonNegative (parseInt w).
Proof.
  intros H. rewrite (parseInt_numeral _ H).
  apply roundToDouble_nonNegative, decimalValue_nonneg, H.
Qed.

(** Below 2^53 every integer is a Number, and [parseInt] is exact. *)
Lemma parseInt_exact w :
  isNumeral w -> (decimalValue w < 2 ^ 53)%Z -> parseInt w = Fin (decimalValue w).
Proof.
  intros H L. rewrite (parseInt_numeral _ H). unfold roundToDouble.
  apply Z.ltb_lt in L. now rewrite L.
Qed.

(** ** The captures of the geometry patterns *)

Ltac split_match :=
  repeat match goal with
         | H : matches (Seq _ _) _ _ |- _ => inversion H; subst; clear H
         end;
  repeat match goal with
         | H : matches (Group _ _) _ _ |- _ =>
             apply matches_group in H;
             [destruct H as (? & ? & ? & ?) | reflexivity]
         | H : matches _ _ _ |- _ =>
             apply matches_plain in H;
             [destruct H as (? & ? & ? & ?) | reflexivity]
         end.

Ltac chase_caps :=
  repeat match goal with
         | H : caps ?x = _ |- context [caps ?x] => rewrite H
         end.

Lemma lang_numeral w : lang (Plus digit) w -> isNumeral w.
Proof. apply lang_plus_char. Qed.

Lemma supercellPattern1_groups s s' :
  caps s = [] -> matches supercellPattern1 s s' -> threeNumerals (caps s').
Proof.
  intros C M. unfold supercellPattern1, seqs in M. split_match.
  unfold threeNumerals. chase_caps. simpl.
  do 3 eexists. repeat split; eauto using lang_numeral; apply lang_numeral; eauto.
Qed.

Lemma supercellPattern2_groups s s' :
  caps s = [] -> matches supercellPattern2 s s' -> threeNumerals (caps s').
Proof.
  intros C M. unfold supercellPattern2, seqs in M. split_match.
  unfold threeNumerals. chase_caps. simpl.
  do 3 eexists. repeat split; eauto using lang_numeral; apply lang_numeral; eauto.
Qed.

Lemma supercellPattern3_groups s s' :
  caps s = [] -> matches supercellPattern3 s s' -> threeNumerals (caps s').
Proof.
  intros C M. unfold supercellPattern3, seqs in M. split_match.
  unfold threeNumerals. chase_caps. simpl.
  do 3 eexists. repeat split; eauto using lang_numeral; apply lang_numeral; eauto.
Qed.

Lemma firstMatch_supercell str m :
  firstMatch supercellPatterns str = Some m -> threeNumerals (groups m).
Proof.
  unfold supercellPatterns, firstMatch. intros H.
  repeat match type of H with
         | match jsMatch ?p str with _ => _ end = _ =>
             destruct (jsMatch p str) as [m'|] eqn:E;
             [ inversion H; subst m'; clear H;
               apply jsMatch_sound in E;
               destruct E as (pre & post & s & s' & _ & _ & Es & M & G);
               rewrite G; subst s
             | clear E ]
         end.
  - now apply supercellPattern1_groups in M.
  - now apply supercellPattern2_groups in M.
  - now apply supercellPattern3_groups in M.
  - discriminate.
Qed.

(** ** Which stage writes which field *)

Lemma formulaLoop_frame lc ms : forall r,
  supercell_dims (formulaLoop lc ms r) = supercell_dims r /\
  structure_type (formulaLoop lc ms r) = structure_type r /\
  lattice_parameter (formulaLoop lc ms r) = lattice_parameter r /\
  source_type (formulaLoop lc ms r) = source_type r /\
  source_params (formulaLoop lc ms r) = source_params r /\
  use_llm (formulaLoop lc ms r) = use_llm r /\
  llm_provider (formulaLoop lc ms r) = llm_provider r /\
  llm_params (formulaLoop lc ms r) = llm_params r.
Proof.
  induction ms as [|m ms IH]; intros r; cbn [formulaLoop].
  - repeat split.
  - destruct (negb _); [|apply IH].
    destruct (test digit m).
    + destruct (Nat.leb _ _); [repeat split|].
      destruct (IH (set_material_name m r)) as (A & B & C & D & E & F & G & H).
      repeat split; assumption.
    + destruct m as [|c0 [|c1 [|c2 m]]]; try apply IH.
      destruct (_ && _); [repeat split | apply IH].
Qed.

Lemma formulaStage_frame lc text r :
  supercell_dims (formulaStage lc text r) = supercell_dims r /\
  structure_type (formulaStage lc text r) = structure_type r /\
  lattice_parameter (formulaStage lc text r) = lattice_parameter r /\
  source_type (formulaStage lc text r) = source_type r /\
  source_params (formulaStage lc text r) = source_params r /\
  use_llm (formulaStage lc text r) = use_llm r /\
  llm_provider (formulaStage lc text r) = llm_provider r /\
  llm_params (formulaStage lc text r) = llm_params r.
Proof.
  unfold formulaStage. destruct (compound r); [repeat split | apply formulaLoop_frame].
Qed.

Lemma elementStage_frame lc text tl r :
  supercell_dims (elementStage lc text tl r) = supercell_dims r /\
  structure_type (elementStage lc text tl r) = structure_type r /\
  lattice_parameter (elementStage lc text tl r) = lattice_parameter r /\
  compound (elementStage lc text tl r) = compound r /\
  source_type (elementStage lc text tl r) = source_type r /\
  source_params (elementStage lc text tl r) = source_params r /\
  use_llm (elementStage lc text tl r) = use_llm r /\
  llm_provider (elementStage lc text tl r) = llm_provider r /\
  llm_params (elementStage lc text tl r) = llm_params r.
Proof.
  unfold elementStage. destruct (compound r) eqn:C; [repeat split; assumption|].
  destruct (elementHit tl); simpl;
    destruct (jsstring_eqb _ _); try destruct (potentialElements lc text);
    repeat split; assumption.
Qed.

Lemma sourceStage_frame text r :
  supercell_dims (sourceStage text r) = supercell_dims r /\
  structure_type (sourceStage text r) = structure_type r /\
  lattice_parameter (sourceStage text r) = lattice_parameter r /\
  compound (sourceStage text r) = compound r /\
  source_params (sourceStage text r) = source_params r /\
  use_llm (sourceStage text r) = use_llm r /\
  llm_provider (sourceStage text r) = llm_provider r /\
  llm_params (sourceStage text r) = llm_params r.
Proof.
  unfold sourceStage.
  destruct (jsMatch mpPattern text); [repeat split|].
  destruct (jsMatch codPattern text); [repeat split|].
  destruct (jsMatch urlPattern text); [repeat split|].
  destruct (_ || _); repeat split.
Qed.

Lemma applyEntry_frame v r :
  supercell_dims (applyEntry v r) = supercell_dims r /\
  lattice_parameter (applyEntry v r) = lattice_parameter r /\
  source_type (applyEntry v r) = source_type r /\
  source_params (applyEntry v r) = source_params r /\
  use_llm (applyEntry v r) = use_llm r /\
  llm_provider (applyEntry v r) = llm_provider r /\
  llm_params (applyEntry v r) = llm_params r.
Proof. unfold applyEntry. destruct (entry_structure_type v); repeat split. Qed.

(** The record before identity resolution: stages 1 to 3. *)
Lemma parse_supercell_dims lc text :
  supercell_dims (parseMaterialRequest lc text) =
  supercell_dims (supercellStage (lc text) defaults).
Proof.
  unfold parseMaterialRequest.
  set (r3 := latticeStage _ (structureStage _ (supercellStage _ _))).
  assert (E : supercell_dims r3 = supercell_dims (supercellStage (lc text) defaults)).
  { unfold r3, latticeStage, structureStage.
    destruct (firstMatch latticePatterns _); destruct (matchingTag _); reflexivity. }
  rewrite <- E. destruct (dictionaryHit _).
  - apply applyEntry_frame.
  - destruct (sourceStage_frame text
                (elementStage lc text (lc text) (formulaStage lc text r3))) as (-> & _).
    destruct (elementStage_frame lc text (lc text) (formulaStage lc text r3)) as (-> & _).
    apply formulaStage_frame.
Qed.

(** ** Geometry: the components of [supercell_dims] *)

Lemma firstMatch_none ps str :
  (forall p, In p ps -> jsMatch p str = None) -> firstMatch ps str = None.
Proof.
  induction ps as [|p ps IH]; intros H; simpl; [reflexivity|].
  rewrite (H p (or_introl eq_refl)). apply IH. intros q Hq. apply H. now right.
Qed.

Lemma supercellStage_dims str r :
  (exists m, firstMatch supercellPatterns str = Some m /\
     supercell_dims (supercellStage str r) =
       [parseIntGroup 1 m; parseIntGroup 2 m; parseIntGroup 3 m]) \/
  (firstMatch supercellPatterns str = None /\
     supercell_dims (supercellStage str r) = supercell_dims r).
Proof.
  unfold supercellStage. destruct (firstMatch supercellPatterns str) as [m|].
  - left. exists m. split; reflexivity.
  - right. split; reflexivity.
Qed.

(** C3, as amended: for every input the field [supercell_dims] has
    exactly three components; each is a Number that is not [NaN] and
    not negative (an integer read from a run of digits, which may be 0);
    and when none of the three geometry patterns matches the case-folded
    text the field is (1,1,1). *)
Theorem C3_supercell_dims_components
    (toLowerCase : jsstring -> jsstring) (text : jsstring) :
  (exists a b c,
     supercell_dims (parseMaterialRequest toLowerCase text) = [a; b; c] /\
     nonNegative a /\ nonNegative b /\ nonNegative c) /\
  ((forall p, In p supercellPatterns -> jsMatch p (toLowerCase text) = None) ->
   supercell_dims (parseMaterialRequest toLowerCase text) = [Fin 1; Fin 1; Fin 1]).
Proof.
  rewrite parse_supercell_dims.
  destruct (supercellStage_dims (toLowerCase text) defaults)
    as [(m & F & E)|(F & E)]; rewrite E; split.
  - apply firstMatch_supercell in F.
    destruct F as (a & b & c & G1 & G2 & G3 & N1 & N2 & N3).
    unfold parseIntGroup, group. rewrite G1, G2, G3.
    do 3 eexists. split; [reflexivity|].
    repeat split; now apply parseInt_nonNegative.
  - intros H. apply firstMatch_none in H. congruence.
  - exists (Fin 1), (Fin 1), (Fin 1). simpl. repeat split; lia.
  - reflexivity.
Qed.

(** C3 as stated fails: the text "0x0x0" gives (0,0,0), whose
    components are not at least 1. *)
Lemma C3_counterexample :
  supercell_dims (parseMaterialRequest asciiLowerCase (js "0x0x0"))
    = [Fin 0; Fin 0; Fin 0] /\
  ~ Forall atLeastOne
      (supercell_dims (parseMaterialRequest asciiLowerCase (js "0x0x0"))).
Proof.
  assert (E : supercell_dims (parseMaterialRequest asciiLowerCase (js "0x0x0"))
              = [Fin 0; Fin 0; Fin 0]) by (vm_compute; reflexivity).
  split; [exact E|]. rewrite E. intros H. inversion H; subst. simpl in *. lia.
Qed.

(** ** Runs of digits and of white space *)

Lemma headIs_app_cons (P Q : N -> bool) ws x t :
  forallb P ws = true -> (forall c, P c = true -> Q c = false) -> Q x = false ->
  headIs Q (ws ++ x :: t) = false.
Proof.
  intros F PQ Qx. destruct ws as [|c ws]; simpl; [assumption|].
  simpl in F. apply andb_prop in F. now apply PQ.
Qed.

Lemma headIs_numeral (Q : N -> bool) d t :
  isNumeral d -> (forall c, isDigit c = true -> Q c = false) ->
  headIs Q (d ++ t) = false.
Proof.
  intros [N F] DQ. destruct d as [|c d]; [contradiction|].
  simpl in *. apply andb_prop in F. now apply DQ.
Qed.

Lemma takeDigits_app d t :
  forallb isDigit d = true -> takeDigits (d ++ t) = d ++ takeDigits t.
Proof.
  induction d as [|c d IH]; simpl; intros F; [reflexivity|].
  apply andb_prop in F. destruct F as [D F]. rewrite D. now rewrite IH.
Qed.

Lemma takeDigits_stop t : headIs isDigit t = false -> takeDigits t = [].
Proof. destruct t as [|c t]; simpl; intros H; [reflexivity | now rewrite H]. Qed.

Lemma takeDigits_run d t :
  forallb isDigit d = true -> headIs isDigit t = false -> takeDigits (d ++ t) = d.
Proof.
  intros F H. rewrite takeDigits_app, takeDigits_stop, app_nil_r; auto.
Qed.

Lemma dropDigits_run d t :
  forallb isDigit d = true -> headIs isDigit t = false -> dropDigits (d ++ t) = t.
Proof.
  intros F H. unfold dropDigits. rewrite takeDigits_run by assumption.
  rewrite skipn_app, skipn_all, Nat.sub_diag. reflexivity.
Qed.

Lemma dropSpaces_run ws t :
  forallb isSpace ws = true -> headIs isSpace t = false -> dropSpaces (ws ++ t) = t.
Proof.
  induction ws as [|c ws IH]; cbn [dropSpaces app forallb]; intros F H.
  - destruct t as [|c t]; [reflexivity|]. cbn [headIs dropSpaces] in *. now rewrite H.
  - apply andb_prop in F. destruct F as [S F]. rewrite S. now apply IH.
Qed.

Lemma takeDigits_spec s :
  s = takeDigits s ++ dropDigits s /\ forallb isDigit (takeDigits s) = true /\
  headIs isDigit (dropDigits s) = false.
Proof.
  unfold dropDigits. induction s as [|c s (E & F & H)]; simpl; [auto|].
  destruct (isDigit c) eqn:D; simpl.
  - rewrite D. repeat split; auto. now rewrite <- E.
  - rewrite D. auto.
Qed.

Lemma dropSpaces_spec s :
  exists ws, s = ws ++ dropSpaces s /\ forallb isSpace ws = true /\
             headIs isSpace (dropSpaces s) = false.
Proof.
  induction s as [|c s (ws & E & F & H)]; cbn [dropSpaces].
  - exists []. auto.
  - destruct (isSpace c) eqn:S.
    + exists (c :: ws). cbn [forallb app]. rewrite S, F. repeat split; auto.
      now rewrite <- E.
    + exists []. cbn [forallb app headIs]. auto.
Qed.

(** The scanner on a text laid out as pattern (a). *)
Lemma digitTriple_shape d1 ws1 x1 ws2 d2 ws3 x2 ws4 d3 t :
  isNumeral d1 -> forallb isSpace ws1 = true -> isTimes x1 = true ->
  forallb isSpace ws2 = true -> isNumeral d2 -> forallb isSpace ws3 = true ->
  isTimes x2 = true -> forallb isSpace ws4 = true -> isNumeral d3 ->
  digitTriple (d1 ++ ws1 ++ x1 :: ws2 ++ d2 ++ ws3 ++ x2 :: ws4 ++ d3 ++ t)
  = Some (d1, d2, d3 ++ takeDigits t).
Proof.
  intros N1 S1 X1 S2 N2 S3 X2 S4 N3.
  assert (H1 : forall u, headIs isDigit (ws1 ++ x1 :: u) = false)
    by (intros; eapply headIs_app_cons; eauto using space_not_digit, times_not_digit).
  assert (H3 : forall u, headIs isDigit (ws3 ++ x2 :: u) = false)
    by (intros; eapply headIs_app_cons; eauto using space_not_digit, times_not_digit).
  assert (K2 : forall u, headIs isSpace (d2 ++ u) = false)
    by (intros; apply headIs_numeral; auto using digit_not_space).
  assert (K3 : forall u, headIs isSpace (d3 ++ u) = false)
    by (intros; apply headIs_numeral; auto using digit_not_space).
  assert (T1 : isSpace x1 = false) by now apply times_not_space.
  assert (T2 : isSpace x2 = false) by now apply times_not_space.
  unfold digitTriple.
  rewrite (dropDigits_run d1 _ (proj2 N1) (H1 _)).
  rewrite (takeDigits_run d1 _ (proj2 N1) (H1 _)).
  rewrite (dropSpaces_run ws1 (x1 :: _) S1) by (simpl; assumption).
  rewrite (dropSpaces_run ws2 _ S2 (K2 _)).
  rewrite (dropDigits_run d2 _ (proj2 N2) (H3 _)).
  rewrite (takeDigits_run d2 _ (proj2 N2) (H3 _)).
  rewrite (dropSpaces_run ws3 (x2 :: _) S3) by (simpl; assumption).
  rewrite (dropSpaces_run ws4 _ S4 (K3 _)).
  rewrite (takeDigits_app d3 _ (proj2 N3)).
  rewrite X1, X2.
  destruct N1 as [N1 _], N2 as [N2 _], N3 as [N3 _].
  destruct d1; [contradiction|]. destruct d2; [contradiction|].
  destruct d3; [contradiction|]. reflexivity.
Qed.

(** What the scanner found is laid out as pattern (a), with the third
    run taken whole. *)
Lemma digitTriple_inv s d1 d2 d3 :
  digitTriple s = Some (d1, d2, d3) ->
  exists ws1 x1 ws2 ws3 x2 ws4 t,
    s = d1 ++ ws1 ++ x1 :: ws2 ++ d2 ++ ws3 ++ x2 :: ws4 ++ d3 ++ t /\
    isNumeral d1 /\ forallb isSpace ws1 = true /\ isTimes x1 = true /\
    forallb isSpace ws2 = true /\ isNumeral d2 /\ forallb isSpace ws3 = true /\
    isTimes x2 = true /\ forallb isSpace ws4 = true /\ isNumeral d3 /\
    headIs isDigit t = false.
Proof.
  unfold digitTriple. intros H.
  destruct (takeDigits_spec s) as (E1 & F1 & _).
  destruct (dropSpaces_spec (dropDigits s)) as (ws1 & E2 & S1 & _).
  destruct (dropSpaces (dropDigits s)) as [|x1 s1]; [discriminate|].
  destruct (dropSpaces_spec s1) as (ws2 & E3 & S2 & _).
  destruct (takeDigits_spec (dropSpaces s1)) as (E4 & F2 & _).
  destruct (dropSpaces_spec (dropDigits (dropSpaces s1))) as (ws3 & E5 & S3 & _).
  destruct (dropSpaces (dropDigits (dropSpaces s1))) as [|x2 s2]; [discriminate|].
  destruct (dropSpaces_spec s2) as (ws4 & E6 & S4 & _).
  destruct (takeDigits_spec (dropSpaces s2)) as (E7 & F3 & H3).
  destruct (negb (isNil (takeDigits s))) eqn:N1; [|discriminate].
  destruct (isTimes x1) eqn:X1; [|discriminate].
  destruct (negb (isNil (takeDigits (dropSpaces s1)))) eqn:N2; [|discriminate].
  destruct (isTimes x2) eqn:X2; [|discriminate].
  destruct (negb (isNil (takeDigits (dropSpaces s2)))) eqn:N3; [|discriminate].
  simpl in H. inversion H; subst d1 d2 d3. clear H.
  exists ws1, x1, ws2, ws3, x2, ws4, (dropDigits (dropSpaces s2)).
  split.
  { rewrite <- E7, <- E6, <- E5, <- E4, <- E3, <- E2. exact E1. }
  repeat split; auto; intros E; rewrite E in *; discriminate.
Qed.

(** ** The matcher on runs: the greedy path *)

Lemma mstate_eta s : MState (before s) (rest s) (caps s) = s.
Proof. now destruct s. Qed.

Lemma char_step p k s c t :
  rest s = c :: t -> p c = true ->
  matcher (Char p) k s = k (MState (c :: before s) t (caps s)).
Proof.
  intros R P. cbn [matcher]. rewrite R, P. unfold advance. now rewrite R.
Qed.

Lemma char_stop p k s : headIs p (rest s) = false -> matcher (Char p) k s = None.
Proof.
  intros H. cbn [matcher]. destruct (rest s) as [|c t]; [reflexivity|].
  cbn [headIs] in H. now rewrite H.
Qed.

(** A star of a class over a whole run, when what follows succeeds. *)
Lemma starLoop_run p k w : forall fuel s t x,
  rest s = w ++ t -> forallb p w = true -> headIs p t = false ->
  length (rest s) <= fuel ->
  k (MState (rev w ++ before s) t (caps s)) = Some x ->
  starLoop (matcher (Char p)) k fuel s = Some x.
Proof.
  induction w as [|c w IH]; intros fuel s t x R F H L K.
  - simpl in R, K. rewrite <- R, mstate_eta in K.
    destruct fuel as [|fuel]; cbn [starLoop]; [assumption|].
    rewrite char_stop; [assumption | now rewrite R].
  - cbn [forallb] in F. apply andb_prop in F. destruct F as [P F].
    destruct fuel as [|fuel]; [rewrite R in L; simpl in L; lia|].
    cbn [starLoop]. rewrite (char_step p _ s c (w ++ t)) by assumption.
    cbn [rest]. rewrite R.
    match goal with
    | |- context [Nat.ltb ?a ?b] =>
        replace (Nat.ltb a b) with true by (symmetry; apply Nat.ltb_lt; simpl; lia)
    end.
    rewrite (IH fuel (MState (c :: before s) (w ++ t) (caps s)) t x); auto.
    + rewrite R in L. simpl in *. lia.
    + cbn [before caps]. cbn [rev] in K. now rewrite <- app_assoc in K.
Qed.

Lemma matcher_seq r1 r2 k s :
  matcher (Seq r1 r2) k s = matcher r1 (matcher r2 k) s.
Proof. reflexivity. Qed.

Lemma matcher_group i r k s :
  matcher (Group i r) k s = matcher r (fun s' => k (capture i s s')) s.
Proof. reflexivity. Qed.

Lemma matcher_star r k s :
  matcher (Star r) k s = starLoop (matcher r) k (length (rest s)) s.
Proof. reflexivity. Qed.

Lemma star_run p k w s t x :
  rest s = w ++ t -> forallb p w = true -> headIs p t = false ->
  k (MState (rev w ++ before s) t (caps s)) = Some x ->
  matcher (Star (Char p)) k s = Some x.
Proof. intros. rewrite matcher_star. eapply starLoop_run; eauto. Qed.

(** A group around a numeral, taken whole. *)
Lemma group_numeral_run i k s d t x :
  rest s = d ++ t -> isNumeral d -> headIs isDigit t = false ->
  k (MState (rev d ++ before s) t ((i, d) :: caps s)) = Some x ->
  matcher (Group i (Plus digit)) k s = Some x.
Proof.
  intros R [N F] H K. destruct d as [|c d]; [contradiction|].
  cbn [forallb] in F. apply andb_prop in F. destruct F as [P F].
  unfold Plus, digit. rewrite matcher_group, matcher_seq.
  rewrite (char_step isDigit _ s c (d ++ t)) by assumption.
  rewrite matcher_star.
  eapply starLoop_run with (w := d) (t := t); eauto.
  unfold capture. cbn [before rest caps].
  assert (B : between s (MState (rev d ++ c :: before s) t (caps s)) = c :: d).
  { apply between_reads. split; cbn [rest before]; [assumption|].
    cbn [rev]. now rewrite <- app_assoc. }
  rewrite B. cbn [rev] in K. now rewrite <- app_assoc in K.
Qed.

(** Pattern (a) on a text laid out as a triple. *)
Lemma matchHere_triple bef d1 ws1 x1 ws2 d2 ws3 x2 ws4 d3 t :
  isNumeral d1 -> forallb isSpace ws1 = true -> isTimes x1 = true ->
  forallb isSpace ws2 = true -> isNumeral d2 -> forallb isSpace ws3 = true ->
  isTimes x2 = true -> forallb isSpace ws4 = true -> isNumeral d3 ->
  headIs isDigit t = false ->
  exists s',
    matchHere supercellPattern1 bef
      (d1 ++ ws1 ++ x1 :: ws2 ++ d2 ++ ws3 ++ x2 :: ws4 ++ d3 ++ t) = Some s' /\
    caps s' = [(3, d3); (2, d2); (1, d1)].
Proof.
  intros N1 S1 X1 S2 N2 S3 X2 S4 N3 H.
  assert (T : forall c, isTimes c = true -> existsb (N.eqb c) [cx; ctimes] = true)
    by (intros c Hc; unfold isTimes in Hc; simpl; now rewrite orb_false_r).
  eexists. split.
  - unfold matchHere, supercellPattern1, seqs, oneOf, space.
    rewrite matcher_seq.
    eapply group_numeral_run; [reflexivity | assumption | |].
    { eapply headIs_app_cons; eauto using space_not_digit, times_not_digit. }
    rewrite matcher_seq.
    eapply star_run; [reflexivity | assumption | |].
    { cbn [headIs]. now apply times_not_space. }
    rewrite matcher_seq.
    rewrite (char_step _ _ _ x1 (ws2 ++ d2 ++ ws3 ++ x2 :: ws4 ++ d3 ++ t))
      by (auto; reflexivity).
    rewrite matcher_seq.
    eapply star_run; [reflexivity | assumption | |].
    { apply headIs_numeral; auto using digit_not_space. }
    rewrite matcher_seq.
    eapply group_numeral_run; [reflexivity | assumption | |].
    { eapply headIs_app_cons; eauto using space_not_digit, times_not_digit. }
    rewrite matcher_seq.
    eapply star_run; [reflexivity | assumption | |].
    { cbn [headIs]. now apply times_not_space. }
    rewrite matcher_seq.
    rewrite (char_step _ _ _ x2 (ws4 ++ d3 ++ t)) by (auto; reflexivity).
    rewrite matcher_seq.
    eapply star_run; [reflexivity | assumption | |].
    { apply headIs_numeral; auto using digit_not_space. }
    eapply group_numeral_run; [reflexivity | assumption | assumption |].
    reflexivity.
  - reflexivity.
Qed.

Lemma oneOf_times c : existsb (N.eqb c) [cx; ctimes] = true -> isTimes c = true.
Proof. unfold isTimes. simpl. now rewrite orb_false_r. Qed.

(** Any match of pattern (a) is laid out as a triple. *)
Lemma supercellPattern1_shape s s' :
  matches supercellPattern1 s s' ->
  exists d1 ws1 x1 ws2 d2 ws3 x2 ws4 d3,
    rest s = d1 ++ ws1 ++ x1 :: ws2 ++ d2 ++ ws3 ++ x2 :: ws4 ++ d3 ++ rest s' /\
    isNumeral d1 /\ forallb isSpace ws1 = true /\ isTimes x1 = true /\
    forallb isSpace ws2 = true /\ isNumeral d2 /\ forallb isSpace ws3 = true /\
    isTimes x2 = true /\ forallb isSpace ws4 = true /\ isNumeral d3.
Proof.
  intros M. unfold supercellPattern1, seqs in M. split_match.
  repeat match goal with
         | H : reads _ _ _ |- _ => destruct H as [? _]
         | H : caps _ = _ |- _ => clear H
         | H : lang (Plus digit) _ |- _ => apply lang_numeral in H
         | H : lang (Star space) _ |- _ => apply lang_star_char in H
         | H : lang (oneOf _) _ |- _ =>
             destruct H as (? & ? & H); subst; apply oneOf_times in H
         end.
  do 9 eexists. split.
  - repeat match goal with
           | H : rest ?a = _ |- context [rest ?a] => rewrite H; clear H
           end.
    cbn [app]. reflexivity.
  - repeat match goal with |- _ /\ _ => split end; eassumption.
Qed.

Lemma matchHere_no_triple bef str :
  digitTriple str = None -> matchHere supercellPattern1 bef str = None.
Proof.
  intros D. destruct (matchHere supercellPattern1 bef str) as [s'|] eqn:E;
    [|reflexivity].
  apply matcher_sound in E. destruct E as (s1 & M & _).
  apply supercellPattern1_shape in M.
  destruct M as (d1 & ws1 & x1 & ws2 & d2 & ws3 & x2 & ws4 & d3 & R & M).
  cbn [rest] in R. destruct M as (N1 & S1 & X1 & S2 & N2 & S3 & X2 & S4 & N3).
  rewrite R, (digitTriple_shape _ _ _ _ _ _ _ _ _ _ N1 S1 X1 S2 N2 S3 X2 S4 N3) in D. discriminate.
Qed.

(** The leftmost match of pattern (a) is the leftmost triple. *)
Lemma search_firstTriple str : forall bef,
  match firstTriple str with
  | Some (d1, d2, d3) =>
      exists s s', search supercellPattern1 bef str = Some (s, s') /\
                   caps s' = [(3, d3); (2, d2); (1, d1)]
  | None => search supercellPattern1 bef str = None
  end.
Proof.
  assert (Hit : forall str bef d1 d2 d3, digitTriple str = Some (d1, d2, d3) ->
            exists s s', search supercellPattern1 bef str = Some (s, s') /\
                         caps s' = [(3, d3); (2, d2); (1, d1)]).
  { intros s0 bef d1 d2 d3 D. apply digitTriple_inv in D.
    destruct D as (ws1 & x1 & ws2 & ws3 & x2 & ws4 & t & E & N1 & S1 & X1 & S2
                   & N2 & S3 & X2 & S4 & N3 & H).
    destruct (matchHere_triple bef _ _ _ _ _ _ _ _ _ t N1 S1 X1 S2 N2 S3 X2 S4 N3 H) as (s' & M & C).
    rewrite <- E in M. exists (MState bef s0 []), s'. split; [|assumption].
    destruct s0; cbn [search]; now rewrite M. }
  induction str as [|c str IH]; intros bef; cbn [firstTriple].
  - destruct (digitTriple []) as [[[d1 d2] d3]|] eqn:D; [now apply Hit|].
    cbn [search]. now rewrite (matchHere_no_triple bef _ D).
  - destruct (digitTriple (c :: str)) as [[[d1 d2] d3]|] eqn:D; [now apply Hit|].
    specialize (IH (c :: bef)). cbn [search].
    rewrite (matchHere_no_triple bef _ D). exact IH.
Qed.

Lemma jsMatch_firstTriple str d1 d2 d3 :
  firstTriple str = Some (d1, d2, d3) ->
  exists m, jsMatch supercellPattern1 str = Some m /\
            group 1 m = Some d1 /\ group 2 m = Some d2 /\ group 3 m = Some d3.
Proof.
  intros F. pose proof (search_firstTriple str []) as H. rewrite F in H.
  destruct H as (s & s' & S & C). unfold jsMatch. rewrite S.
  eexists. split; [reflexivity|]. unfold group. cbn [groups]. rewrite C.
  repeat split.
Qed.

Lemma firstTriple_numerals str d1 d2 d3 :
  firstTriple str = Some (d1, d2, d3) ->
  isNumeral d1 /\ isNumeral d2 /\ isNumeral d3.
Proof.
  induction str as [|c str IH]; cbn [firstTriple]; intros H.
  - destruct (digitTriple []) eqn:D; [|discriminate]. inversion H; subst.
    apply digitTriple_inv in D. tauto || (destruct D as (?&?&?&?&?&?&?&?&D); tauto).
  - destruct (digitTriple (c :: str)) eqn:D; [|now apply IH]. inversion H; subst.
    apply digitTriple_inv in D. destruct D as (?&?&?&?&?&?&?&?&D). tauto.
Qed.

(** ** Geometry: the leftmost triple wins *)

Lemma supercell_dims_firstTriple lc text d1 d2 d3 :
  firstTriple (lc text) = Some (d1, d2, d3) ->
  supercell_dims (parseMaterialRequest lc text)
    = [parseInt d1; parseInt d2; parseInt d3].
Proof.
  intros H. rewrite parse_supercell_dims.
  destruct (jsMatch_firstTriple _ _ _ _ H) as (m & M & G1 & G2 & G3).
  unfold supercellStage, supercellPatterns, firstMatch. rewrite M.
  unfold parseIntGroup. now rewrite G1, G2, G3.
Qed.

Lemma digitTriple_needs_digit s : headIs isDigit s = false -> digitTriple s = None.
Proof.
  intros H. unfold digitTriple. rewrite (takeDigits_stop _ H). cbn [isNil negb andb].
  destruct (dropSpaces (dropDigits s)) as [|x1 s1]; [reflexivity|].
  destruct (dropSpaces (dropDigits (dropSpaces s1))); reflexivity.
Qed.

Lemma firstTriple_hit s t : digitTriple s = Some t -> firstTriple s = Some t.
Proof. intros H. destruct s; cbn [firstTriple]; now rewrite H. Qed.

Lemma firstTriple_skip pre s :
  forallb (fun c => negb (isDigit c)) pre = true ->
  firstTriple (pre ++ s) = firstTriple s.
Proof.
  induction pre as [|c pre IH]; cbn [forallb app]; intros H; [reflexivity|].
  apply andb_prop in H. destruct H as [C F]. apply negb_true_iff in C.
  cbn [firstTriple]. rewrite digitTriple_needs_digit by exact C. now apply IH.
Qed.

(** A bare triple after text without digits, and not followed by a
    digit, is the one that [supercell_dims] takes. *)
Lemma supercell_dims_plain_triple lc text pre d1 x1 d2 x2 d3 post :
  lc text = pre ++ d1 ++ x1 :: d2 ++ x2 :: d3 ++ post ->
  forallb (fun c => negb (isDigit c)) pre = true ->
  isNumeral d1 -> isTimes x1 = true -> isNumeral d2 -> isTimes x2 = true ->
  isNumeral d3 -> headIs isDigit post = false ->
  supercell_dims (parseMaterialRequest lc text)
    = [parseInt d1; parseInt d2; parseInt d3].
Proof.
  intros E P N1 X1 N2 X2 N3 H. apply supercell_dims_firstTriple.
  rewrite E, (firstTriple_skip _ _ P). apply firstTriple_hit.
  pose proof (digitTriple_shape d1 [] x1 [] d2 [] x2 [] d3 post
                N1 eq_refl X1 eq_refl N2 eq_refl X2 eq_refl N3) as D.
  cbn [app] in D. rewrite D, (takeDigits_stop _ H), app_nil_r. reflexivity.
Qed.

(** C5, as amended: when the case-folded text holds a digit triple
    DxDxD or D×D×D (white space allowed around the separators), the
    field [supercell_dims] is the leftmost such triple, every run of
    digits taken whole and read by [parseInt]; the three runs are
    numerals, and below 2^53 [parseInt] gives their exact value. *)
Theorem C5_leftmost_triple
    (toLowerCase : jsstring -> jsstring) (text d1 d2 d3 : jsstring)
    (H : firstTriple (toLowerCase text) = Some (d1, d2, d3)) :
  supercell_dims (parseMaterialRequest toLowerCase text)
    = [parseInt d1; parseInt d2; parseInt d3] /\
  Forall (fun d => isNumeral d /\
                   ((decimalValue d < 2 ^ 53)%Z -> parseInt d = Fin (decimalValue d)))
         [d1; d2; d3].
Proof.
  split.
  - now apply supercell_dims_firstTriple.
  - destruct (firstTriple_numerals _ _ _ _ H) as (N1 & N2 & N3).
    repeat (apply Forall_cons; [split; [assumption | now apply parseInt_exact]|]).
    apply Forall_nil.
Qed.

Lemma C5_leftmost_triple_witness :
  firstTriple (asciiLowerCase (js "SiO2 2x2x2")) = Some (js "2", js "2", js "2") /\
  supercell_dims (parseMaterialRequest asciiLowerCase (js "SiO2 2x2x2"))
    = [Fin 2; Fin 2; Fin 2].
Proof.
  split; [reflexivity|].
  exact (proj1 (C5_leftmost_triple asciiLowerCase (js "SiO2 2x2x2")
                  (js "2") (js "2") (js "2") eq_refl)).
Defined.

(** C5 as stated fails: "2x2x2 3x3x3" contains the triple 3x3x3, and
    the field is (2,2,2). *)
Lemma C5_counterexample :
  js "2x2x2 3x3x3" = js "2x2x2 " ++ js "3x3x3" ++ [] /\
  supercell_dims (parseMaterialRequest asciiLowerCase (js "2x2x2 3x3x3"))
    = [Fin 2; Fin 2; Fin 2] /\
  supercell_dims (parseMaterialRequest asciiLowerCase (js "2x2x2 3x3x3"))
    <> [Fin 3; Fin 3; Fin 3].
Proof.
  assert (E : supercell_dims (parseMaterialRequest asciiLowerCase (js "2x2x2 3x3x3"))
              = [Fin 2; Fin 2; Fin 2]) by (vm_compute; reflexivity).
  split; [reflexivity|]. split; [exact E|]. rewrite E. discriminate.
Qed.

(** ** Structure taxonomy: declaration order decides *)

Lemma find_first {A} (f : A -> bool) : forall l i x,
  nth_error l i = Some x -> f x = true ->
  exists k y, k <= i /\ nth_error l k = Some y /\ f y = true /\
              find f l = Some y /\
              (forall j z, j < k -> nth_error l j = Some z -> f z = false).
Proof.
  induction l as [|a l IH]; intros i x E F.
  - destruct i; discriminate.
  - simpl. destruct (f a) eqn:Fa.
    + exists 0, a. repeat split; auto; try lia.
    + destruct i as [|i]; simpl in E; [congruence|].
      destruct (IH i x E F) as (k & y & Hk & Ek & Fy & Ef & Hfirst).
      exists (S k), y. repeat split; auto; try lia.
      intros [|j] z Hj Ez; simpl in Ez; [congruence|].
      apply (Hfirst j); [lia | assumption].
Qed.

Lemma structureKeywords_tags_distinct : NoDup (map fst structureKeywords).
Proof.
  apply (NoDup_count_occ' (list_eq_dec N.eq_dec)). intros x Hx.
  repeat (destruct Hx as [<-|Hx]; [vm_compute; reflexivity|]). destruct Hx.
Qed.

Lemma structure_type_stages lc text :
  let r2 := structureStage (lc text) (supercellStage (lc text) defaults) in
  structure_type (parseMaterialRequest lc text) = structure_type r2 \/
  exists v st, dictionaryHit (lc text) = Some v /\
               entry_structure_type v = Some st /\
               structure_type (parseMaterialRequest lc text) = Some st.
Proof.
  intros r2. unfold parseMaterialRequest. fold r2.
  set (r3 := latticeStage (lc text) r2).
  assert (E : structure_type r3 = structure_type r2)
    by (unfold r3, latticeStage; destruct (firstMatch _ _); reflexivity).
  rewrite <- E. destruct (dictionaryHit (lc text)) as [v|].
  - unfold applyEntry. destruct (entry_structure_type v) as [st|] eqn:S.
    + right. exists v, st. repeat split; try reflexivity; assumption.
    + left. reflexivity.
  - left.
    destruct (sourceStage_frame text
                (elementStage lc text (lc text) (formulaStage lc text r3)))
      as (_ & -> & _).
    destruct (elementStage_frame lc text (lc text) (formulaStage lc text r3))
      as (_ & -> & _).
    apply formulaStage_frame.
Qed.

(** C6: when the case-folded text includes a synonym of the family at
    position [i] of the table and a synonym of the family at a later
    position [j], the tag assigned is that of the first family in
    declaration order that has a synonym in the text: a family at or
    before [i], never the one at [j], wherever the synonyms stand in
    the text.  The returned record carries that tag, unless the
    compound dictionary forces its own structure type afterwards. *)
Theorem C6_declaration_order
    (toLowerCase : jsstring -> jsstring) (text : jsstring) (i j : nat)
    (ei ej : jsstring * list jsstring)
    (Hi : nth_error structureKeywords i = Some ei)
    (Hj : nth_error structureKeywords j = Some ej)
    (Hij : i < j)
    (Mi : existsb (includes (toLowerCase text)) (snd ei) = true)
    (Mj : existsb (includes (toLowerCase text)) (snd ej) = true) :
  exists k ek,
    k <= i /\ nth_error structureKeywords k = Some ek /\
    existsb (includes (toLowerCase text)) (snd ek) = true /\
    (forall k' e', k' < k -> nth_error structureKeywords k' = Some e' ->
                   existsb (includes (toLowerCase text)) (snd e') = false) /\
    matchingTag (toLowerCase text) = Some (fst ek) /\
    matchingTag (toLowerCase text) <> Some (fst ej) /\
    ((forall k' e', k' < i -> nth_error structureKeywords k' = Some e' ->
                    existsb (includes (toLowerCase text)) (snd e') = false) ->
     matchingTag (toLowerCase text) = Some (fst ei)) /\
    (forall result,
       structure_type (structureStage (toLowerCase text) result) = Some (fst ek)) /\
    (structure_type (parseMaterialRequest toLowerCase text) = Some (fst ek) \/
     exists v st, dictionaryHit (toLowerCase text) = Some v /\
                  entry_structure_type v = Some st /\
                  structure_type (parseMaterialRequest toLowerCase text) = Some st).
Proof.
  destruct (find_first (fun e => existsb (includes (toLowerCase text)) (snd e))
              structureKeywords i ei Hi Mi) as (k & ek & Hk & Ek & Fk & Ef & Hfirst).
  assert (T : matchingTag (toLowerCase text) = Some (fst ek))
    by (unfold matchingTag; now rewrite Ef).
  assert (S : forall result,
             structure_type (structureStage (toLowerCase text) result) = Some (fst ek))
    by (intros; unfold structureStage; now rewrite T).
  exists k, ek.
  split; [exact Hk|]. split; [exact Ek|]. split; [exact Fk|].
  split; [exact Hfirst|]. split; [exact T|]. split; [|split; [|split; [exact S|]]].
  - rewrite T. intros E. inversion E as [E'].
    assert (k = j); [|lia].
    pose proof structureKeywords_tags_distinct as ND.
    rewrite NoDup_nth_error in ND. apply ND.
    + rewrite length_map. apply nth_error_Some. congruence.
    + rewrite !nth_error_map, Ek, Hj. simpl. now rewrite E'.
  - intros Before. rewrite T.
    destruct (Nat.eq_dec k i) as [->|Ne]; [congruence|].
    assert (Lt : k < i) by lia.
    rewrite (Before k ek Lt Ek) in Fk. discriminate.
  - destruct (structure_type_stages toLowerCase text) as [E|E].
    + left. rewrite E. apply S.
    + right. exact E.
Qed.

Lemma C6_declaration_order_witness :
  exists k ek,
    k <= 0 /\ nth_error structureKeywords k = Some ek /\
    existsb (includes (asciiLowerCase (js "BCC or FCC"))) (snd ek) = true /\
    (forall k' e', k' < k -> nth_error structureKeywords k' = Some e' ->
                   existsb (includes (asciiLowerCase (js "BCC or FCC"))) (snd e') = false) /\
    matchingTag (asciiLowerCase (js "BCC or FCC")) = Some (fst ek) /\
    matchingTag (asciiLowerCase (js "BCC or FCC")) <> Some (js "bcc") /\
    ((forall k' e', k' < 0 -> nth_error structureKeywords k' = Some e' ->
                    existsb (includes (asciiLowerCase (js "BCC or FCC"))) (snd e')
                    = false) ->
     matchingTag (asciiLowerCase (js "BCC or FCC")) = Some (js "fcc")) /\
    (forall result,
       structure_type (structureStage (asciiLowerCase (js "BCC or FCC")) result)
       = Some (fst ek)) /\
    (structure_type (parseMaterialRequest asciiLowerCase (js "BCC or FCC"))
       = Some (fst ek) \/
     exists v st, dictionaryHit (asciiLowerCase (js "BCC or FCC")) = Some v /\
                  entry_structure_type v = Some st /\
                  structure_type (parseMaterialRequest asciiLowerCase (js "BCC or FCC"))
                  = Some st).
Proof.
  apply (C6_declaration_order asciiLowerCase (js "BCC or FCC") 0 1
           (js "fcc", [js "fcc"; js "face-centered cubic"; js "face centered cubic"])
           (js "bcc", [js "bcc"; js "body-centered cubic"; js "body centered cubic"]));
    [reflexivity | reflexivity | lia | reflexivity | reflexivity].
Defined.

(** The tag at position [j] loses even when it stands first in the text. *)
Example bcc_before_fcc :
  structure_type (parseMaterialRequest asciiLowerCase (js "BCC or FCC")) = Some (js "fcc").
Proof. vm_compute. reflexivity. Qed.

(** ** A worked request *)

(** C7: the request "SiO2 2x2x2", whose case folding is "sio2 2x2x2",
    is answered with material name SiO2, compound (Si, O), structure
    type quartz (the override of the compound dictionary) and supercell
    (2,2,2). *)
Theorem C7_SiO2_request
    (toLowerCase : jsstring -> jsstring)
    (H : toLowerCase (js "SiO2 2x2x2") = js "sio2 2x2x2") :
  let r := parseMaterialRequest toLowerCase (js "SiO2 2x2x2") in
  material_name r = js "SiO2" /\
  compound r = Some [js "Si"; js "O"] /\
  structure_type r = Some (js "quartz") /\
  supercell_dims r = [Fin 2; Fin 2; Fin 2].
Proof.
  unfold parseMaterialRequest. rewrite H. vm_compute. repeat split.
Qed.

Lemma C7_SiO2_request_witness :
  let r := parseMaterialRequest asciiLowerCase (js "SiO2 2x2x2") in
  material_name r = js "SiO2" /\
  compound r = Some [js "Si"; js "O"] /\
  structure_type r = Some (js "quartz") /\
  supercell_dims r = [Fin 2; Fin 2; Fin 2].
Proof. apply (C7_SiO2_request asciiLowerCase). reflexivity. Defined.

(** ** The two paths through the interpreter *)

Lemma parse_hit lc text v :
  dictionaryHit (lc text) = Some v ->
  parseMaterialRequest lc text = applyEntry v (parameterStages (lc text)).
Proof. intros H. unfold parseMaterialRequest. now rewrite H. Qed.

Lemma parse_no_hit lc text :
  dictionaryHit (lc text) = None ->
  parseMaterialRequest lc text =
  sourceStage text
    (elementStage lc text (lc text)
       (formulaStage lc text (parameterStages (lc text)))).
Proof. intros H. unfold parseMaterialRequest. now rewrite H. Qed.

Lemma parameterStages_fields tl :
  material_name (parameterStages tl) = js "Si" /\
  compound (parameterStages tl) = None /\
  source_type (parameterStages tl) = None /\
  source_params (parameterStages tl) = [] /\
  use_llm (parameterStages tl) = false /\
  llm_provider (parameterStages tl) = None /\
  llm_params (parameterStages tl) = [] /\
  (exists a b c, supercell_dims (parameterStages tl) = [a; b; c]) /\
  (firstMatch supercellPatterns tl = None ->
   supercell_dims (parameterStages tl) = [Fin 1; Fin 1; Fin 1]) /\
  (matchingTag tl = None -> structure_type (parameterStages tl) = None) /\
  (firstMatch latticePatterns tl = None ->
   lattice_parameter (parameterStages tl) = None).
Proof.
  unfold parameterStages, latticeStage, structureStage, supercellStage.
  destruct (firstMatch latticePatterns tl); destruct (matchingTag tl);
    destruct (firstMatch supercellPatterns tl); cbn;
    repeat split; try discriminate; eauto.
Qed.

(** ** The texts of the source patterns *)

Lemma jsMatch_lang r str m :
  jsMatch r str = Some m ->
  lang r (matched m) /\ exists pre post, str = pre ++ matched m ++ post.
Proof.
  intros H. apply jsMatch_sound in H.
  destruct H as (pre & post & s & s' & E & R & _ & M & _).
  destruct (matches_lang _ _ _ M) as (w & R' & L).
  assert (Ew : matched m = w)
    by (rewrite <- (between_reads _ _ _ R); apply (between_reads _ _ _ R')).
  split; [now rewrite Ew | eauto].
Qed.

Lemma test_lang r str :
  test r str = true -> exists pre w post, str = pre ++ w ++ post /\ lang r w.
Proof.
  unfold test. destruct (jsMatch r str) as [m|] eqn:E; [|discriminate].
  intros _. apply jsMatch_lang in E. destruct E as (L & pre & post & E). eauto.
Qed.

Lemma lowerUnit_cases c x :
  isLower c = true -> (x =? lowerUnit c)%N || (x =? upperUnit c)%N = true ->
  lowerUnit x = c /\ isLetter x = true.
Proof.
  intros L H. unfold lowerUnit, upperUnit in *.
  assert (U : isUpper c = false) by chars. rewrite U, L in H.
  apply orb_prop in H. destruct H as [H|H]; apply N.eqb_eq in H; subst x.
  - rewrite U. split; [reflexivity|]. unfold isLetter. now rewrite L, orb_true_r.
  - assert (U' : isUpper (c - 32) = true) by chars. rewrite U'.
    split; [chars | unfold isLetter; now rewrite U'].
Qed.

(** A lower-case word under the [i] flag reads that word in some
    capitalisation. *)
Lemma lang_wordi w : forallb isLower w = true -> forall u,
  lang (wordi w) u -> asciiLowerCase u = w /\ forallb isLetter u = true.
Proof.
  induction w as [|c w IH]; intros F u H; cbn [wordi] in H.
  - cbn [lang] in H. now subst.
  - cbn [forallb] in F. apply andb_prop in F. destruct F as [Lc F].
    destruct w as [|d w].
    + destruct H as (x & -> & P). destruct (lowerUnit_cases c x Lc P) as (E & Lx).
      cbn. now rewrite E, Lx.
    + destruct H as (a & b & -> & (x & -> & P) & Lb).
      destruct (lowerUnit_cases c x Lc P) as (E & Lx).
      destruct (IH F b Lb) as (Eb & Fb).
      cbn [app asciiLowerCase map forallb]. unfold asciiLowerCase in Eb.
      now rewrite E, Eb, Lx, Fb.
Qed.

Lemma lang_opt_lit c w : lang (Opt (lit c)) w -> w = [c] \/ w = [].
Proof.
  intros [(x & -> & P)|H]; [left | now right].
  apply N.eqb_eq in P. now subst.
Qed.

(** [mp-<digits>], in either case of the letters. *)
Lemma mpPattern_shape w :
  lang mpPattern w ->
  exists p ds, w = p ++ cdash :: ds /\ asciiLowerCase p = js "mp" /\ isNumeral ds.
Proof.
  unfold mpPattern, seqs. cbn [lang].
  intros (u1 & v1 & -> & -> & u2 & v2 & -> & L2 & u3 & v3 & -> & (x & -> & P)
          & u4 & v4 & -> & L4 & ->).
  apply N.eqb_eq in P. subst x.
  apply (lang_wordi (js "mp") eq_refl) in L2. apply lang_numeral in L4.
  exists u2, u4. rewrite app_nil_r. cbn [app]. repeat split; apply L2 || apply L4.
Qed.

(** [cod<digits>] or [cod-<digits>], in either case of the letters. *)
Lemma codPattern_shape w :
  lang codPattern w ->
  exists p sep ds, w = p ++ sep ++ ds /\ asciiLowerCase p = js "cod" /\
                   (sep = [cdash] \/ sep = []) /\ isNumeral ds.
Proof.
  unfold codPattern, seqs. cbn [lang].
  intros (u1 & v1 & -> & -> & u2 & v2 & -> & L2 & u3 & v3 & -> & L3
          & u4 & v4 & -> & L4 & ->).
  apply (lang_wordi (js "cod") eq_refl) in L2. apply lang_numeral in L4.
  apply lang_opt_lit in L3.
  exists u2, u3, u4. rewrite app_nil_r. cbn [app]. repeat split; auto; apply L2 || apply L4.
Qed.

(** [http://] or [https://] and a run without white space. *)
Lemma urlPattern_shape w :
  lang urlPattern w ->
  exists s u, w = js "http" ++ s ++ js "://" ++ u /\ (s = js "s" \/ s = []) /\
              u <> [] /\ forallb (fun c => negb (isSpace c)) u = true.
Proof.
  unfold urlPattern, seqs. cbn [lang].
  intros (u1 & v1 & -> & L1 & u2 & v2 & -> & L2 & u3 & v3 & -> & L3 & L4).
  apply lang_word in L1, L3. apply lang_opt_lit in L2. apply lang_plus_char in L4.
  subst u1 u3. exists u2, v3. repeat split; auto; apply L4.
Qed.

(** ** The external-source detector *)

Lemma matcher_alt r1 r2 k s :
  matcher (Alt r1 r2) k s =
  match matcher r1 k s with Some x => Some x | None => matcher r2 k s end.
Proof. reflexivity. Qed.

Lemma matcher_inputStart k s :
  before s = [] -> matcher InputStart k s = k s.
Proof. intros H. cbn [matcher]. now rewrite H. Qed.

(** Stripping the prefix of a lower-case COD identifier leaves the digits. *)
Lemma replaceEmpty_codPrefix sep ds :
  (sep = [cdash] \/ sep = []) -> isNumeral ds ->
  replaceEmpty codPrefix (js "cod" ++ sep ++ ds) = ds.
Proof.
  intros Hsep [N F]. unfold replaceEmpty.
  change (js "cod" ++ sep ++ ds) with (99%N :: 111%N :: 100%N :: sep ++ ds).
  cbn [search]. unfold matchHere, codPrefix, seqs.
  change (word (js "cod")) with (Seq (lit 99%N) (Seq (lit 111%N) (lit 100%N))).
  unfold lit. rewrite matcher_seq, matcher_inputStart by reflexivity.
  rewrite !matcher_seq.
  rewrite (char_step _ _ _ 99%N (111%N :: 100%N :: sep ++ ds)) by reflexivity.
  rewrite matcher_seq.
  rewrite (char_step _ _ _ 111%N (100%N :: sep ++ ds)) by reflexivity.
  rewrite (char_step _ _ _ 100%N (sep ++ ds)) by reflexivity.
  cbn [before caps]. unfold Opt. rewrite matcher_alt.
  destruct Hsep as [-> | ->]; cbn [app].
  - rewrite (char_step _ _ _ cdash ds) by reflexivity. reflexivity.
  - rewrite char_stop.
    + reflexivity.
    + destruct ds as [|d ds]; [contradiction|]. cbn [rest headIs forallb] in *.
      apply andb_prop in F. destruct F as [D _]. chars.
Qed.

(** C1: the detector of lines 176-200 does not run unconditionally.
    A key of the compound dictionary in the case-folded text ends the
    call at line 105, before the detector: "Calculate band gap for
    mp-149" holds the key "gap" and a Materials-Project token, and
    comes back as GaP with no source type.  The sibling path, a
    compound found by the generic-formula step (whose [break] leaves
    the loop only), does reach the detector: "GaAs2 mp-149" keeps its
    compound and is named "mp-149" with source type "mp". *)
Theorem C1_dictionary_return_skips_detector :
  let text := js "Calculate band gap for mp-149" in
  let r := parseMaterialRequest asciiLowerCase text in
  let r' := parseMaterialRequest asciiLowerCase (js "GaAs2 mp-149") in
  (includes (asciiLowerCase text) (js "gap") = true /\
   option_map matched (jsMatch mpPattern text) = Some (js "mp-149") /\
   material_name r = js "GaP" /\ compound r = Some [js "Ga"; js "P"] /\
   source_type r = None) /\
  (compound r' = Some [js "Ga"; js "As"] /\
   material_name r' = js "mp-149" /\ source_type r' = Some (js "mp")).
Proof.
  cbv zeta. split.
  - vm_compute. repeat split.
  - vm_compute. repeat split.
Qed.

(** C2: the prefix of a COD token is not always stripped.  Line 183
    finds the token with the flag [i], line 185 strips the prefix
    without it: "COD-2000001" has source type "cod" and keeps its
    prefix in the material name, where "cod-2000001" is named by the
    digits alone.  The text holds no key of the compound dictionary and
    no Materials-Project token. *)
Theorem C2_upper_case_prefix_kept :
  let text := js "COD-2000001" in
  let r := parseMaterialRequest asciiLowerCase text in
  let r' := parseMaterialRequest asciiLowerCase (js "cod-2000001") in
  (dictionaryHit (asciiLowerCase text) = None /\ jsMatch mpPattern text = None /\
   option_map matched (jsMatch codPattern text) = Some (js "COD-2000001") /\
   replaceEmpty codPrefix (js "COD-2000001") = js "COD-2000001" /\
   source_type r = Some (js "cod") /\ material_name r = js "COD-2000001") /\
  (source_type r' = Some (js "cod") /\ material_name r' = js "2000001").
Proof.
  cbv zeta.
  assert (D : dictionaryHit (asciiLowerCase (js "COD-2000001")) = None)
    by (vm_compute; reflexivity).
  assert (Mp : jsMatch mpPattern (js "COD-2000001") = None)
    by (vm_compute; reflexivity).
  assert (Cod : jsMatch codPattern (js "COD-2000001")
                = Some (MatchResult (js "COD-2000001") []))
    by (vm_compute; reflexivity).
  assert (Kept : replaceEmpty codPrefix (js "COD-2000001") = js "COD-2000001")
    by (vm_compute; reflexivity).
  split.
  - rewrite (parse_no_hit _ _ D). unfold sourceStage. rewrite Mp, Cod.
    cbn [matched source_type material_name set_source_type set_material_name
         option_map].
    rewrite Kept. repeat split; assumption || reflexivity.
  - vm_compute. split; reflexivity.
Qed.

(** ** The generic-formula step *)

(** What the loop of lines 114-129 leaves behind when it sets
    [compound]: the token it accepted. *)
Lemma formulaLoop_compound lc els : forall ms r,
  compound r = None -> compound (formulaLoop lc ms r) = Some els ->
  exists tok,
    In tok ms /\ has commonWords (lc tok) = false /\
    material_name (formulaLoop lc ms r) = tok /\
    ((test digit tok = true /\ els = matchAll elementPattern tok /\
      2 <= length els) \/
     (test digit tok = false /\
      exists c0 c1, tok = [c0; c1] /\ isUpper c0 = true /\ isUpper c1 = true /\
                    els = [[c0]; [c1]])).
Proof.
  induction ms as [|m ms IH]; intros r C H; cbn [formulaLoop] in *.
  - congruence.
  - assert (Next : forall r', compound r' = None ->
              compound (formulaLoop lc ms r') = Some els ->
              exists tok, In tok (m :: ms) /\ has commonWords (lc tok) = false /\
                material_name (formulaLoop lc ms r') = tok /\
                ((test digit tok = true /\ els = matchAll elementPattern tok /\
                  2 <= length els) \/
                 (test digit tok = false /\
                  exists c0 c1, tok = [c0; c1] /\ isUpper c0 = true /\
                                isUpper c1 = true /\ els = [[c0]; [c1]]))).
    { intros r' C' H'. destruct (IH r' C' H') as (tok & I & rest).
      exists tok. split; [now right | exact rest]. }
    destruct (has commonWords (lc m)) eqn:W; cbn [negb] in *; [now apply Next|].
    destruct (test digit m) eqn:D.
    + destruct (Nat.leb 2 (length (matchAll elementPattern m))) eqn:L.
      * cbn [compound set_compound set_material_name] in H.
        inversion H; subst els. exists m.
        split; [now left|]. split; [assumption|]. split; [reflexivity|].
        left. split; [assumption|]. split; [reflexivity|]. now apply Nat.leb_le.
      * now apply Next.
    + destruct m as [|c0 [|c1 [|c2 m]]]; try now apply Next.
      destruct (test upper [c0] && test upper [c1]) eqn:U; [|now apply Next].
      cbn [compound set_compound set_material_name] in H.
      inversion H; subst els. exists [c0; c1].
      split; [now left|]. split; [assumption|]. split; [reflexivity|].
      right. split; [assumption|].
      apply andb_prop in U. destruct U as [U0 U1].
      exists c0, c1. split; [reflexivity|]. split; [|split; [|reflexivity]].
      * apply test_lang in U0. destruct U0 as (pre & w & post & E & x & -> & P).
        destruct pre as [|y [|z pre]]; inversion E; subst; assumption.
      * apply test_lang in U1. destruct U1 as (pre & w & post & E & x & -> & P).
        destruct pre as [|y [|z pre]]; inversion E; subst; assumption.
Qed.

(** C4, as amended: when the compound of the record comes from the
    generic-formula step, it comes from a token that is not a stop-list
    word; if that token contains a digit, the compound is its
    segmentation into element symbols and this has at least two
    entries, counted with repetition; a token without digit is accepted
    only as two capitals. *)
Theorem C4_formula_needs_two_symbols
    (toLowerCase : jsstring -> jsstring) (text : jsstring) (els : list jsstring)
    (Hdict : dictionaryHit (toLowerCase text) = None)
    (Hc : compound (parseMaterialRequest toLowerCase text) = Some els) :
  exists tok,
    In tok (matchAll compoundPattern text) /\
    has commonWords (toLowerCase tok) = false /\
    ((test digit tok = true /\ els = matchAll elementPattern tok /\
      2 <= length els) \/
     (test digit tok = false /\
      exists c0 c1, tok = [c0; c1] /\ isUpper c0 = true /\ isUpper c1 = true /\
                    els = [[c0]; [c1]])).
Proof.
  rewrite (parse_no_hit _ _ Hdict) in Hc.
  destruct (sourceStage_frame text
              (elementStage toLowerCase text (toLowerCase text)
                 (formulaStage toLowerCase text (parameterStages (toLowerCase text)))))
    as (_ & _ & _ & Sc & _). rewrite Sc in Hc. clear Sc.
  destruct (elementStage_frame toLowerCase text (toLowerCase text)
              (formulaStage toLowerCase text (parameterStages (toLowerCase text))))
    as (_ & _ & _ & Ec & _). rewrite Ec in Hc. clear Ec.
  destruct (parameterStages_fields (toLowerCase text)) as (_ & Pc & _).
  unfold formulaStage in Hc. rewrite Pc in Hc.
  destruct (formulaLoop_compound toLowerCase els _ _ Pc Hc) as (tok & I & W & _ & K).
  exists tok. auto.
Qed.

Lemma C4_formula_needs_two_symbols_witness :
  exists tok,
    In tok (matchAll compoundPattern (js "GaAs2")) /\
    has commonWords (asciiLowerCase tok) = false /\
    ((test digit tok = true /\ [js "Ga"; js "As"] = matchAll elementPattern tok /\
      2 <= length [js "Ga"; js "As"]) \/
     (test digit tok = false /\
      exists c0 c1, tok = [c0; c1] /\ isUpper c0 = true /\ isUpper c1 = true /\
                    [js "Ga"; js "As"] = [[c0]; [c1]])).
Proof.
  apply (C4_formula_needs_two_symbols asciiLowerCase (js "GaAs2"));
    vm_compute; reflexivity.
Defined.

(** C4 as stated fails: the token "OO2" contains a digit, segments into
    two symbols that are not distinct, and is accepted as a compound. *)
Lemma C4_counterexample :
  matchAll compoundPattern (js "OO2") = [js "OO2"] /\
  test digit (js "OO2") = true /\
  matchAll elementPattern (js "OO2") = [js "O"; js "O"] /\
  length (nodup (list_eq_dec N.eq_dec) (matchAll elementPattern (js "OO2"))) = 1 /\
  compound (parseMaterialRequest asciiLowerCase (js "OO2")) = Some [js "O"; js "O"].
Proof. vm_compute. repeat split. Qed.

(** ** Stop-list words *)

Lemma commonWords_lower : forallb (forallb isLower) commonWords = true.
Proof. vm_compute. reflexivity. Qed.

Lemma lower_of_letter c : isLower (lowerUnit c) = true -> isLetter c = true.
Proof.
  unfold lowerUnit, isLetter. destruct (isUpper c) eqn:U; [reflexivity|].
  intros ->. reflexivity.
Qed.

(** A stop-list word, in any capitalisation, is made of letters. *)
Lemma stopWord_letters w : isStopWord w = true -> forallb isLetter w = true.
Proof.
  unfold isStopWord, has. intros H. apply existsb_exists in H.
  destruct H as (cw & I & E). apply jsstring_eqb_eq in E.
  pose proof commonWords_lower as CL. rewrite forallb_forall in CL.
  specialize (CL cw I). rewrite <- E in CL. unfold asciiLowerCase in CL.
  rewrite forallb_forall in *. intros c Hc. apply lower_of_letter, CL.
  now apply in_map.
Qed.

Lemma nonletter_not_stopWord c w :
  In c w -> isLetter c = false -> isStopWord w = false.
Proof.
  intros I L. destruct (isStopWord w) eqn:S; [|reflexivity].
  apply stopWord_letters in S. rewrite forallb_forall in S.
  rewrite (S c I) in L. discriminate.
Qed.

Section Filter.

Variable toLowerCase : jsstring -> jsstring.
Hypothesis toLowerCase_ascii :
  forall s, forallb isASCII s = true -> toLowerCase s = asciiLowerCase s.

(** What the filter [!commonWords.has(m.toLowerCase())] lets through
    is not a stop-list word in any capitalisation. *)
Lemma filter_not_stopWord tok :
  has commonWords (toLowerCase tok) = false -> isStopWord tok = false.
Proof.
  intros H. destruct (forallb isASCII tok) eqn:A.
  - unfold isStopWord. now rewrite <- (toLowerCase_ascii _ A).
  - assert (E : existsb (fun c => negb (isASCII c)) tok = true).
    { clear H. induction tok as [|c tok IH]; [discriminate|].
      cbn [forallb existsb] in *. destruct (isASCII c); [now apply IH | reflexivity]. }
    apply existsb_exists in E. destruct E as (c & I & N).
    apply (nonletter_not_stopWord c _ I). apply negb_true_iff in N. chars.
Qed.

Lemma formulaLoop_name ms : forall r,
  isStopWord (material_name r) = false ->
  isStopWord (material_name (formulaLoop toLowerCase ms r)) = false.
Proof.
  induction ms as [|m ms IH]; intros r H; cbn [formulaLoop]; [assumption|].
  destruct (has commonWords (toLowerCase m)) eqn:W; cbn [negb]; [now apply IH|].
  apply filter_not_stopWord in W.
  destruct (test digit m).
  - destruct (Nat.leb _ _); [exact W | now apply IH].
  - destruct m as [|c0 [|c1 [|c2 m]]]; try now apply IH.
    destruct (_ && _); [exact W | now apply IH].
Qed.

Lemma elementMap_symbols :
  forallb (fun e => negb (isStopWord (snd e))) elementMap = true.
Proof. vm_compute. reflexivity. Qed.

Lemma elementStage_name text tl r :
  isStopWord (material_name r) = false ->
  isStopWord (material_name (elementStage toLowerCase text tl r)) = false.
Proof.
  intros H. unfold elementStage. destruct (compound r); [assumption|].
  assert (A : isStopWord (material_name
                match elementHit tl with
                | Some symbol => set_material_name symbol r
                | None => r
                end) = false).
  { unfold elementHit.
    destruct (find (fun e => includes tl (fst e)) elementMap) as [e|] eqn:F;
      [|assumption].
    apply find_some in F. destruct F as [I _].
    pose proof elementMap_symbols as T. rewrite forallb_forall in T.
    apply T in I. now apply negb_true_iff in I. }
  destruct (jsstring_eqb _ _); [|assumption].
  destruct (potentialElements toLowerCase text) as [|e es] eqn:P; [assumption|].
  assert (I : In e (potentialElements toLowerCase text)) by (rewrite P; now left).
  unfold potentialElements in I. apply filter_In in I. destruct I as [_ I].
  apply andb_prop in I. destruct I as [I _]. apply negb_true_iff in I.
  now apply filter_not_stopWord.
Qed.

End Filter.

Lemma dropSpaces_keeps c s : In c s -> isSpace c = false -> In c (dropSpaces s).
Proof.
  intros I N. induction s as [|d s IH]; [contradiction|]. cbn [dropSpaces].
  destruct (isSpace d) eqn:S; [|assumption].
  destruct I as [-> | I]; [congruence | now apply IH].
Qed.

Lemma trim_keeps c s : In c s -> isSpace c = false -> In c (trim s).
Proof.
  intros I N. unfold trim. apply in_rev. rewrite rev_involutive.
  apply dropSpaces_keeps; [|assumption]. apply -> in_rev.
  now apply dropSpaces_keeps.
Qed.

(** [str.replace(r, "")] removes one text of [r], or nothing. *)
Lemma replaceEmpty_sound r str :
  replaceEmpty r str = str \/
  exists pre w post, str = pre ++ w ++ post /\ lang r w /\
                     replaceEmpty r str = pre ++ post.
Proof.
  unfold replaceEmpty. destruct (search r [] str) as [[s s']|] eqn:E; [|now left].
  right. apply search_sound in E. destruct E as (pre & E1 & E2 & M).
  destruct (matches_lang _ _ _ M) as (w & [R _] & L).
  exists pre, w, (rest s'). rewrite E1, R. repeat split; [assumption|].
  rewrite E2. cbn [before]. now rewrite app_nil_r, rev_involutive.
Qed.

Lemma codPrefix_no_digit w c : lang codPrefix w -> In c w -> isDigit c = false.
Proof.
  unfold codPrefix, seqs. cbn [lang].
  intros (u1 & v1 & -> & -> & u2 & v2 & -> & L2 & L3) I.
  apply lang_word in L2. apply lang_opt_lit in L3. subst u2.
  cbn [app] in I. apply in_app_or in I.
  destruct I as [I | I].
  - repeat (destruct I as [<- | I]; [reflexivity|]). destruct I.
  - destruct L3 as [-> | ->]; [|destruct I].
    destruct I as [<- | []]. reflexivity.
Qed.

Lemma numeral_has_digit ds : isNumeral ds -> exists d, In d ds /\ isDigit d = true.
Proof.
  intros [N F]. destruct ds as [|d ds]; [contradiction|].
  cbn [forallb] in F. apply andb_prop in F. exists d. split; [now left | apply F].
Qed.

Lemma sourceStage_name text r :
  isStopWord (material_name r) = false ->
  isStopWord (material_name (sourceStage text r)) = false.
Proof.
  intros H. unfold sourceStage.
  destruct (jsMatch mpPattern text) as [m|] eqn:Mp.
  { apply jsMatch_lang in Mp. destruct Mp as (L & _).
    apply mpPattern_shape in L. destruct L as (p & ds & E & _).
    cbn [material_name set_source_type set_material_name]. rewrite E.
    apply (nonletter_not_stopWord cdash); [|reflexivity].
    apply in_or_app. right. now left. }
  destruct (jsMatch codPattern text) as [m|] eqn:Cod.
  { apply jsMatch_lang in Cod. destruct Cod as (L & _).
    apply codPattern_shape in L. destruct L as (p & sep & ds & E & _ & _ & N).
    destruct (numeral_has_digit _ N) as (d & Id & Dd).
    cbn [material_name set_source_type set_material_name].
    apply (nonletter_not_stopWord d); [|chars].
    assert (I : In d (matched m))
      by (rewrite E; apply in_or_app; right; apply in_or_app; now right).
    destruct (replaceEmpty_sound codPrefix (matched m))
      as [-> | (pre & w & post & E' & L' & ->)]; [assumption|].
    rewrite E' in I. apply in_app_or in I. destruct I as [I | I].
    - apply in_or_app. now left.
    - apply in_app_or in I. destruct I as [I | I].
      + rewrite (codPrefix_no_digit _ _ L' I) in Dd. discriminate.
      + apply in_or_app. now right. }
  destruct (jsMatch urlPattern text) as [m|] eqn:Url.
  { apply jsMatch_lang in Url. destruct Url as (L & _).
    apply urlPattern_shape in L. destruct L as (s & u & E & _).
    cbn [material_name set_source_type set_material_name]. rewrite E.
    apply (nonletter_not_stopWord ccolon); [|reflexivity].
    apply in_or_app. right. apply in_or_app. right. now left. }
  destruct (test separatorPattern text || test extensionPattern text) eqn:T;
    [|assumption].
  cbn [material_name set_source_type set_material_name].
  apply orb_prop in T. destruct T as [T | T]; apply test_lang in T;
    destruct T as (pre & w & post & E & L).
  - destruct L as (c & -> & P).
    apply (nonletter_not_stopWord c).
    + apply trim_keeps; [rewrite E; apply in_or_app; right; now left|].
      cbn in P. rewrite orb_false_r in P. apply orb_prop in P.
      destruct P as [P | P]; apply N.eqb_eq in P; subst c; reflexivity.
    + cbn in P. rewrite orb_false_r in P. apply orb_prop in P.
      destruct P as [P | P]; apply N.eqb_eq in P; subst c; reflexivity.
  - unfold extensionPattern, seqs in L. cbn [lang] in L.
    destruct L as (u1 & v1 & -> & (c & -> & P) & _).
    apply N.eqb_eq in P. subst c.
    apply (nonletter_not_stopWord cdot); [|reflexivity].
    apply trim_keeps; [|reflexivity].
    rewrite E. apply in_or_app. right. now left.
Qed.

Lemma compoundMap_names :
  forallb (fun e => negb (isStopWord (name (snd e))) &&
                    forallb (fun x => negb (isStopWord x)) (elements (snd e)))
          compoundMap = true.
Proof. vm_compute. reflexivity. Qed.

Lemma dictionaryHit_entry tl v :
  dictionaryHit tl = Some v ->
  isStopWord (name v) = false /\
  Forall (fun x => isStopWord x = false) (elements v).
Proof.
  unfold dictionaryHit. intros H.
  destruct (find (fun e => includes tl (fst e)) compoundMap) as [e|] eqn:F;
    [|discriminate].
  inversion H; subst v. apply find_some in F. destruct F as [I _].
  pose proof compoundMap_names as T. rewrite forallb_forall in T.
  apply T in I. apply andb_prop in I. destruct I as [A B].
  split; [now apply negb_true_iff in A|].
  apply Forall_forall. intros x Hx. rewrite forallb_forall in B.
  now apply negb_true_iff, B.
Qed.

(** C9, as amended: no candidate token that is a stop-list word, in
    any capitalisation, is accepted.  [material_name] is never a
    stop-list word; [compound], when present, is an entry of the
    compound dictionary (whose symbols are no stop-list words) or is
    built from a candidate token that is not a stop-list word, as its
    segmentation or as its two capitals.  (A segment of such a token
    may itself read like a stop-list word: In of InO2.) *)
Theorem C9_stop_words_rejected
    (toLowerCase : jsstring -> jsstring)
    (Hascii : forall s, forallb isASCII s = true ->
                        toLowerCase s = asciiLowerCase s)
    (text : jsstring) :
  isStopWord (material_name (parseMaterialRequest toLowerCase text)) = false /\
  forall els, compound (parseMaterialRequest toLowerCase text) = Some els ->
    (exists v, dictionaryHit (toLowerCase text) = Some v /\ els = elements v /\
               Forall (fun x => isStopWord x = false) els) \/
    (exists tok, In tok (matchAll compoundPattern text) /\
                 isStopWord tok = false /\
                 (els = matchAll elementPattern tok \/
                  exists c0 c1, tok = [c0; c1] /\ els = [[c0]; [c1]])).
Proof.
  destruct (parameterStages_fields (toLowerCase text)) as (Pn & Pc & _).
  destruct (dictionaryHit (toLowerCase text)) as [v|] eqn:Hit.
  - rewrite (parse_hit _ _ _ Hit).
    destruct (dictionaryHit_entry _ _ Hit) as (Nv & Ev).
    assert (A : material_name (applyEntry v (parameterStages (toLowerCase text)))
                = name v /\
                compound (applyEntry v (parameterStages (toLowerCase text)))
                = Some (elements v))
      by (unfold applyEntry; destruct (entry_structure_type v); split; reflexivity).
    destruct A as (-> & ->). split; [assumption|].
    intros els E. inversion E; subst els. left. exists v. auto.
  - rewrite (parse_no_hit _ _ Hit).
    set (rf := formulaStage toLowerCase text (parameterStages (toLowerCase text))).
    assert (Nf : isStopWord (material_name rf) = false).
    { unfold rf, formulaStage. rewrite Pc.
      apply (formulaLoop_name toLowerCase Hascii). now rewrite Pn. }
    split.
    + apply sourceStage_name, (elementStage_name toLowerCase Hascii), Nf.
    + intros els E. right.
      destruct (sourceStage_frame text
                  (elementStage toLowerCase text (toLowerCase text) rf))
        as (_ & _ & _ & Sc & _). rewrite Sc in E.
      destruct (elementStage_frame toLowerCase text (toLowerCase text) rf)
        as (_ & _ & _ & Ec & _). rewrite Ec in E.
      unfold rf, formulaStage in E. rewrite Pc in E.
      destruct (formulaLoop_compound toLowerCase els _ _ Pc E)
        as (tok & I & W & _ & K).
      exists tok. split; [assumption|].
      split; [now apply (filter_not_stopWord toLowerCase Hascii)|].
      destruct K as [(_ & K & _) | (_ & c0 & c1 & K0 & _ & _ & K1)];
        [now left | right; eauto].
Qed.

Lemma C9_stop_words_rejected_witness :
  isStopWord (material_name (parseMaterialRequest asciiLowerCase
                               (js "At the start"))) = false /\
  forall els, compound (parseMaterialRequest asciiLowerCase
                          (js "At the start")) = Some els ->
    (exists v, dictionaryHit (asciiLowerCase (js "At the start")) = Some v /\
               els = elements v /\ Forall (fun x => isStopWord x = false) els) \/
    (exists tok, In tok (matchAll compoundPattern (js "At the start")) /\
                 isStopWord tok = false /\
                 (els = matchAll elementPattern tok \/
                  exists c0 c1, tok = [c0; c1] /\ els = [[c0]; [c1]])).
Proof.
  apply (C9_stop_words_rejected asciiLowerCase). intros s _. reflexivity.
Defined.

(** The capitalised stop-list word at the start of "At the start" is
    skipped, and the name stays at its default. *)
Example capitalised_stop_word :
  matchAll compoundPattern (js "At the start") = [js "At"] /\
  material_name (parseMaterialRequest asciiLowerCase (js "At the start")) = js "Si" /\
  compound (parseMaterialRequest asciiLowerCase (js "At the start")) = None.
Proof. vm_compute. repeat split. Qed.

(** C9 as stated fails for the entries of [compound]: the token "InO2"
    is no stop-list word and is accepted, and its first segment "In"
    is the stop-list word "in" capitalised. *)
Lemma C9_counterexample :
  compound (parseMaterialRequest asciiLowerCase (js "InO2"))
    = Some [js "In"; js "O"] /\
  has commonWords (asciiLowerCase (js "In")) = true.
Proof. vm_compute. split; reflexivity. Qed.

(** ** A formula token with a single symbol *)

Lemma formulaLoop_passedOver lc ms : forall r,
  forallb (passedOver lc) ms = true -> formulaLoop lc ms r = r.
Proof.
  induction ms as [|m ms IH]; intros r H; cbn [formulaLoop forallb] in *;
    [reflexivity|].
  apply andb_prop in H. destruct H as [P F]. unfold passedOver in P.
  destruct (has commonWords (lc m)); cbn [negb orb] in *; [now apply IH|].
  destruct (test digit m); cbn [negb andb] in P; [discriminate|].
  unfold twoCapitals in P.
  destruct m as [|c0 [|c1 [|c2 m]]]; try now apply IH.
  apply negb_true_iff in P. rewrite P. now apply IH.
Qed.

Lemma formulaLoop_stops lc stops : forall ms r,
  forallb (fun w => has commonWords (lc w)) stops = true ->
  formulaLoop lc (stops ++ ms) r = formulaLoop lc ms r.
Proof.
  induction stops as [|w stops IH]; intros ms r H; cbn [app forallb] in *;
    [reflexivity|].
  apply andb_prop in H. destruct H as [W F].
  cbn [formulaLoop]. rewrite W. cbn [negb]. now apply IH.
Qed.

(** C10, as amended: when the first candidate token that is no
    stop-list word contains a digit and segments into fewer than two
    element symbols, the generic-formula step overwrites
    [material_name] with that token, leaves [compound] absent and goes
    on with the remaining candidates.  When the loop passes over all of
    them, the record leaves the step with that name and no compound,
    the element-identity resolver runs on it, and its name dictionary
    overwrites [material_name] again when it has a hit (a hit other
    than "Si" is the name the resolver leaves); without a hit the token
    stays. *)
Theorem C10_single_symbol_token
    (toLowerCase : jsstring -> jsstring) (text : jsstring)
    (stops : list jsstring) (tok : jsstring) (ms : list jsstring)
    (Hdict : dictionaryHit (toLowerCase text) = None)
    (Htoks : matchAll compoundPattern text = stops ++ tok :: ms)
    (Hstops : forallb (fun w => has commonWords (toLowerCase w)) stops = true)
    (Hnot : has commonWords (toLowerCase tok) = false)
    (Hdigit : test digit tok = true)
    (Hfew : length (matchAll elementPattern tok) < 2) :
  let base := parameterStages (toLowerCase text) in
  let named := set_material_name tok base in
  material_name named = tok /\ compound named = None /\
  formulaStage toLowerCase text base = formulaLoop toLowerCase ms named /\
  (forallb (passedOver toLowerCase) ms = true ->
   formulaStage toLowerCase text base = named /\
   parseMaterialRequest toLowerCase text =
     sourceStage text (elementStage toLowerCase text (toLowerCase text) named) /\
   (forall symbol, elementHit (toLowerCase text) = Some symbol ->
                   symbol <> js "Si" ->
      material_name (elementStage toLowerCase text (toLowerCase text) named)
      = symbol) /\
   (elementHit (toLowerCase text) = None ->
      material_name (elementStage toLowerCase text (toLowerCase text) named)
      = tok)).
Proof.
  intros base named.
  destruct (parameterStages_fields (toLowerCase text)) as (_ & Pc & _).
  fold base in Pc.
  assert (Step : formulaStage toLowerCase text base
                 = formulaLoop toLowerCase ms named).
  { unfold formulaStage. rewrite Pc, Htoks, (formulaLoop_stops _ _ _ _ Hstops).
    cbn [formulaLoop]. rewrite Hnot, Hdigit. cbn [negb].
    apply Nat.leb_gt in Hfew. now rewrite Hfew. }
  split; [reflexivity|]. split; [exact Pc|]. split; [exact Step|].
  intros Hms. rewrite (formulaLoop_passedOver _ _ _ Hms) in Step.
  split; [exact Step|]. split.
  { rewrite (parse_no_hit _ _ Hdict). fold base. now rewrite Step. }
  assert (NotSi : jsstring_eqb tok (js "Si") = false).
  { destruct (jsstring_eqb tok (js "Si")) eqn:E; [|reflexivity].
    apply jsstring_eqb_eq in E. subst tok. vm_compute in Hdigit. discriminate. }
  split.
  - intros symbol Hhit Hne. unfold elementStage.
    replace (compound named) with (@None (list jsstring)) by (symmetry; exact Pc).
    rewrite Hhit. cbn [material_name set_material_name].
    destruct (jsstring_eqb symbol (js "Si")) eqn:E; [|reflexivity].
    apply jsstring_eqb_eq in E. contradiction.
  - intros Hhit. unfold elementStage.
    replace (compound named) with (@None (list jsstring)) by (symmetry; exact Pc).
    rewrite Hhit. cbn [material_name set_material_name named].
    now rewrite NotSi.
Qed.

Lemma C10_single_symbol_token_witness :
  material_name (parseMaterialRequest asciiLowerCase (js "H2")) = js "H2" /\
  compound (parseMaterialRequest asciiLowerCase (js "H2")) = None.
Proof.
  destruct (C10_single_symbol_token asciiLowerCase (js "H2") [] (js "H2") []
              eq_refl eq_refl eq_refl eq_refl eq_refl (le_n 2))
    as (_ & _ & _ & After).
  destruct (After eq_refl) as (_ & Parse & _ & Stay).
  rewrite Parse. split; reflexivity.
Defined.

(** The element dictionary overwrites the token: "Fe2" ends as "Fe". *)
Example single_symbol_overwritten :
  matchAll compoundPattern (js "Fe2") = [js "Fe2"] /\
  matchAll elementPattern (js "Fe2") = [js "Fe"] /\
  elementHit (asciiLowerCase (js "Fe2")) = Some (js "Fe") /\
  material_name (parseMaterialRequest asciiLowerCase (js "Fe2")) = js "Fe" /\
  compound (parseMaterialRequest asciiLowerCase (js "Fe2")) = None.
Proof. vm_compute. repeat split. Qed.

(** C10 as stated fails: after "H2" the loop goes on, accepts "GaAs2"
    as a compound, and the element resolver is never entered. *)
Lemma C10_counterexample :
  matchAll compoundPattern (js "H2 GaAs2") = [js "H2"; js "GaAs2"] /\
  has commonWords (asciiLowerCase (js "H2")) = false /\
  test digit (js "H2") = true /\
  matchAll elementPattern (js "H2") = [js "H"] /\
  compound (parseMaterialRequest asciiLowerCase (js "H2 GaAs2"))
    = Some [js "Ga"; js "As"] /\
  material_name (parseMaterialRequest asciiLowerCase (js "H2 GaAs2")) = js "GaAs2".
Proof. vm_compute. repeat split. Qed.

(** ** The fuel of the loops never runs out

    The star loop and the global match run on fuel.  More fuel than
    the length of the input left to read changes nothing: no loop of
    the embedding is cut short. *)

Lemma starLoop_ext step k1 k2 :
  (forall k k' s, (forall s', k s' = k' s') -> step k s = step k' s) ->
  (forall s', k1 s' = k2 s') ->
  forall fuel s, starLoop step k1 fuel s = starLoop step k2 fuel s.
Proof.
  intros Hstep Hk. induction fuel as [|fuel IH]; intros s; cbn [starLoop].
  - apply Hk.
  - rewrite (Hstep _ (fun s' => if Nat.ltb (length (rest s')) (length (rest s))
                                then starLoop step k2 fuel s' else None) s).
    + now rewrite Hk.
    + intros s'. destruct (Nat.ltb _ _); [apply IH | reflexivity].
Qed.

Lemma matcher_ext r : forall k1 k2 s,
  (forall s', k1 s' = k2 s') -> matcher r k1 s = matcher r k2 s.
Proof.
  induction r as [|p|r1 IH1 r2 IH2|r1 IH1 r2 IH2|r IH|i r IH| | |];
    intros k1 k2 s H; cbn [matcher].
  - apply H.
  - destruct (rest s); [reflexivity|]. destruct (p n); [apply H | reflexivity].
  - apply IH1. intros s'. now apply IH2.
  - rewrite (IH1 k1 k2 s H), (IH2 k1 k2 s H). reflexivity.
  - apply starLoop_ext; [|assumption]. intros k k' s0 Hk. now apply IH.
  - apply IH. intros s'. apply H.
  - destruct (atWordBoundary s); [apply H | reflexivity].
  - destruct (isNil (before s)); [apply H | reflexivity].
  - destruct (isNil (rest s)); [apply H | reflexivity].
Qed.

Lemma matcher_none r k s : (forall s', k s' = None) -> matcher r k s = None.
Proof.
  intros H. destruct (matcher r k s) as [x|] eqn:E; [|reflexivity].
  apply matcher_sound in E. destruct E as (s' & _ & K). rewrite H in K. discriminate.
Qed.

Lemma starLoop_fuel r k : forall n s f1 f2,
  length (rest s) <= n -> length (rest s) <= f1 -> length (rest s) <= f2 ->
  starLoop (matcher r) k f1 s = starLoop (matcher r) k f2 s.
Proof.
  assert (Zero : forall s f, length (rest s) = 0 ->
                 starLoop (matcher r) k f s = k s).
  { intros s [|f] Z; cbn [starLoop]; [reflexivity|].
    rewrite matcher_none; [reflexivity|].
    intros s'. rewrite Z. reflexivity. }
  induction n as [|n IH]; intros s f1 f2 Hn H1 H2.
  - rewrite !Zero by lia. reflexivity.
  - destruct f1 as [|f1]; [rewrite !Zero by lia; reflexivity|].
    destruct f2 as [|f2]; [rewrite !Zero by lia; reflexivity|].
    cbn [starLoop].
    rewrite (matcher_ext r _
               (fun s' => if Nat.ltb (length (rest s')) (length (rest s))
                          then starLoop (matcher r) k f2 s' else None) s);
      [reflexivity|].
    intros s'. destruct (Nat.ltb_spec (length (rest s')) (length (rest s)));
      [|reflexivity].
    apply IH; lia.
Qed.

(** Any fuel from the length of the remaining input on gives the star
    of the matcher. *)
Theorem starLoop_fuel_enough r k s fuel :
  length (rest s) <= fuel ->
  starLoop (matcher r) k fuel s = matcher (Star r) k s.
Proof.
  intros H. rewrite matcher_star.
  apply (starLoop_fuel r k (length (rest s))); lia.
Qed.

Lemma search_shorter r : forall rst bef s s',
  search r bef rst = Some (s, s') ->
  length (rest s') <= length (rest s) /\ length (rest s) <= length rst.
Proof.
  intros rst bef s s' H. apply search_sound in H.
  destruct H as (pre & E & _ & M).
  destruct (matches_lang _ _ _ M) as (w & R & _).
  apply reads_length in R.
  assert (length rst = length pre + length (rest s))
    by (rewrite E at 1; apply length_app).
  lia.
Qed.

Lemma matchAllFrom_fuel r : forall n rst bef f1 f2,
  length rst <= n -> length rst < f1 -> length rst < f2 ->
  matchAllFrom f1 r bef rst = matchAllFrom f2 r bef rst.
Proof.
  induction n as [|n IH]; intros rst bef f1 f2 Hn H1 H2;
    (destruct f1 as [|f1]; [lia|]); (destruct f2 as [|f2]; [lia|]);
    cbn [matchAllFrom];
    destruct (search r bef rst) as [[s s']|] eqn:E; try reflexivity;
    apply search_shorter in E; destruct E as [E1 E2]; f_equal;
    destruct (Nat.ltb_spec (length (rest s')) (length (rest s))) as [L|L];
    try lia.
  - destruct (rest s') as [|c t] eqn:R; [reflexivity|]. simpl in *. lia.
  - apply IH; lia.
  - destruct (rest s') as [|c t] eqn:R; [reflexivity|].
    simpl in *. apply IH; lia.
Qed.

(** Any fuel above the length of the text gives [str.match(r)] with
    the [g] flag. *)
Theorem matchAll_fuel_enough r str fuel :
  length str < fuel -> matchAllFrom fuel r [] str = matchAll r str.
Proof.
  intros H. unfold matchAll.
  apply (matchAllFrom_fuel r (length str)); lia.
Qed.

(** ** The matcher is complete

    Whenever the pattern can take the input from [s] to a state that
    the continuation accepts, the matcher finds a match (the first in
    backtracking order, which may be another one). *)

Theorem matcher_complete r s s' :
  matches r s s' ->
  forall k x, k s' = Some x -> exists y, matcher r k s = Some y.
Proof.
  induction 1 as [s|p s c t E P|r1 r2 s s1 s2 _ IH1 _ IH2|r1 r2 s s' _ IH
                 |r1 r2 s s' _ IH|r s|r s s1 s2 _ IH1 L _ IH2|i r s s' _ IH
                 |s W|s B|s R]; intros k x K.
  - exists x. exact K.
  - exists x. rewrite (char_step p k s c t E P). unfold advance in K. now rewrite E in K.
  - destruct (IH2 k x K) as (y & Hy). rewrite matcher_seq. now apply (IH1 _ y).
  - destruct (IH k x K) as (y & Hy). exists y. rewrite matcher_alt. now rewrite Hy.
  - rewrite matcher_alt. destruct (matcher r1 k s) as [y|]; [now exists y|].
    now apply (IH k x).
  - rewrite matcher_star. destruct (length (rest s)) as [|f]; cbn [starLoop].
    + now exists x.
    + destruct (matcher r _ s) as [y|]; [now exists y | now exists x].
  - destruct (IH2 k x K) as (y & Hy). rewrite matcher_star in *.
    destruct (length (rest s)) as [|f] eqn:Len; [lia|]. cbn [starLoop].
    assert (Inner : exists z,
              matcher r (fun s0 => if Nat.ltb (length (rest s0)) (length (rest s))
                                   then starLoop (matcher r) k f s0 else None) s
              = Some z).
    { apply (IH1 _ y). rewrite Len. apply Nat.ltb_lt in L. rewrite L. rewrite <- Hy.
      apply Nat.ltb_lt in L.
      apply (starLoop_fuel r k (length (rest s1))); lia. }
    destruct Inner as (z & Hz). exists z. now rewrite Hz.
  - rewrite matcher_group. now apply (IH _ x).
  - exists x. cbn [matcher]. now rewrite W.
  - exists x. cbn [matcher]. now rewrite B.
  - exists x. cbn [matcher]. now rewrite R.
Qed.

(** The search finds a match when one starts somewhere in the text. *)
Lemma search_complete r : forall pre bef rst s',
  matches r (MState (rev pre ++ bef) rst []) s' ->
  exists a b, search r bef (pre ++ rst) = Some (a, b).
Proof.
  induction pre as [|c pre IH]; intros bef rst s' M.
  - cbn [rev app] in *. destruct (matcher_complete _ _ _ M Some s' eq_refl) as (y & Hy).
    exists (MState bef rst []), y.
    destruct rst; cbn [search]; unfold matchHere; now rewrite Hy.
  - cbn [app search]. destruct (matchHere r bef (c :: pre ++ rst)) as [y|]; [eauto|].
    apply (IH (c :: bef) rst s'). cbn [rev] in M. now rewrite <- app_assoc in M.
Qed.

Lemma jsMatch_complete r pre rst s' :
  matches r (MState (rev pre) rst []) s' ->
  exists m, jsMatch r (pre ++ rst) = Some m.
Proof.
  intros M. unfold jsMatch.
  destruct (search_complete r pre [] rst s') as (a & b & E);
    [now rewrite app_nil_r|].
  rewrite E. eauto.
Qed.

(** ** The fields of the record, whatever the request *)

Lemma matchAllFrom_sound r w : forall fuel bef rst,
  In w (matchAllFrom fuel r bef rst) -> lang r w.
Proof.
  induction fuel as [|fuel IH]; intros bef rst H; cbn [matchAllFrom] in H;
    [contradiction|].
  destruct (search r bef rst) as [[s s']|] eqn:E; [|contradiction].
  destruct H as [H | H].
  - apply search_sound in E. destruct E as (_ & _ & _ & M).
    destruct (matches_lang _ _ _ M) as (u & R & L).
    now rewrite <- H, (between_reads _ _ _ R).
  - destruct (Nat.ltb _ _); [now apply IH in H|].
    destruct (rest s'); [contradiction | now apply IH in H].
Qed.

Lemma matchAll_sound r str w : In w (matchAll r str) -> lang r w.
Proof. apply matchAllFrom_sound. Qed.

Lemma lang_elementPattern w : lang elementPattern w -> isSymbol w = true.
Proof.
  unfold elementPattern. cbn [lang].
  intros (u & v & -> & (c & -> & U) & [(d & -> & L) | ->]); cbn [app isSymbol].
  - unfold upper, lower in *. now rewrite U, L.
  - exact U.
Qed.

Lemma compoundMap_elements :
  forallb (fun e => (2 <=? length (elements (snd e))) &&
                    forallb isSymbol (elements (snd e))) compoundMap = true.
Proof. vm_compute. reflexivity. Qed.

Lemma dictionaryHit_In tl v :
  dictionaryHit tl = Some v -> exists key, In (key, v) compoundMap /\ includes tl key = true.
Proof.
  unfold dictionaryHit. intros H.
  destruct (find (fun e => includes tl (fst e)) compoundMap) as [[key v']|] eqn:F;
    [|discriminate].
  inversion H; subst v'. apply find_some in F. exists key. exact F.
Qed.

Lemma parse_compound_hit lc text v :
  dictionaryHit (lc text) = Some v ->
  material_name (parseMaterialRequest lc text) = name v /\
  compound (parseMaterialRequest lc text) = Some (elements v) /\
  source_type (parseMaterialRequest lc text) = None.
Proof.
  intros H. rewrite (parse_hit _ _ _ H).
  destruct (parameterStages_fields (lc text)) as (_ & _ & Ps & _).
  unfold applyEntry. destruct (entry_structure_type v); cbn; auto.
Qed.

Lemma parse_compound_no_hit lc text :
  dictionaryHit (lc text) = None ->
  compound (parseMaterialRequest lc text)
  = compound (formulaLoop lc (matchAll compoundPattern text)
                (parameterStages (lc text))).
Proof.
  intros H. rewrite (parse_no_hit _ _ H).
  destruct (sourceStage_frame text
              (elementStage lc text (lc text)
                 (formulaStage lc text (parameterStages (lc text)))))
    as (_ & _ & _ & -> & _).
  destruct (elementStage_frame lc text (lc text)
              (formulaStage lc text (parameterStages (lc text))))
    as (_ & _ & _ & -> & _).
  destruct (parameterStages_fields (lc text)) as (_ & Pc & _).
  unfold formulaStage. now rewrite Pc.
Qed.

(** Whenever the record has a compound, it has at least two entries
    and each entry is an element-like symbol. *)
Theorem compound_well_formed
    (toLowerCase : jsstring -> jsstring) (text : jsstring) (els : list jsstring)
    (H : compound (parseMaterialRequest toLowerCase text) = Some els) :
  2 <= length els /\ forallb isSymbol els = true.
Proof.
  destruct (dictionaryHit (toLowerCase text)) as [v|] eqn:Hit.
  - destruct (parse_compound_hit _ _ _ Hit) as (_ & C & _).
    rewrite C in H. inversion H; subst els.
    destruct (dictionaryHit_In _ _ Hit) as (key & I & _).
    pose proof compoundMap_elements as T. rewrite forallb_forall in T.
    apply T in I. cbn [snd] in I. apply andb_prop in I. destruct I as [A B].
    split; [now apply Nat.leb_le | exact B].
  - rewrite (parse_compound_no_hit _ _ Hit) in H.
    destruct (parameterStages_fields (toLowerCase text)) as (_ & Pc & _).
    destruct (formulaLoop_compound toLowerCase els _ _ Pc H)
      as (tok & _ & _ & _ & [(_ & E & L) | (_ & c0 & c1 & _ & U0 & U1 & E)]).
    + split; [exact L|]. subst els. apply forallb_forall. intros w I.
      now apply lang_elementPattern, (matchAll_sound _ tok).
    + subst els. split; [apply le_n|]. cbn. now rewrite U0, U1.
Qed.

Lemma compound_well_formed_witness :
  2 <= length [js "Ga"; js "As"] /\ forallb isSymbol [js "Ga"; js "As"] = true.
Proof.
  apply (compound_well_formed asciiLowerCase (js "GaAs2")). reflexivity.
Defined.

(** When the detector fires, the name it writes has a character that
    is no letter: the dash, a digit, the colon, a separator or the dot. *)
Lemma sourceStage_marked text r :
  sourceStage text r = r \/
  exists c, In c (material_name (sourceStage text r)) /\ isLetter c = false.
Proof.
  unfold sourceStage.
  destruct (jsMatch mpPattern text) as [m|] eqn:Mp.
  { right. apply jsMatch_lang in Mp. destruct Mp as (L & _).
    apply mpPattern_shape in L. destruct L as (p & ds & E & _).
    cbn [material_name set_source_type set_material_name]. rewrite E.
    exists cdash. split; [|reflexivity]. apply in_or_app. right. now left. }
  destruct (jsMatch codPattern text) as [m|] eqn:Cod.
  { right. apply jsMatch_lang in Cod. destruct Cod as (L & _).
    apply codPattern_shape in L. destruct L as (p & sep & ds & E & _ & _ & N).
    destruct (numeral_has_digit _ N) as (d & Id & Dd).
    cbn [material_name set_source_type set_material_name].
    exists d. split; [|chars].
    assert (I : In d (matched m))
      by (rewrite E; apply in_or_app; right; apply in_or_app; now right).
    destruct (replaceEmpty_sound codPrefix (matched m))
      as [-> | (pre & w & post & E' & L' & ->)]; [assumption|].
    rewrite E' in I. apply in_app_or in I. destruct I as [I | I].
    - apply in_or_app. now left.
    - apply in_app_or in I. destruct I as [I | I].
      + rewrite (codPrefix_no_digit _ _ L' I) in Dd. discriminate.
      + apply in_or_app. now right. }
  destruct (jsMatch urlPattern text) as [m|] eqn:Url.
  { right. apply jsMatch_lang in Url. destruct Url as (L & _).
    apply urlPattern_shape in L. destruct L as (s & u & E & _).
    cbn [material_name set_source_type set_material_name]. rewrite E.
    exists ccolon. split; [|reflexivity].
    apply in_or_app. right. apply in_or_app. right. now left. }
  destruct (test separatorPattern text || test extensionPattern text) eqn:T;
    [|now left].
  right. cbn [material_name set_source_type set_material_name].
  apply orb_prop in T. destruct T as [T | T]; apply test_lang in T;
    destruct T as (pre & w & post & E & L).
  - destruct L as (c & -> & P). exists c.
    assert (C : c = cslash \/ c = cbackslash).
    { cbn in P. rewrite orb_false_r in P. apply orb_prop in P.
      destruct P as [P | P]; apply N.eqb_eq in P; auto. }
    split.
    + apply trim_keeps; [rewrite E; apply in_or_app; right; now left|].
      destruct C as [-> | ->]; reflexivity.
    + destruct C as [-> | ->]; reflexivity.
  - unfold extensionPattern, seqs in L. cbn [lang] in L.
    destruct L as (u1 & v1 & -> & (c & -> & P) & _).
    apply N.eqb_eq in P. subst c. exists cdot. split; [|reflexivity].
    apply trim_keeps; [|reflexivity].
    rewrite E. apply in_or_app. right. now left.
Qed.

Lemma formulaLoop_name_from lc ms : forall r,
  material_name (formulaLoop lc ms r) = material_name r \/
  In (material_name (formulaLoop lc ms r)) ms.
Proof.
  induction ms as [|m ms IH]; intros r; cbn [formulaLoop]; [now left|].
  assert (Next : forall r', material_name r' = material_name r \/ material_name r' = m ->
            material_name (formulaLoop lc ms r') = material_name r \/
            In (material_name (formulaLoop lc ms r')) (m :: ms)).
  { intros r' Hr'. destruct (IH r') as [E | I].
    - rewrite E. destruct Hr' as [-> | ->]; [now left | right; now left].
    - right. now right. }
  destruct (negb _); [|apply Next; now left].
  destruct (test digit m).
  - destruct (Nat.leb _ _); [right; now left | apply Next; now right].
  - destruct m as [|c0 [|c1 [|c2 m]]]; try (apply Next; now left).
    destruct (_ && _); [right; now left | apply Next; now left].
Qed.

Lemma lang_compoundPattern_nonempty w : lang compoundPattern w -> w <> [].
Proof.
  unfold compoundPattern, seqs. cbn [lang].
  intros (u1 & v1 & -> & -> & u2 & v2 & -> & (a & b & -> & (c & -> & _) & _) & _).
  discriminate.
Qed.

Lemma lang_symbolPattern_nonempty w : lang symbolPattern w -> w <> [].
Proof.
  unfold symbolPattern, seqs. cbn [lang].
  intros (u1 & v1 & -> & -> & u2 & v2 & -> & (a & b & -> & (c & -> & _) & _) & _).
  discriminate.
Qed.

Lemma elementMap_nonempty :
  forallb (fun e => negb (isNil (snd e))) elementMap = true.
Proof. vm_compute. reflexivity. Qed.

Lemma compoundMap_nonempty :
  forallb (fun e => negb (isNil (name (snd e)))) compoundMap = true.
Proof. vm_compute. reflexivity. Qed.

Lemma elementStage_nonempty lc text tl r :
  material_name r <> [] -> material_name (elementStage lc text tl r) <> [].
Proof.
  intros H. unfold elementStage. destruct (compound r); [assumption|].
  assert (A : material_name
                match elementHit tl with
                | Some symbol => set_material_name symbol r
                | None => r
                end <> []).
  { unfold elementHit.
    destruct (find (fun e => includes tl (fst e)) elementMap) as [e|] eqn:F;
      [|assumption].
    apply find_some in F. destruct F as [I _].
    pose proof elementMap_nonempty as T. rewrite forallb_forall in T.
    apply T in I. cbn. destruct (snd e); [discriminate | discriminate]. }
  destruct (jsstring_eqb _ _); [|assumption].
  destruct (potentialElements lc text) as [|e es] eqn:P; [assumption|].
  assert (I : In e (potentialElements lc text)) by (rewrite P; now left).
  unfold potentialElements in I. apply filter_In in I. destruct I as [I _].
  cbn. now apply lang_symbolPattern_nonempty, (matchAll_sound _ text).
Qed.

(** The material name of the record is never the empty string. *)
Theorem material_name_nonempty
    (toLowerCase : jsstring -> jsstring) (text : jsstring) :
  material_name (parseMaterialRequest toLowerCase text) <> [].
Proof.
  destruct (parameterStages_fields (toLowerCase text)) as (Pn & Pc & _).
  destruct (dictionaryHit (toLowerCase text)) as [v|] eqn:Hit.
  - destruct (parse_compound_hit _ _ _ Hit) as (-> & _).
    destruct (dictionaryHit_In _ _ Hit) as (key & I & _).
    pose proof compoundMap_nonempty as T. rewrite forallb_forall in T.
    apply T in I. cbn [snd] in I. destruct (name v); [discriminate | discriminate].
  - rewrite (parse_no_hit _ _ Hit).
    set (rf := formulaStage toLowerCase text (parameterStages (toLowerCase text))).
    assert (Nf : material_name rf <> []).
    { unfold rf, formulaStage. rewrite Pc.
      destruct (formulaLoop_name_from toLowerCase (matchAll compoundPattern text)
                  (parameterStages (toLowerCase text))) as [E | I].
      - rewrite E, Pn. discriminate.
      - now apply lang_compoundPattern_nonempty, (matchAll_sound _ text). }
    pose proof (elementStage_nonempty toLowerCase text (toLowerCase text) rf Nf) as Ne.
    destruct (sourceStage_marked text
                (elementStage toLowerCase text (toLowerCase text) rf))
      as [-> | (c & I & _)]; [exact Ne|].
    intros E. rewrite E in I. destruct I.
Qed.

(** ** The compound dictionary decides

    When the case-folded text includes a key of the compound
    dictionary, the record is that of the first included key in
    declaration order: its name, its elements, and no source type,
    whatever else the text holds. *)
Theorem dictionary_key_decides
    (toLowerCase : jsstring -> jsstring) (text : jsstring) (i : nat)
    (key : jsstring) (v : compoundEntry)
    (Hi : nth_error compoundMap i = Some (key, v))
    (Hin : includes (toLowerCase text) key = true) :
  exists k e,
    k <= i /\ nth_error compoundMap k = Some e /\
    includes (toLowerCase text) (fst e) = true /\
    (forall j e', j < k -> nth_error compoundMap j = Some e' ->
                  includes (toLowerCase text) (fst e') = false) /\
    material_name (parseMaterialRequest toLowerCase text) = name (snd e) /\
    compound (parseMaterialRequest toLowerCase text) = Some (elements (snd e)) /\
    source_type (parseMaterialRequest toLowerCase text) = None.
Proof.
  destruct (find_first (fun e => includes (toLowerCase text) (fst e))
              compoundMap i (key, v) Hi Hin) as (k & e & Hk & Ek & Fk & Ef & Hfirst).
  assert (Hit : dictionaryHit (toLowerCase text) = Some (snd e))
    by (unfold dictionaryHit; now rewrite Ef).
  destruct (parse_compound_hit _ _ _ Hit) as (A & B & C).
  exists k, e. repeat (split; [assumption|]). assumption.
Qed.

Lemma dictionary_key_decides_witness :
  exists k e,
    k <= 4 /\ nth_error compoundMap k = Some e /\
    includes (asciiLowerCase (js "Load GaN from /data/mgo.cif")) (fst e) = true /\
    (forall j e', j < k -> nth_error compoundMap j = Some e' ->
       includes (asciiLowerCase (js "Load GaN from /data/mgo.cif")) (fst e') = false) /\
    material_name (parseMaterialRequest asciiLowerCase
                     (js "Load GaN from /data/mgo.cif")) = name (snd e) /\
    compound (parseMaterialRequest asciiLowerCase
                (js "Load GaN from /data/mgo.cif")) = Some (elements (snd e)) /\
    source_type (parseMaterialRequest asciiLowerCase
                   (js "Load GaN from /data/mgo.cif")) = None.
Proof.
  apply (dictionary_key_decides asciiLowerCase (js "Load GaN from /data/mgo.cif")
           4 (js "gan") (entry "GaN" ["Ga"; "N"]%string None));
    reflexivity.
Defined.

(** A path that happens to hold a dictionary key loses its source. *)
Example key_inside_a_path :
  material_name (parseMaterialRequest asciiLowerCase
                   (js "Load GaN from /data/mgo.cif")) = js "MgO" /\
  source_type (parseMaterialRequest asciiLowerCase
                 (js "Load GaN from /data/mgo.cif")) = None.
Proof. vm_compute. split; reflexivity. Qed.

(** ** The vocabulary of [structure_type] *)

Lemma compoundMap_overrides :
  forallb (fun e =>
             match entry_structure_type (snd e) with
             | None => true
             | Some st =>
                 jsstring_eqb st (js "quartz") &&
                 jsstring_eqb (name (snd e)) (js "SiO2") &&
                 if list_eq_dec (list_eq_dec N.eq_dec)
                      (elements (snd e)) [js "Si"; js "O"]
                 then true else false
             end) compoundMap = true.
Proof. vm_compute. reflexivity. Qed.

(** A structure type in the record is either the tag that the
    taxonomy matcher found, one of the ten of its table, or it is
    "quartz"; "quartz" only comes with the dictionary entry SiO2, its
    compound (Si, O) and no source type. *)
Theorem structure_type_vocabulary
    (toLowerCase : jsstring -> jsstring) (text t : jsstring)
    (H : structure_type (parseMaterialRequest toLowerCase text) = Some t) :
  (In t (map fst structureKeywords) /\ matchingTag (toLowerCase text) = Some t) \/
  (t = js "quartz" /\
   material_name (parseMaterialRequest toLowerCase text) = js "SiO2" /\
   compound (parseMaterialRequest toLowerCase text) = Some [js "Si"; js "O"] /\
   source_type (parseMaterialRequest toLowerCase text) = None).
Proof.
  destruct (structure_type_stages toLowerCase text) as [E | (v & st & Hit & St & E)].
  - left. rewrite E in H. unfold structureStage in H.
    assert (D : structure_type (supercellStage (toLowerCase text) defaults) = None)
      by (unfold supercellStage; destruct (firstMatch _ _); reflexivity).
    destruct (matchingTag (toLowerCase text)) as [tag|] eqn:T;
      [|rewrite D in H; discriminate].
    cbn in H. inversion H; subst tag. split; [|reflexivity].
    unfold matchingTag in T.
    destruct (find _ structureKeywords) as [e|] eqn:F; [|discriminate].
    inversion T; subst t. apply find_some in F. apply in_map, F.
  - right. rewrite E in H. inversion H; subst st.
    destruct (parse_compound_hit _ _ _ Hit) as (A & B & C).
    destruct (dictionaryHit_In _ _ Hit) as (key & I & _).
    pose proof compoundMap_overrides as T. rewrite forallb_forall in T.
    apply T in I. cbn [snd] in I. rewrite St in I.
    apply andb_prop in I. destruct I as [I I3].
    apply andb_prop in I. destruct I as [I1 I2].
    apply jsstring_eqb_eq in I1, I2.
    destruct (list_eq_dec (list_eq_dec N.eq_dec) (elements v) [js "Si"; js "O"])
      as [I4|]; [|discriminate].
    rewrite A, B, I2, I4. auto.
Qed.

Lemma structure_type_vocabulary_witness :
  (In (js "quartz") (map fst structureKeywords) /\
   matchingTag (asciiLowerCase (js "fcc quartz")) = Some (js "quartz")) \/
  (js "quartz" = js "quartz" /\
   material_name (parseMaterialRequest asciiLowerCase (js "fcc quartz")) = js "SiO2" /\
   compound (parseMaterialRequest asciiLowerCase (js "fcc quartz"))
     = Some [js "Si"; js "O"] /\
   source_type (parseMaterialRequest asciiLowerCase (js "fcc quartz")) = None).
Proof.
  apply (structure_type_vocabulary asciiLowerCase (js "fcc quartz")). reflexivity.
Defined.

(** ** Where the source type comes from *)

Lemma sourceStage_cases text r :
  source_type r = None ->
  (exists m, jsMatch mpPattern text = Some m /\
     source_type (sourceStage text r) = Some (js "mp") /\
     material_name (sourceStage text r) = matched m) \/
  (exists m, jsMatch mpPattern text = None /\ jsMatch codPattern text = Some m /\
     source_type (sourceStage text r) = Some (js "cod") /\
     material_name (sourceStage text r) = replaceEmpty codPrefix (matched m)) \/
  (exists m, jsMatch mpPattern text = None /\ jsMatch codPattern text = None /\
     jsMatch urlPattern text = Some m /\
     source_type (sourceStage text r) = Some (js "url") /\
     material_name (sourceStage text r) = matched m) \/
  (jsMatch mpPattern text = None /\ jsMatch codPattern text = None /\
   jsMatch urlPattern text = None /\
   test separatorPattern text || test extensionPattern text = true /\
   source_type (sourceStage text r) = Some (js "file") /\
   material_name (sourceStage text r) = trim text) \/
  (jsMatch mpPattern text = None /\ jsMatch codPattern text = None /\
   jsMatch urlPattern text = None /\
   test separatorPattern text || test extensionPattern text = false /\
   sourceStage text r = r /\ source_type (sourceStage text r) = None).
Proof.
  intros S. unfold sourceStage.
  destruct (jsMatch mpPattern text) as [m|]; [left; eauto|].
  destruct (jsMatch codPattern text) as [m|]; [right; left; eauto|].
  destruct (jsMatch urlPattern text) as [m|]; [right; right; left; eauto 7|].
  destruct (_ || _); [right; right; right; left; auto 7|].
  right; right; right; right. auto 7.
Qed.

(** The record that the detector receives has no source type yet. *)
Lemma before_sourceStage lc text :
  source_type (elementStage lc text (lc text)
                 (formulaStage lc text (parameterStages (lc text)))) = None.
Proof.
  destruct (elementStage_frame lc text (lc text)
              (formulaStage lc text (parameterStages (lc text))))
    as (_ & _ & _ & _ & -> & _).
  destruct (formulaStage_frame lc text (parameterStages (lc text)))
    as (_ & _ & _ & -> & _).
  apply parameterStages_fields.
Qed.

(** The source type of the record, and whence it comes. *)
Lemma parse_source_cases lc text :
  let r := parseMaterialRequest lc text in
  (source_type r = None) \/
  (dictionaryHit (lc text) = None /\
   ((exists m, jsMatch mpPattern text = Some m /\
       source_type r = Some (js "mp") /\ material_name r = matched m) \/
    (exists m, jsMatch mpPattern text = None /\ jsMatch codPattern text = Some m /\
       source_type r = Some (js "cod") /\
       material_name r = replaceEmpty codPrefix (matched m)) \/
    (exists m, jsMatch mpPattern text = None /\ jsMatch codPattern text = None /\
       jsMatch urlPattern text = Some m /\
       source_type r = Some (js "url") /\ material_name r = matched m) \/
    (jsMatch mpPattern text = None /\ jsMatch codPattern text = None /\
     jsMatch urlPattern text = None /\
     test separatorPattern text || test extensionPattern text = true /\
     source_type r = Some (js "file") /\ material_name r = trim text))).
Proof.
  intros r. unfold r.
  destruct (dictionaryHit (lc text)) as [v|] eqn:Hit.
  - left. apply (parse_compound_hit _ _ _ Hit).
  - rewrite (parse_no_hit _ _ Hit).
    destruct (sourceStage_cases text _ (before_sourceStage lc text))
      as [A | [B | [C | [D | (_ & _ & _ & _ & _ & E)]]]];
      [right; split; [reflexivity|]; auto ..| now left].
Qed.

Lemma search_found r : forall rst bef s s',
  search r bef rst = Some (s, s') ->
  exists pre, rst = pre ++ rest s /\ s = MState (rev pre ++ bef) (rest s) [] /\
              matchHere r (rev pre ++ bef) (rest s) = Some s'.
Proof.
  induction rst as [|c t IH]; intros bef s s' H; cbn [search] in H.
  - destruct (matchHere r bef []) as [y|] eqn:E; [|discriminate].
    inversion H; subst. exists []. repeat split; try exact E.
  - destruct (matchHere r bef (c :: t)) as [y|] eqn:E.
    + inversion H; subst. exists []. repeat split; try exact E.
    + apply IH in H. destruct H as (pre & E1 & E2 & M).
      exists (c :: pre). cbn [rev app]. rewrite <- !app_assoc. cbn [app].
      repeat split; auto. now rewrite <- E1.
Qed.

Lemma jsMatch_found r str m :
  jsMatch r str = Some m ->
  exists pre post s',
    str = pre ++ matched m ++ post /\
    matchHere r (rev pre) (matched m ++ post) = Some s' /\
    rest s' = post /\ before s' = rev (matched m) ++ rev pre /\
    matches r (MState (rev pre) (matched m ++ post) []) s'.
Proof.
  unfold jsMatch. intros H.
  destruct (search r [] str) as [[s s']|] eqn:E; [|discriminate].
  inversion H; subst m. clear H. cbn [matched].
  apply search_found in E. destruct E as (pre & E1 & E2 & F).
  rewrite app_nil_r in *.
  pose proof F as F'. apply matcher_sound in F'. destruct F' as (z & M & K).
  inversion K; subst z. clear K.
  destruct (matches_lang _ _ _ M) as (w & R & _).
  assert (B : between s s' = w).
  { apply between_reads. rewrite E2. exact R. }
  destruct R as [R1 R2]. cbn [rest before] in R1, R2.
  exists pre, (rest s'), s'. rewrite B, <- R1.
  repeat split; auto; try (now rewrite E1); try (now rewrite E2 in *).
Qed.

Lemma matches_starts_bounded r s s' :
  matches (Seq WordBoundary r) s s' -> atWordBoundary s = true /\ matches r s s'.
Proof.
  intros M. inversion M as [| |r1 r2 a b c M1 M2| | | | | | | |]; subst.
  inversion M1; subst. auto.
Qed.

Lemma matches_ends_bounded r : forall s s',
  endsAtBoundary r = true -> matches r s s' -> atWordBoundary s' = true.
Proof.
  induction r; intros s s' E M; try discriminate E.
  - inversion M; subst. cbn [endsAtBoundary] in E. eauto.
  - inversion M; subst. assumption.
Qed.

Lemma headIs_rev_last (P : N -> bool) w y :
  w <> [] -> forallb P w = true -> headIs P (rev w ++ y) = true.
Proof.
  intros Hne F. assert (F' : forallb P (rev w) = true).
  { rewrite forallb_forall in *. intros c I. apply F. now apply in_rev. }
  destruct (rev w) as [|c u] eqn:E.
  - apply (f_equal (@rev _)) in E. rewrite rev_involutive in E. contradiction.
  - cbn in *. now apply andb_prop in F'.
Qed.

Lemma digit_wordChar c : isDigit c = true -> isWordChar c = true.
Proof. intros H. unfold isWordChar. rewrite H. now rewrite !orb_true_r. Qed.

Lemma letter_wordChar c : isLetter c = true -> isWordChar c = true.
Proof. unfold isLetter, isWordChar. intros ->. reflexivity. Qed.

(** A token between word boundaries: a letter first, a digit last. *)
Lemma bounded_token r pre w post s' p tail ds :
  matches r (MState (rev pre) (w ++ post) []) s' ->
  rest s' = post -> before s' = rev w ++ rev pre ->
  r = Seq WordBoundary (match r with Seq _ r2 => r2 | _ => r end) ->
  endsAtBoundary r = true ->
  w = p ++ tail ++ ds -> p <> [] -> forallb isLetter p = true -> isNumeral ds ->
  headIs isWordChar (rev pre) = false /\ headIs isWordChar post = false.
Proof.
  intros M R B Shape E W Np Lp [Nd Fd].
  pose proof (matches_ends_bounded _ _ _ E M) as W2.
  rewrite Shape in M. apply matches_starts_bounded in M. destruct M as [W1 _].
  unfold atWordBoundary in *. cbn [before rest] in W1. rewrite R, B in W2.
  assert (H1 : headIs isWordChar (w ++ post) = true).
  { rewrite W. destruct p as [|a p]; [contradiction|]. cbn in *.
    apply andb_prop in Lp. now apply letter_wordChar. }
  assert (H2 : headIs isWordChar (rev w ++ rev pre) = true).
  { rewrite W, app_assoc, rev_app_distr, <- app_assoc.
    apply headIs_rev_last; [assumption|].
    rewrite forallb_forall in *. intros c I. now apply digit_wordChar, Fd. }
  rewrite H1 in W1. rewrite H2 in W2.
  split.
  - destruct (headIs isWordChar (rev pre)); [discriminate | reflexivity].
  - destruct (headIs isWordChar post); [discriminate | reflexivity].
Qed.

Lemma source_tags_distinct :
  js "mp" <> js "cod" /\ js "mp" <> js "url" /\ js "mp" <> js "file" /\
  js "cod" <> js "url" /\ js "cod" <> js "file" /\ js "url" <> js "file".
Proof. vm_compute. repeat split; discriminate. Qed.

(** A record with source type "mp" names a token of the text: "mp",
    in either case of the letters, a dash and digits, with no word
    character before or after it. *)
Theorem mp_source_names_token
    (toLowerCase : jsstring -> jsstring) (text : jsstring)
    (H : source_type (parseMaterialRequest toLowerCase text) = Some (js "mp")) :
  exists pre p ds post,
    text = pre ++ (p ++ cdash :: ds) ++ post /\
    asciiLowerCase p = js "mp" /\ isNumeral ds /\
    headIs isWordChar (rev pre) = false /\ headIs isWordChar post = false /\
    material_name (parseMaterialRequest toLowerCase text) = p ++ cdash :: ds.
Proof.
  destruct source_tags_distinct as (D1 & D2 & D3 & _).
  destruct (parse_source_cases toLowerCase text)
    as [S | (_ & [(m & Mp & _ & Nm) | [(m & _ & _ & S & _) | [(m & _ & _ & _ & S & _)
        | (_ & _ & _ & _ & S & _)]]])];
    rewrite S in H || idtac; try (inversion H; congruence).
  destruct (jsMatch_found _ _ _ Mp) as (pre & post & s' & E & _ & R & B & M).
  destruct (jsMatch_lang _ _ _ Mp) as (L & _).
  pose proof L as L'. apply mpPattern_shape in L'.
  destruct L' as (p & ds & W & Ep & Nd).
  assert (Lp : p <> [] /\ forallb isLetter p = true).
  { unfold mpPattern, seqs in L. cbn [lang] in L.
    destruct L as (u1 & v1 & E1 & -> & u2 & v2 & -> & L2 & u3 & v3 & -> & (x & -> & P)
                   & u4 & v4 & -> & L4 & ->).
    apply N.eqb_eq in P. subst x. cbn [app] in E1. rewrite app_nil_r in E1.
    apply (lang_wordi (js "mp") eq_refl) in L2. destruct L2 as (E2 & F2).
    apply lang_numeral in L4.
    assert (p = u2); [|subst u2; split; [|assumption]].
    - rewrite W in E1. clear - E1 Ep E2 Nd L4.
      unfold asciiLowerCase in *.
      destruct p as [|a [|b [|c p]]]; try discriminate Ep.
      destruct u2 as [|a' [|b' [|c' u2]]]; try discriminate E2.
      cbn in E1. now inversion E1.
    - intros ->. discriminate Ep. }
  destruct Lp as (Np & Lp).
  destruct (bounded_token mpPattern pre (matched m) post s' p [cdash] ds M R B
              eq_refl eq_refl W Np Lp Nd) as (B1 & B2).
  exists pre, p, ds, post. rewrite Nm, <- W. auto 7.
Qed.

Lemma mp_source_names_token_witness :
  exists pre p ds post,
    js "Get MP-1234 now" = pre ++ (p ++ cdash :: ds) ++ post /\
    asciiLowerCase p = js "mp" /\ isNumeral ds /\
    headIs isWordChar (rev pre) = false /\ headIs isWordChar post = false /\
    material_name (parseMaterialRequest asciiLowerCase (js "Get MP-1234 now"))
    = p ++ cdash :: ds.
Proof.
  apply (mp_source_names_token asciiLowerCase (js "Get MP-1234 now")). reflexivity.
Defined.

Lemma startsWith_app p t : startsWith p (p ++ t) = true.
Proof.
  induction p as [|c p IH]; cbn [startsWith app]; [reflexivity|].
  now rewrite N.eqb_refl, IH.
Qed.

Lemma search_anchored r : forall rst bef,
  bef <> [] -> search (Seq InputStart r) bef rst = None.
Proof.
  assert (Here : forall bef rst, bef <> [] ->
                 matchHere (Seq InputStart r) bef rst = None).
  { intros bef rst H. unfold matchHere. rewrite matcher_seq. cbn [matcher before].
    destruct bef; [contradiction | reflexivity]. }
  induction rst as [|c t IH]; intros bef H; cbn [search]; rewrite Here by assumption;
    [reflexivity|].
  apply IH. discriminate.
Qed.

(** Without a lower-case "cod" at its start a text keeps its prefix. *)
Lemma replaceEmpty_codPrefix_kept w :
  startsWith (js "cod") w = false -> replaceEmpty codPrefix w = w.
Proof.
  intros H. unfold replaceEmpty.
  assert (S : search codPrefix [] w = None); [|now rewrite S].
  assert (Here : matchHere codPrefix [] w = None).
  { destruct (matchHere codPrefix [] w) as [s'|] eqn:E; [|reflexivity].
    apply matcher_sound in E. destruct E as (z & M & _).
    destruct (matches_lang _ _ _ M) as (u & [R _] & L). cbn [rest] in R.
    unfold codPrefix, seqs in L. cbn [lang] in L.
    destruct L as (u1 & v1 & -> & -> & u2 & v2 & -> & L2 & _).
    apply lang_word in L2. subst u2. cbn [app] in R.
    rewrite R, <- app_assoc in H. now rewrite startsWith_app in H. }
  destruct w as [|c t]; cbn [search]; rewrite Here; [reflexivity|].
  unfold codPrefix, seqs. apply search_anchored. discriminate.
Qed.

(** A record with source type "cod" names a token of the text: "cod",
    in either case of the letters, an optional dash and digits, with no
    word character before or after it.  The name is the digits when
    the token starts with a lower-case "cod", and the whole token
    otherwise. *)
Theorem cod_source_names_token
    (toLowerCase : jsstring -> jsstring) (text : jsstring)
    (H : source_type (parseMaterialRequest toLowerCase text) = Some (js "cod")) :
  exists pre p sep ds post,
    text = pre ++ (p ++ sep ++ ds) ++ post /\
    asciiLowerCase p = js "cod" /\ (sep = [cdash] \/ sep = []) /\ isNumeral ds /\
    headIs isWordChar (rev pre) = false /\ headIs isWordChar post = false /\
    material_name (parseMaterialRequest toLowerCase text)
    = if startsWith (js "cod") p then ds else p ++ sep ++ ds.
Proof.
  destruct source_tags_distinct as (D1 & _ & _ & D4 & D5 & _).
  destruct (parse_source_cases toLowerCase text)
    as [S | (_ & [(m & _ & S & _) | [(m & _ & Cod & _ & Nm) | [(m & _ & _ & _ & S & _)
        | (_ & _ & _ & _ & S & _)]]])];
    rewrite S in H || idtac; try (inversion H; congruence).
  destruct (jsMatch_found _ _ _ Cod) as (pre & post & s' & E & _ & R & B & M).
  destruct (jsMatch_lang _ _ _ Cod) as (L & _).
  unfold codPattern, seqs in L. cbn [lang] in L.
  destruct L as (u1 & v1 & W & -> & p & v2 & -> & L2 & sep & v3 & -> & L3
                 & ds & v4 & -> & L4 & ->).
  cbn [app] in W. rewrite app_nil_r in W.
  apply (lang_wordi (js "cod") eq_refl) in L2. destruct L2 as (Ep & Lp).
  apply lang_numeral in L4. apply lang_opt_lit in L3.
  assert (Np : p <> []) by (intros ->; discriminate Ep).
  destruct (bounded_token codPattern pre (matched m) post s' p sep ds M R B
              eq_refl eq_refl W Np Lp L4) as (B1 & B2).
  exists pre, p, sep, ds, post. rewrite <- W.
  repeat (split; [assumption|]). rewrite Nm.
  assert (Len : exists a b c, p = [a; b; c]).
  { unfold asciiLowerCase in Ep.
    destruct p as [|a [|b [|c [|d p]]]]; try discriminate Ep. eauto. }
  destruct Len as (a & b & c & ->).
  destruct (startsWith (js "cod") [a; b; c]) eqn:SW.
  - assert (P : [a; b; c] = js "cod").
    { change (js "cod") with [99%N; 111%N; 100%N] in *. cbn [startsWith] in SW.
      apply andb_prop in SW. destruct SW as [A SW].
      apply andb_prop in SW. destruct SW as [B' SW].
      apply andb_prop in SW. destruct SW as [C _].
      apply N.eqb_eq in A, B', C. now subst. }
    rewrite W, P. now apply replaceEmpty_codPrefix.
  - apply replaceEmpty_codPrefix_kept. rewrite W.
    change (js "cod") with [99%N; 111%N; 100%N] in *.
    cbn [startsWith app] in *. exact SW.
Qed.

Lemma cod_source_names_token_witness :
  exists pre p sep ds post,
    js "Get COD-2000001" = pre ++ (p ++ sep ++ ds) ++ post /\
    asciiLowerCase p = js "cod" /\ (sep = [cdash] \/ sep = []) /\ isNumeral ds /\
    headIs isWordChar (rev pre) = false /\ headIs isWordChar post = false /\
    material_name (parseMaterialRequest asciiLowerCase (js "Get COD-2000001"))
    = if startsWith (js "cod") p then ds else p ++ sep ++ ds.
Proof.
  apply (cod_source_names_token asciiLowerCase (js "Get COD-2000001")). reflexivity.
Defined.

(** An upper-case prefix stays in the name. *)
Example upper_case_cod_kept :
  material_name (parseMaterialRequest asciiLowerCase (js "Get COD-2000001"))
  = js "COD-2000001".
Proof. vm_compute. reflexivity. Qed.

(** ** The last run of a pattern is taken whole *)

Section Greedy.

Variable k : mstate -> option mstate.
Hypothesis k_total : forall s, k s <> None.
Hypothesis k_rest : forall s x, k s = Some x -> rest x = rest s.

Lemma starLoop_total step s : forall fuel, starLoop step k fuel s <> None.
Proof.
  intros [|fuel]; cbn [starLoop]; [apply k_total|].
  destruct (step _ s); [discriminate | apply k_total].
Qed.

Lemma starLoop_maximal p : forall fuel s s',
  starLoop (matcher (Char p)) k fuel s = Some s' ->
  length (rest s) <= fuel -> headIs p (rest s') = false.
Proof.
  induction fuel as [|fuel IH]; intros s s' H L; cbn [starLoop] in H.
  - apply k_rest in H. rewrite H. destruct (rest s); [reflexivity | simpl in L; lia].
  - destruct (rest s) as [|c t] eqn:R.
    + rewrite char_stop in H by now rewrite R. apply k_rest in H. now rewrite H, R.
    + destruct (p c) eqn:P.
      * rewrite (char_step p _ s c t R P) in H. cbn [rest] in H.
        rewrite ?R in H.
        replace (Nat.ltb (length t) (length (c :: t))) with true in H
          by (symmetry; apply Nat.ltb_lt; simpl; lia).
        destruct (starLoop (matcher (Char p)) k fuel
                    (MState (c :: before s) t (caps s))) as [y|] eqn:E.
        -- inversion H; subst y. apply (IH _ _ E). cbn [rest]. simpl in L. lia.
        -- now apply starLoop_total in E.
      * rewrite char_stop in H by (rewrite R; exact P). apply k_rest in H.
        rewrite H, R. exact P.
Qed.

Lemma plus_maximal_k p s s' :
  matcher (Plus (Char p)) k s = Some s' -> headIs p (rest s') = false.
Proof.
  unfold Plus. rewrite matcher_seq. intros H.
  destruct (rest s) as [|c t] eqn:R; [now rewrite char_stop in H by now rewrite R|].
  destruct (p c) eqn:P; [|now rewrite char_stop in H by (rewrite R; exact P)].
  rewrite (char_step p _ s c t R P), matcher_star in H.
  apply starLoop_maximal in H; [assumption | apply le_n].
Qed.

End Greedy.

Lemma plus_maximal p s s' :
  matcher (Plus (Char p)) Some s = Some s' -> headIs p (rest s') = false.
Proof.
  apply plus_maximal_k; [discriminate|]. intros a x H. now inversion H.
Qed.

Lemma matcher_seq_sound r1 r2 k s x :
  matcher (Seq r1 r2) k s = Some x ->
  exists s1, matches r1 s s1 /\ matcher r2 k s1 = Some x.
Proof. rewrite matcher_seq. apply matcher_sound. Qed.

(** A record with source type "url" names a URL of the text:
    "http://" or "https://" and everything up to the next white space
    or the end of the text. *)
Theorem url_source_names_url
    (toLowerCase : jsstring -> jsstring) (text : jsstring)
    (H : source_type (parseMaterialRequest toLowerCase text) = Some (js "url")) :
  exists pre s u post,
    text = pre ++ (js "http" ++ s ++ js "://" ++ u) ++ post /\
    (s = js "s" \/ s = []) /\ u <> [] /\
    forallb (fun c => negb (isSpace c)) u = true /\
    headIs (fun c => negb (isSpace c)) post = false /\
    material_name (parseMaterialRequest toLowerCase text)
    = js "http" ++ s ++ js "://" ++ u.
Proof.
  destruct source_tags_distinct as (_ & D2 & _ & D4 & _ & D6).
  destruct (parse_source_cases toLowerCase text)
    as [S | (_ & [(m & _ & S & _) | [(m & _ & _ & S & _) | [(m & _ & _ & Url & _ & Nm)
        | (_ & _ & _ & _ & S & _)]]])];
    rewrite S in H || idtac; try (inversion H; congruence).
  destruct (jsMatch_found _ _ _ Url) as (pre & post & s' & E & F & R & _).
  destruct (jsMatch_lang _ _ _ Url) as (L & _).
  apply urlPattern_shape in L. destruct L as (s & u & W & Hs & Nu & Fu).
  exists pre, s, u, post. rewrite Nm, <- W.
  repeat (split; [assumption|]). split; [|reflexivity].
  unfold matchHere, urlPattern, seqs in F.
  apply matcher_seq_sound in F. destruct F as (s1 & _ & F).
  apply matcher_seq_sound in F. destruct F as (s2 & _ & F).
  apply matcher_seq_sound in F. destruct F as (s3 & _ & F).
  apply plus_maximal in F. now rewrite R in F.
Qed.

Lemma url_source_names_url_witness :
  exists pre s u post,
    js "Get https://example.com/a.cif now"
    = pre ++ (js "http" ++ s ++ js "://" ++ u) ++ post /\
    (s = js "s" \/ s = []) /\ u <> [] /\
    forallb (fun c => negb (isSpace c)) u = true /\
    headIs (fun c => negb (isSpace c)) post = false /\
    material_name (parseMaterialRequest asciiLowerCase
                     (js "Get https://example.com/a.cif now"))
    = js "http" ++ s ++ js "://" ++ u.
Proof.
  apply (url_source_names_url asciiLowerCase (js "Get https://example.com/a.cif now")).
  reflexivity.
Defined.

(** ** File sources *)

Lemma separator_found text :
  test separatorPattern text = true -> In cslash text \/ In cbackslash text.
Proof.
  intros T. apply test_lang in T. destruct T as (pre & w & post & E & c & -> & P).
  cbn in P. rewrite orb_false_r in P. apply orb_prop in P.
  destruct P as [P | P]; apply N.eqb_eq in P; subst c; [left | right];
    rewrite E; apply in_or_app; right; now left.
Qed.

Lemma extension_found text :
  test extensionPattern text = true ->
  exists stem ext, text = stem ++ cdot :: ext /\ In ext structureExtensions.
Proof.
  unfold test. destruct (jsMatch extensionPattern text) as [m|] eqn:J; [|discriminate].
  intros _. destruct (jsMatch_found _ _ _ J) as (pre & post & s' & E & F & R & _).
  destruct (jsMatch_lang _ _ _ J) as (L & _).
  unfold matchHere, extensionPattern, seqs in F, L.
  apply matcher_seq_sound in F. destruct F as (s1 & _ & F).
  apply matcher_seq_sound in F. destruct F as (s2 & _ & F).
  cbn [matcher] in F. destruct (rest s2) eqn:Z; cbn [isNil] in F; [|discriminate].
  inversion F; subst s'. rewrite Z in R. subst post.
  cbn [lang] in L. destruct L as (u1 & v1 & W & (x & -> & P) & u2 & v2 & -> & L2 & ->).
  apply N.eqb_eq in P. subst x. rewrite app_nil_r in W. cbn [app] in W.
  exists pre, u2. rewrite E, W, app_nil_r. split; [reflexivity|].
  unfold structureExtensions.
  destruct L2 as [L2 | [L2 | [L2 | L2]]]; apply lang_word in L2; subst u2; cbn; auto.
Qed.

(** A record with source type "file" is named by the whole trimmed
    text, and the text holds a slash, a backslash, or ends in a dot
    and one of the structure-file extensions. *)
Theorem file_source_names_text
    (toLowerCase : jsstring -> jsstring) (text : jsstring)
    (H : source_type (parseMaterialRequest toLowerCase text) = Some (js "file")) :
  material_name (parseMaterialRequest toLowerCase text) = trim text /\
  (In cslash text \/ In cbackslash text \/
   exists stem ext, text = stem ++ cdot :: ext /\ In ext structureExtensions).
Proof.
  destruct source_tags_distinct as (_ & _ & D3 & _ & D5 & D6).
  destruct (parse_source_cases toLowerCase text)
    as [S | (_ & [(m & _ & S & _) | [(m & _ & _ & S & _) | [(m & _ & _ & _ & S & _)
        | (_ & _ & _ & T & _ & Nm)]]])];
    rewrite S in H || idtac; try (inversion H; congruence).
  split; [exact Nm|].
  apply orb_prop in T. destruct T as [T | T].
  - apply separator_found in T. tauto.
  - right. right. now apply extension_found.
Qed.

Lemma file_source_names_text_witness :
  material_name (parseMaterialRequest asciiLowerCase (js "  run5.vasp"))
  = trim (js "  run5.vasp") /\
  (In cslash (js "  run5.vasp") \/ In cbackslash (js "  run5.vasp") \/
   exists stem ext, js "  run5.vasp" = stem ++ cdot :: ext /\
                    In ext structureExtensions).
Proof.
  apply (file_source_names_text asciiLowerCase (js "  run5.vasp")). reflexivity.
Defined.

(** ** What the source detectors cannot miss *)

Lemma matches_char p b c t cs :
  p c = true -> matches (Char p) (MState b (c :: t) cs) (MState (c :: b) t cs).
Proof. intros P. exact (MChar p (MState b (c :: t) cs) c t eq_refl P). Qed.

Lemma matches_star_run p : forall w b t cs,
  forallb p w = true ->
  matches (Star (Char p)) (MState b (w ++ t) cs) (MState (rev w ++ b) t cs).
Proof.
  induction w as [|c w IH]; intros b t cs F.
  - apply MStarStop.
  - cbn [forallb] in F. apply andb_prop in F. destruct F as [P F].
    cbn [rev app]. rewrite <- app_assoc. cbn [app].
    apply (MStarStep _ _ (MState (c :: b) (w ++ t) cs)).
    + now apply matches_char.
    + cbn [rest]. simpl. lia.
    + now apply IH.
Qed.

Lemma matches_plus_run p w b t cs :
  w <> [] -> forallb p w = true ->
  matches (Plus (Char p)) (MState b (w ++ t) cs) (MState (rev w ++ b) t cs).
Proof.
  destruct w as [|c w]; [congruence|]. intros _ F.
  cbn [forallb] in F. apply andb_prop in F. destruct F as [P F].
  cbn [rev app]. rewrite <- app_assoc. cbn [app].
  apply (MSeq _ _ _ (MState (c :: b) (w ++ t) cs)).
  - now apply matches_char.
  - now apply matches_star_run.
Qed.

Lemma liti_accepts c x :
  isLower c = true -> lowerUnit x = c ->
  (x =? lowerUnit c)%N || (x =? upperUnit c)%N = true.
Proof.
  intros L E. unfold lowerUnit, upperUnit in *.
  assert (U : isUpper c = false) by chars. rewrite U, L.
  destruct (isUpper x) eqn:Ux.
  - apply orb_true_iff. right. apply N.eqb_eq. lia.
  - apply orb_true_iff. left. now apply N.eqb_eq.
Qed.

Lemma matches_wordi : forall w u b t cs,
  forallb isLower w = true -> asciiLowerCase u = w ->
  matches (wordi w) (MState b (u ++ t) cs) (MState (rev u ++ b) t cs).
Proof.
  induction w as [|c w IH]; intros u b t cs F E.
  - destruct u; [apply MEmpty | discriminate].
  - destruct u as [|x u]; [discriminate|]. cbn in E. injection E as Ex Eu.
    cbn [forallb] in F. apply andb_prop in F. destruct F as [Lc F].
    assert (A : matches (liti (lowerUnit x)) (MState b ((x :: u) ++ t) cs)
                        (MState (x :: b) (u ++ t) cs)).
    { apply matches_char. apply liti_accepts; [now rewrite Ex | now rewrite Ex]. }
    rewrite Ex in A. cbn [rev]. rewrite <- app_assoc. cbn [app].
    destruct w as [|d w].
    + destruct u; [|discriminate]. exact A.
    + fold (asciiLowerCase u) in Eu.
      change (wordi (c :: d :: w)) with (Seq (liti c) (wordi (d :: w))).
      apply (MSeq _ _ _ (MState (x :: b) (u ++ t) cs)); [exact A|].
      apply IH; [exact F | exact Eu].
Qed.

Lemma letter_first p t :
  p <> [] -> forallb isLetter p = true -> headIs isWordChar (p ++ t) = true.
Proof.
  destruct p as [|c p]; [congruence|]. intros _ F. cbn in *.
  apply andb_prop in F. destruct F as [L _]. now apply letter_wordChar.
Qed.

(** A text without dictionary key in which "mp", in either case of the
    letters, a dash and digits stand with no word character before or
    after them gets source type "mp". *)
Theorem standalone_mp_token_detected
    (toLowerCase : jsstring -> jsstring) (pre p ds post : jsstring)
    (Hd : dictionaryHit (toLowerCase (pre ++ (p ++ cdash :: ds) ++ post)) = None)
    (Hp : asciiLowerCase p = js "mp") (Hn : isNumeral ds)
    (Hb : headIs isWordChar (rev pre) = false)
    (Ha : headIs isWordChar post = false) :
  source_type (parseMaterialRequest toLowerCase (pre ++ (p ++ cdash :: ds) ++ post))
  = Some (js "mp").
Proof.
  destruct Hn as [Nd Fd].
  assert (Lp : forallb isLetter p = true /\ p <> []).
  { destruct p as [|a [|b [|c p]]]; try discriminate.
    cbn in Hp. inversion Hp as [[Ea Eb]]. split; [|discriminate].
    cbn [forallb]. rewrite andb_true_r. apply andb_true_iff.
    unfold lowerUnit in Ea, Eb.
    split; [destruct (isUpper a) eqn:U | destruct (isUpper b) eqn:U]; chars. }
  destruct Lp as [Lp Np].
  set (text := pre ++ (p ++ cdash :: ds) ++ post) in *.
  assert (M : exists s', matches mpPattern
                (MState (rev pre) ((p ++ cdash :: ds) ++ post) []) s').
  { exists (MState (rev ds ++ cdash :: rev p ++ rev pre) post []).
    unfold mpPattern, seqs.
    apply (MSeq _ _ _ (MState (rev pre) ((p ++ cdash :: ds) ++ post) [])).
    { apply MWordBoundary. unfold atWordBoundary. cbn [before rest].
      rewrite Hb, <- app_assoc, (letter_first p _ Np Lp). reflexivity. }
    rewrite <- app_assoc.
    apply (MSeq _ _ _ (MState (rev p ++ rev pre) ((cdash :: ds) ++ post) [])).
    { now apply (matches_wordi (js "mp")). }
    cbn [app].
    apply (MSeq _ _ _ (MState (cdash :: rev p ++ rev pre) (ds ++ post) [])).
    { apply matches_char. apply N.eqb_refl. }
    apply (MSeq _ _ _ (MState (rev ds ++ cdash :: rev p ++ rev pre) post [])).
    { now apply matches_plus_run. }
    apply MWordBoundary. unfold atWordBoundary. cbn [before rest].
    rewrite Ha, (headIs_rev_last isWordChar ds _ Nd); [reflexivity|].
    rewrite forallb_forall in *. intros c I. apply digit_wordChar. now apply Fd. }
  destruct M as (s' & M). apply jsMatch_complete in M. destruct M as (m & M).
  fold text in M. rewrite (parse_no_hit _ _ Hd). unfold sourceStage. now rewrite M.
Qed.

Lemma standalone_mp_token_detected_witness :
  source_type (parseMaterialRequest asciiLowerCase
                 (js "use " ++ (js "Mp" ++ cdash :: js "149") ++ js ", please"))
  = Some (js "mp").
Proof.
  apply (standalone_mp_token_detected asciiLowerCase
           (js "use ") (js "Mp") (js "149") (js ", please")).
  - reflexivity.
  - reflexivity.
  - split; [discriminate | reflexivity].
  - reflexivity.
  - reflexivity.
Defined.

Lemma separator_test text :
  In cslash text \/ In cbackslash text -> test separatorPattern text = true.
Proof.
  intros H.
  assert (S : exists pre c post, text = pre ++ c :: post /\
                existsb (N.eqb c) [cslash; cbackslash] = true).
  { destruct H as [H | H]; apply in_split in H; destruct H as (pre & post & E);
      eexists pre, _, post; (split; [exact E | reflexivity]). }
  destruct S as (pre & c & post & E & P).
  destruct (jsMatch_complete separatorPattern pre (c :: post)
              (MState (c :: rev pre) post [])) as (m & J).
  - unfold separatorPattern, oneOf. now apply matches_char.
  - unfold test. now rewrite E, J.
Qed.

(** A text with a slash or a backslash and no dictionary key always
    gets a source type: "mp", "cod", "url" or "file". *)
Theorem path_separator_sets_source
    (toLowerCase : jsstring -> jsstring) (text : jsstring)
    (Hd : dictionaryHit (toLowerCase text) = None)
    (Hs : In cslash text \/ In cbackslash text) :
  exists tag,
    source_type (parseMaterialRequest toLowerCase text) = Some tag /\
    In tag [js "mp"; js "cod"; js "url"; js "file"].
Proof.
  apply separator_test in Hs.
  destruct (parse_source_cases toLowerCase text)
    as [S | (_ & [(m & _ & S & _) | [(m & _ & _ & S & _) | [(m & _ & _ & _ & S & _)
        | (_ & _ & _ & _ & S & _)]]])].
  - exfalso. rewrite (parse_no_hit _ _ Hd) in S.
    destruct (sourceStage_cases text _ (before_sourceStage toLowerCase text))
      as [(m & _ & A & _) | [(m & _ & _ & A & _) | [(m & _ & _ & _ & A & _)
          | [(_ & _ & _ & _ & A & _) | (_ & _ & _ & T & _)]]]];
      try (rewrite A in S; discriminate).
    rewrite Hs in T. discriminate.
  - exists (js "mp"). split; [exact S | cbn; auto].
  - exists (js "cod"). split; [exact S | cbn; auto].
  - exists (js "url"). split; [exact S | cbn; auto].
  - exists (js "file"). split; [exact S | cbn; auto].
Qed.

Lemma path_separator_sets_source_witness :
  exists tag,
    source_type (parseMaterialRequest asciiLowerCase (js "data/run.txt")) = Some tag /\
    In tag [js "mp"; js "cod"; js "url"; js "file"].
Proof.
  apply (path_separator_sets_source asciiLowerCase (js "data/run.txt")).
  - reflexivity.
  - left. vm_compute. do 4 right. left. reflexivity.
Defined.

(** ** The lattice parameter *)

Lemma parse_lattice_parameter lc text :
  lattice_parameter (parseMaterialRequest lc text) =
  option_map (parseFloatGroup 1) (firstMatch latticePatterns (lc text)).
Proof.
  unfold parseMaterialRequest.
  set (r3 := latticeStage _ (structureStage _ (supercellStage _ _))).
  assert (E : lattice_parameter r3 =
              option_map (parseFloatGroup 1) (firstMatch latticePatterns (lc text))).
  { unfold r3, latticeStage, structureStage, supercellStage.
    destruct (firstMatch latticePatterns _); destruct (matchingTag _);
      destruct (firstMatch supercellPatterns _); reflexivity. }
  rewrite <- E. destruct (dictionaryHit _).
  - apply applyEntry_frame.
  - destruct (sourceStage_frame text
                (elementStage lc text (lc text) (formulaStage lc text r3)))
      as (_ & _ & -> & _).
    destruct (elementStage_frame lc text (lc text) (formulaStage lc text r3))
      as (_ & _ & -> & _).
    apply formulaStage_frame.
Qed.

(** Where the third lattice pattern matches, the first does too. *)
Lemma third_lattice_pattern_shadowed str :
  jsMatch (nth 0 latticePatterns Empty) str = None ->
  jsMatch (nth 2 latticePatterns Empty) str = None.
Proof.
  intros H1. destruct (jsMatch (nth 2 latticePatterns Empty) str) as [m|] eqn:H3;
    [exfalso | reflexivity].
  destruct (jsMatch_found _ _ _ H3) as (pre & post & s' & E & _ & _ & _ & M).
  cbn [nth latticePatterns seqs] in M, H1.
  inversion M as [| |r1 r2 a b c M1 M2| | | | | | | |]; subst.
  inversion M1 as [|q a x t R P| | | | | | | | |]; subst.
  assert (M' : matches (oneOf (js "al")) (MState (rev pre) (matched m ++ post) [])
                 (advance (MState (rev pre) (matched m ++ post) []))).
  { apply (MChar _ _ x t R). apply N.eqb_eq in P. subst x. reflexivity. }
  pose proof (MSeq _ _ _ _ _ M' M2) as M3.
  apply jsMatch_complete in M3. destruct M3 as (m' & M3). congruence.
Qed.

(** The lattice parameter is decided by the first two lattice patterns
    alone: the third, [a = number], never gets its turn, because the
    first already accepts every text it accepts. *)
Theorem third_lattice_pattern_dead
    (toLowerCase : jsstring -> jsstring) (text : jsstring) :
  lattice_parameter (parseMaterialRequest toLowerCase text) =
  option_map (parseFloatGroup 1)
    (firstMatch (firstn 2 latticePatterns) (toLowerCase text)).
Proof.
  rewrite parse_lattice_parameter. f_equal.
  pose proof (third_lattice_pattern_shadowed (toLowerCase text)) as D.
  set (tl := toLowerCase text) in *.
  change (firstMatch latticePatterns tl)
    with (match jsMatch (nth 0 latticePatterns Empty) tl with
          | Some m => Some m
          | None => match jsMatch (nth 1 latticePatterns Empty) tl with
                    | Some m => Some m
                    | None => match jsMatch (nth 2 latticePatterns Empty) tl with
                              | Some m => Some m
                              | None => None
                              end
                    end
          end).
  change (firstMatch (firstn 2 latticePatterns) tl)
    with (match jsMatch (nth 0 latticePatterns Empty) tl with
          | Some m => Some m
          | None => match jsMatch (nth 1 latticePatterns Empty) tl with
                    | Some m => Some m
                    | None => None
                    end
          end).
  destruct (jsMatch (nth 0 latticePatterns Empty) tl) as [m1|]; [reflexivity|].
  destruct (jsMatch (nth 1 latticePatterns Empty) tl) as [m2|]; [reflexivity|].
  now rewrite D.
Qed.

Lemma prefix_then_numeral r s s' :
  groupFree r = true -> caps s = [] ->
  matcher (Seq r (Group 1 numeral)) Some s = Some s' ->
  exists u w, rest s = u ++ w ++ rest s' /\ lang r u /\
              w <> [] /\ forallb isDecimalChar w = true /\
              caps s' = [(1, w)] /\ headIs isDecimalChar (rest s') = false.
Proof.
  intros G C H. pose proof H as H'.
  apply matcher_seq_sound in H. destruct H as (s1 & M1 & H).
  destruct (matches_plain _ _ _ G M1) as (u & (R1 & _) & L1 & C1).
  pose proof H as Hm. apply matcher_sound in H. destruct H as (z & M2 & Z).
  inversion Z; subst z. clear Z.
  apply matches_group in M2; [|reflexivity].
  destruct M2 as (w & (R2 & _) & L2 & C2).
  apply lang_plus_char in L2. destruct L2 as [Nw Fw].
  exists u, w. rewrite R1, R2, C2, C1, C. repeat (split; [auto; fail|]).
  rewrite matcher_group in Hm. unfold numeral in Hm.
  apply plus_maximal_k in Hm; [exact Hm | discriminate |].
  intros a x K. inversion K. reflexivity.
Qed.

Lemma jsMatch_found_groups r str m :
  jsMatch r str = Some m ->
  exists pre post s',
    str = pre ++ matched m ++ post /\
    matchHere r (rev pre) (matched m ++ post) = Some s' /\
    rest s' = post /\ groups m = caps s'.
Proof.
  unfold jsMatch. intros H.
  destruct (search r [] str) as [[s s']|] eqn:E; [|discriminate].
  inversion H; subst m. clear H. cbn [matched groups].
  apply search_found in E. destruct E as (pre & E1 & E2 & F).
  rewrite app_nil_r in *.
  pose proof F as F'. apply matcher_sound in F'. destruct F' as (z & M & K).
  inversion K; subst z. clear K.
  destruct (matches_lang _ _ _ M) as (w & R & _).
  assert (B : between s s' = w).
  { apply between_reads. rewrite E2. exact R. }
  destruct R as [R1 R2]. cbn [rest before] in R1, R2.
  exists pre, (rest s'), s'. rewrite B, <- R1.
  repeat split; auto; now rewrite E1.
Qed.

Lemma lattice_match r str m :
  groupFree r = true ->
  jsMatch (Seq r (Group 1 numeral)) str = Some m ->
  exists pre w post, str = pre ++ w ++ post /\
    w <> [] /\ forallb isDecimalChar w = true /\
    headIs isDecimalChar post = false /\ group 1 m = Some w.
Proof.
  intros G J. apply jsMatch_found_groups in J.
  destruct J as (pre & post & s' & Es & F & R & Gm).
  unfold matchHere in F. apply prefix_then_numeral in F; [|exact G|reflexivity].
  destruct F as (u & w & Rs & _ & Nw & Fw & Cw & Mx).
  cbn [rest] in Rs. rewrite R in Rs, Mx.
  exists (pre ++ u), w, post. rewrite Es, Rs, <- app_assoc.
  repeat (split; [auto; fail|]).
  unfold group. now rewrite Gm, Cw.
Qed.

Lemma jsMatch_reassoc r1 r2 str :
  (forall k s, matcher r1 k s = matcher r2 k s) -> jsMatch r1 str = jsMatch r2 str.
Proof.
  intros H. unfold jsMatch.
  assert (S : forall rst bef, search r1 bef rst = search r2 bef rst).
  { induction rst as [|c t IH]; intros bef; cbn [search]; unfold matchHere;
      rewrite H; [reflexivity|]. now rewrite IH. }
  now rewrite S.
Qed.

Lemma firstMatch_lattice str m :
  firstMatch latticePatterns str = Some m ->
  exists pre w post, str = pre ++ w ++ post /\
    w <> [] /\ forallb isDecimalChar w = true /\
    headIs isDecimalChar post = false /\ group 1 m = Some w.
Proof.
  unfold latticePatterns, firstMatch, seqs. intros H.
  repeat match type of H with
         | match jsMatch ?p str with _ => _ end = _ =>
             destruct (jsMatch p str) as [m'|] eqn:E;
             [ inversion H; subst m'; clear H | clear E ]
         end; try discriminate.
  - rewrite (jsMatch_reassoc _
               (Seq (seqs [oneOf (js "al"); Star space; lit cequal; Star space])
                    (Group 1 numeral))) in E by reflexivity.
    apply lattice_match in E; [exact E | reflexivity].
  - rewrite (jsMatch_reassoc _
               (Seq (seqs [word (js "lattice"); Star space;
                           Opt (Alt (word (js "parameter")) (word (js "constant")));
                           Star space; Opt (oneOf [ccolon; cequal]); Star space])
                    (Group 1 numeral))) in E by reflexivity.
    apply lattice_match in E; [exact E | reflexivity].
  - rewrite (jsMatch_reassoc _
               (Seq (seqs [lit 97%N; Star space; lit cequal; Star space])
                    (Group 1 numeral))) in E by reflexivity.
    apply lattice_match in E; [exact E | reflexivity].
Qed.

Lemma parseFloat_NaN w :
  forallb isDecimalChar w = true ->
  (parseFloat w = FNaN <-> existsb isDigit (firstn 2 w) = false).
Proof.
  destruct w as [|a w]; [intros _; split; reflexivity|].
  cbn [forallb]. intros F. apply andb_prop in F. destruct F as [Fa F].
  unfold parseFloat. cbn [takeDigits firstn existsb].
  destruct (isDigit a) eqn:Da.
  - cbn. split; discriminate.
  - unfold isDecimalChar in Fa. rewrite Da in Fa. cbn [orb] in Fa.
    apply N.eqb_eq in Fa. subst a. cbn [length skipn app orb].
    change (cdot =? 46)%N with true. cbv iota.
    destruct w as [|b w]; [split; reflexivity|].
    cbn [takeDigits firstn existsb]. destruct (isDigit b); cbn; split;
      reflexivity || discriminate.
Qed.

(** A lattice parameter is read, by [parseFloat], from a run of digits
    and dots of the case-folded text that no digit or dot follows; it
    is NaN exactly when neither of the first two characters of the run
    is a digit. *)
Theorem lattice_parameter_from_run
    (toLowerCase : jsstring -> jsstring) (text : jsstring) (f : float)
    (H : lattice_parameter (parseMaterialRequest toLowerCase text) = Some f) :
  exists pre w post,
    toLowerCase text = pre ++ w ++ post /\
    w <> [] /\ forallb isDecimalChar w = true /\
    headIs isDecimalChar post = false /\
    f = parseFloat w /\
    (f = FNaN <-> existsb isDigit (firstn 2 w) = false).
Proof.
  rewrite parse_lattice_parameter in H.
  destruct (firstMatch latticePatterns (toLowerCase text)) as [m|] eqn:E;
    [|discriminate].
  cbn [option_map] in H. inversion H as [Hf]. clear H.
  destruct (firstMatch_lattice _ _ E) as (pre & w & post & Es & Nw & Fw & Mx & Gw).
  exists pre, w, post. subst f. unfold parseFloatGroup. rewrite Gw.
  do 4 (split; [assumption|]). split; [reflexivity|].
  now apply parseFloat_NaN.
Qed.

Lemma lattice_parameter_from_run_witness :
  exists pre w post,
    asciiLowerCase (js "Si with a = 5.43.1 A") = pre ++ w ++ post /\
    w <> [] /\ forallb isDecimalChar w = true /\
    headIs isDecimalChar post = false /\
    FDec 543 2 = parseFloat w /\
    (FDec 543 2 = FNaN <-> existsb isDigit (firstn 2 w) = false).
Proof.
  apply (lattice_parameter_from_run asciiLowerCase (js "Si with a = 5.43.1 A")).
  reflexivity.
Defined.

Example lattice_parameter_NaN :
  lattice_parameter (parseMaterialRequest asciiLowerCase (js "Al, a = .")) = Some FNaN.
Proof. reflexivity. Qed.

(** ** The callers *)

Lemma dropSpaces_nil s : dropSpaces s = [] <-> forallb isSpace s = true.
Proof.
  induction s as [|c s IH]; cbn [dropSpaces forallb]; [tauto|].
  destruct (isSpace c); cbn [andb]; [exact IH | split; discriminate].
Qed.

Lemma forallb_rev {A} (p : A -> bool) l : forallb p (rev l) = forallb p l.
Proof.
  destruct (forallb p l) eqn:E.
  - rewrite forallb_forall in *. intros x I. apply E. now apply in_rev.
  - destruct (forallb p (rev l)) eqn:E'; [|reflexivity].
    rewrite <- E. symmetry. rewrite forallb_forall in *.
    intros x I. apply E'. now apply in_rev in I.
Qed.

(** [trim] leaves nothing exactly of the texts that are all white space. *)
Lemma trim_nil s : trim s = [] <-> forallb isSpace s = true.
Proof.
  unfold trim. split.
  - intros H. apply (f_equal (@rev _)) in H. rewrite rev_involutive in H.
    cbn [rev] in H. apply dropSpaces_nil in H. rewrite forallb_rev in H.
    destruct (dropSpaces_spec s) as (ws & E & F & Hd).
    destruct (dropSpaces s) as [|c t].
    + rewrite app_nil_r in E. now subst.
    + cbn in H, Hd. rewrite Hd in H. discriminate.
  - intros H. apply dropSpaces_nil in H. rewrite H. reflexivity.
Qed.

Lemma digitsOf_value : forall fuel z acc,
  (0 <= z < 10 ^ Z.of_nat fuel)%Z ->
  fold_left (fun a c => (10 * a + digitValue c)%Z) (digitsOf fuel z acc) 0%Z
  = fold_left (fun a c => (10 * a + digitValue c)%Z) acc z.
Proof.
  induction fuel as [|fuel IH]; intros z acc Hz.
  - cbn [digitsOf]. change (10 ^ Z.of_nat 0)%Z with 1%Z in Hz.
    replace z with 0%Z by lia. reflexivity.
  - cbn [digitsOf].
    assert (D : digitValue (48 + Z.to_N (z mod 10)) = (z mod 10)%Z).
    { unfold digitValue. pose proof (Z.mod_pos_bound z 10 eq_refl). lia. }
    destruct (z <? 10)%Z eqn:L.
    + apply Z.ltb_lt in L. cbn [fold_left]. rewrite D.
      rewrite Z.mod_small by lia. reflexivity.
    + apply Z.ltb_ge in L. rewrite IH.
      * cbn [fold_left]. rewrite D. f_equal.
        pose proof (Z.div_mod z 10). lia.
      * rewrite Nat2Z.inj_succ, Z.pow_succ_r in Hz by lia.
        split; [apply Z.div_pos; lia|].
        apply Z.div_lt_upper_bound; lia.
Qed.

Lemma digitsOf_digits : forall fuel z acc,
  forallb isDigit acc = true -> forallb isDigit (digitsOf fuel z acc) = true.
Proof.
  induction fuel as [|fuel IH]; intros z acc F; cbn [digitsOf]; [exact F|].
  assert (D : forallb isDigit ((48 + Z.to_N (z mod 10))%N :: acc) = true).
  { cbn [forallb]. rewrite F, andb_true_r.
    pose proof (Z.mod_pos_bound z 10 eq_refl). chars. }
  destruct (z <? 10)%Z; [exact D | now apply IH].
Qed.

Lemma digitsOf_longer : forall fuel z acc,
  length acc <= length (digitsOf fuel z acc).
Proof.
  induction fuel as [|fuel IH]; intros z acc; cbn [digitsOf]; [apply le_n|].
  destruct (z <? 10)%Z; [simpl; lia|].
  etransitivity; [|apply IH]. simpl. lia.
Qed.

Lemma decimalDigits_numeral z : isNumeral (decimalDigits z).
Proof.
  unfold decimalDigits. split; [|now apply digitsOf_digits].
  cbn [digitsOf]. intros E.
  destruct (z <? 10)%Z; [discriminate|].
  pose proof (digitsOf_longer (Z.to_nat (Z.log2 z)) (z / 10)
                [(48 + Z.to_N (z mod 10))%N]) as L.
  rewrite E in L. simpl in L. lia.
Qed.

Lemma decimalDigits_value z : (0 <= z)%Z -> decimalValue (decimalDigits z) = z.
Proof.
  intros Hz. unfold decimalValue, decimalDigits. rewrite digitsOf_value; [reflexivity|].
  split; [exact Hz|].
  rewrite Nat2Z.inj_succ, Z2Nat.id by apply Z.log2_nonneg.
  destruct (Z.eq_dec z 0) as [->|Nz]; [reflexivity|].
  apply Z.lt_le_trans with (2 ^ Z.succ (Z.log2 z))%Z.
  - apply Z.log2_spec. lia.
  - apply Z.pow_le_mono_l. lia.
Qed.

(** The digits of an integer below 2^53 read back as that integer. *)
Lemma parseInt_decimalDigits z :
  (0 <= z < 2 ^ 53)%Z -> parseInt (decimalDigits z) = Fin z.
Proof.
  intros Hz. rewrite parseInt_exact.
  - now rewrite decimalDigits_value.
  - apply decimalDigits_numeral.
  - rewrite decimalDigits_value; lia.
Qed.

Lemma parse_dims_nonNegative lc text :
  exists a b c,
    supercell_dims (parseMaterialRequest lc text) = [a; b; c] /\
    nonNegative a /\ nonNegative b /\ nonNegative c.
Proof.
  rewrite parse_supercell_dims.
  destruct (supercellStage_dims (lc text) defaults) as [(m & F & E)|(F & E)]; rewrite E.
  - apply firstMatch_supercell in F.
    destruct F as (a & b & c & G1 & G2 & G3 & N1 & N2 & N3).
    unfold parseIntGroup, group. rewrite G1, G2, G3.
    do 3 eexists. split; [reflexivity|].
    repeat split; now apply parseInt_nonNegative.
  - exists (Fin 1), (Fin 1), (Fin 1). simpl. repeat split; lia.
Qed.

Lemma parse_structure_type_nonempty lc text t :
  structure_type (parseMaterialRequest lc text) = Some t -> t <> [].
Proof.
  intros H.
  destruct (structure_type_stages lc text) as [E | (v & st & Hit & St & E)].
  - rewrite E in H. unfold structureStage in H.
    assert (D : structure_type (supercellStage (lc text) defaults) = None)
      by (unfold supercellStage; destruct (firstMatch _ _); reflexivity).
    destruct (matchingTag (lc text)) as [tag|] eqn:T; [|rewrite D in H; discriminate].
    cbn in H. inversion H; subst tag. unfold matchingTag in T.
    destruct (find _ structureKeywords) as [e|] eqn:F; [|discriminate].
    inversion T; subst t. apply find_some in F. destruct F as [I _].
    assert (A : forallb (fun e => truthy (fst e)) structureKeywords = true)
      by (vm_compute; reflexivity).
    rewrite forallb_forall in A. apply A in I. now destruct (fst e).
  - rewrite E in H. inversion H; subst st.
    destruct (dictionaryHit_In _ _ Hit) as (key & I & _).
    pose proof compoundMap_overrides as T. rewrite forallb_forall in T.
    apply T in I. cbn [snd] in I. rewrite St in I.
    apply andb_prop in I. destruct I as [I _].
    apply andb_prop in I. destruct I as [I _].
    apply jsstring_eqb_eq in I. subst t. discriminate.
Qed.

Lemma parse_source_type_nonempty lc text t :
  source_type (parseMaterialRequest lc text) = Some t -> t <> [].
Proof.
  intros H.
  destruct (parse_source_cases lc text)
    as [S | (_ & [(m & _ & S & _) | [(m & _ & _ & S & _) | [(m & _ & _ & _ & S & _)
        | (_ & _ & _ & _ & S & _)]]])];
    rewrite S in H; inversion H; discriminate.
Qed.

Lemma parse_name_truthy lc text :
  truthy (material_name (parseMaterialRequest lc text)) = true.
Proof.
  destruct (material_name (parseMaterialRequest lc text)) eqn:E; [|reflexivity].
  exfalso. revert E.
  destruct (parameterStages_fields (lc text)) as (Pn & Pc & _).
  destruct (dictionaryHit (lc text)) as [v|] eqn:Hit.
  - destruct (parse_compound_hit _ _ _ Hit) as (-> & _).
    destruct (dictionaryHit_In _ _ Hit) as (key & I & _).
    pose proof compoundMap_nonempty as T. rewrite forallb_forall in T.
    apply T in I. cbn [snd] in I. destruct (name v); discriminate.
  - rewrite (parse_no_hit _ _ Hit).
    set (rf := formulaStage lc text (parameterStages (lc text))).
    assert (Nf : material_name rf <> []).
    { unfold rf, formulaStage. rewrite Pc.
      destruct (formulaLoop_name_from lc (matchAll compoundPattern text)
                  (parameterStages (lc text))) as [E | I].
      - rewrite E, Pn. discriminate.
      - now apply lang_compoundPattern_nonempty, (matchAll_sound _ text). }
    pose proof (elementStage_nonempty lc text (lc text) rf Nf) as Ne.
    destruct (sourceStage_marked text (elementStage lc text (lc text) rf))
      as [-> | (c & I & _)]; [exact Ne|].
    intros E. rewrite E in I. destruct I.
Qed.

Lemma stringOrNull_keeps x :
  (forall s, x = Some s -> s <> []) -> stringOrNull x = x.
Proof.
  destruct x as [[|c s]|]; intros H; cbn; try reflexivity.
  now destruct (H [] eq_refl).
Qed.

(** Nothing is sent exactly when the text is blank: empty, or white
    space only. *)
Theorem blank_text_never_sent
    (toLowerCase : jsstring -> jsstring) (numberToString : number -> jsstring)
    (text agent : jsstring) :
  onSend toLowerCase numberToString text agent = None
  <-> forallb isSpace text = true.
Proof.
  unfold onSend, truthy. rewrite <- trim_nil.
  destruct (trim text); cbn; split; congruence.
Qed.

(** The body of the request carries the identity that the interpreter
    found, unchanged: none of the fallbacks of [sendCalculationRequest]
    (the name "Si" for an empty name, [null] for an empty structure or
    source type) ever applies to a record of [parseMaterialRequest];
    and it carries the text as the user typed it. *)
Theorem request_body_keeps_record
    (toLowerCase : jsstring -> jsstring) (numberToString : number -> jsstring)
    (text agent : jsstring) (body : Backend.Payload)
    (H : onSend toLowerCase numberToString text agent = Some body) :
  let parsed := parseMaterialRequest toLowerCase text in
  let details := Backend.structure_details body in
  Backend.material_name body = material_name parsed /\
  Backend.user_input body = text /\
  Backend.structure_type details = structure_type parsed /\
  Backend.compound details = compound parsed /\
  Backend.source_type details = source_type parsed.
Proof.
  intros parsed details. unfold onSend in H.
  destruct (truthy (trim text)) eqn:T; [|discriminate].
  inversion H; subst body. clear H. unfold details, payload.
  cbn [Backend.material_name Backend.user_input Backend.structure_details
       Backend.structure_type Backend.compound Backend.source_type].
  fold parsed. split; [|split; [|split; [|split]]].
  - unfold parsed. now rewrite parse_name_truthy.
  - destruct text; [discriminate | reflexivity].
  - apply stringOrNull_keeps. intros s. apply parse_structure_type_nonempty.
  - destruct (compound parsed); cbn [option_map]; [|reflexivity].
    now rewrite map_id.
  - apply stringOrNull_keeps. intros s. apply parse_source_type_nonempty.
Qed.

Lemma request_body_keeps_record_witness :
  let body := payload exactToString
                (parseMaterialRequest asciiLowerCase (js "quartz from mp-7000"))
                true (Some (js "ollama")) (js "quartz from mp-7000") in
  Backend.material_name body = js "SiO2" /\
  Backend.user_input body = js "quartz from mp-7000" /\
  Backend.structure_type (Backend.structure_details body) = Some (js "quartz") /\
  Backend.compound (Backend.structure_details body) = Some [js "Si"; js "O"] /\
  Backend.source_type (Backend.structure_details body) = None.
Proof.
  apply (request_body_keeps_record asciiLowerCase exactToString
           (js "quartz from mp-7000") (js "ollama")).
  reflexivity.
Defined.

(** The three components of the supercell go through Number::toString
    and [parseInt] on their way into the body: a component below 2^53
    arrives unchanged, and Infinity (a numeral past the range of the
    Numbers) arrives as NaN. *)
Theorem request_body_dims
    (toLowerCase : jsstring -> jsstring) (numberToString : number -> jsstring)
    (text agent : jsstring) (body : Backend.Payload)
    (Hinf : numberToString PosInf = js "Infinity")
    (Hsafe : forall z, (0 <= z < 2 ^ 53)%Z ->
                       numberToString (Fin z) = decimalDigits z)
    (H : onSend toLowerCase numberToString text agent = Some body) :
  exists a b c a' b' c',
    supercell_dims (parseMaterialRequest toLowerCase text) = [a; b; c] /\
    Backend.supercell_dims (Backend.structure_details body) = [a'; b'; c'] /\
    sentAs a a' /\ sentAs b b' /\ sentAs c c'.
Proof.
  unfold onSend in H. destruct (truthy (trim text)); [|discriminate].
  inversion H; subst body. clear H.
  destruct (parse_dims_nonNegative toLowerCase text) as (a & b & c & E & Na & Nb & Nc).
  assert (S : forall x, nonNegative x -> sentAs x (parseInt (numberToString x))).
  { intros [|z|] Nx; cbn in *; [contradiction| |now rewrite Hinf].
    intros L. rewrite Hsafe by lia. apply parseInt_decimalDigits. lia. }
  exists a, b, c. do 3 eexists. split; [exact E|].
  unfold payload. cbn [Backend.structure_details Backend.supercell_dims].
  rewrite E. cbn [map]. split; [reflexivity|]. auto.
Qed.

Lemma request_body_dims_witness :
  exists a b c a' b' c',
    supercell_dims (parseMaterialRequest asciiLowerCase (js "Cu 2x3x4")) = [a; b; c] /\
    Backend.supercell_dims
      (Backend.structure_details
         (payload exactToString (parseMaterialRequest asciiLowerCase (js "Cu 2x3x4"))
            false None (js "Cu 2x3x4"))) = [a'; b'; c'] /\
    sentAs a a' /\ sentAs b b' /\ sentAs c c'.
Proof.
  apply (request_body_dims asciiLowerCase exactToString (js "Cu 2x3x4") (js "Agent")).
  - reflexivity.
  - intros z Hz. reflexivity.
  - reflexivity.
Defined.

Lemma llmModel_known a m :
  llmModel a = Some m -> In a [js "openai"; js "anthropic"; js "ollama"].
Proof.
  unfold llmModel.
  destruct (jsstring_eqb a (js "openai")) eqn:E1;
    [apply jsstring_eqb_eq in E1; subst; cbn; auto|].
  destruct (jsstring_eqb a (js "anthropic")) eqn:E2;
    [apply jsstring_eqb_eq in E2; subst; cbn; auto|].
  destruct (jsstring_eqb a (js "ollama")) eqn:E3;
    [apply jsstring_eqb_eq in E3; subst; cbn; auto|].
  discriminate.
Qed.

(** The LLM fields of the body come from the agent alone, never from
    the record: with the agent "Agent" LLM use is off, there is no
    provider and no parameter; any other agent is the provider, LLM use
    is on, and the one parameter is the model, which is a model name
    only for openai, anthropic and ollama and [null] for any other
    agent. *)
Theorem request_body_llm_fields
    (toLowerCase : jsstring -> jsstring) (numberToString : number -> jsstring)
    (text agent : jsstring) (body : Backend.Payload)
    (H : onSend toLowerCase numberToString text agent = Some body) :
  let details := Backend.structure_details body in
  (agent = js "Agent" ->
     Backend.use_llm details = false /\ Backend.llm_provider details = None /\
     Backend.llm_params details = []) /\
  (agent <> js "Agent" -> agent <> [] ->
     Backend.use_llm details = true /\ Backend.llm_provider details = Some agent /\
     Backend.llm_params details = [(js "model", llmModel agent)] /\
     (llmModel agent <> None <-> In agent [js "openai"; js "anthropic"; js "ollama"])).
Proof.
  intros details. unfold onSend in H.
  destruct (truthy (trim text)); [|discriminate].
  inversion H; subst body. clear H. unfold details, payload.
  cbn [Backend.structure_details Backend.use_llm Backend.llm_provider
       Backend.llm_params].
  split.
  - intros ->. rewrite jsstring_eqb_refl. cbn. auto.
  - intros Na Ne.
    destruct (jsstring_eqb agent (js "Agent")) eqn:E;
      [apply jsstring_eqb_eq in E; contradiction|].
    destruct agent as [|c agent]; [contradiction|]. cbn.
    repeat split; try reflexivity.
    + destruct (llmModel (c :: agent)) as [m|] eqn:M; [|congruence].
      intros _. now apply (llmModel_known _ m).
    + intros [<- | [<- | [<- | []]]]; discriminate.
Qed.

Lemma request_body_llm_fields_witness :
  let details :=
    Backend.structure_details
      (payload exactToString (parseMaterialRequest asciiLowerCase (js "fcc Cu"))
         true (Some (js "gemini")) (js "fcc Cu")) in
  (js "gemini" = js "Agent" ->
     Backend.use_llm details = false /\ Backend.llm_provider details = None /\
     Backend.llm_params details = []) /\
  (js "gemini" <> js "Agent" -> js "gemini" <> [] ->
     Backend.use_llm details = true /\
     Backend.llm_provider details = Some (js "gemini") /\
     Backend.llm_params details = [(js "model", llmModel (js "gemini"))] /\
     (llmModel (js "gemini") <> None
      <-> In (js "gemini") [js "openai"; js "anthropic"; js "ollama"])).
Proof.
  apply (request_body_llm_fields asciiLowerCase exactToString
           (js "fcc Cu") (js "gemini")).
  reflexivity.
Defined.

(** The agent "gemini" of the selector is sent without a model. *)
Example gemini_has_no_model :
  In (js "gemini") agents /\ llmModel (js "gemini") = None.
Proof. split; [vm_compute; tauto | reflexivity]. Qed.

(** Whatever [submit] emits, [onSend] sends: the second test for a
    blank text never stops a request. *)
Theorem submitted_text_is_sent
    (toLowerCase : jsstring -> jsstring) (numberToString : number -> jsstring)
    (text agent : jsstring) (emitted : jsstring * jsstring)
    (H : submit text agent = Some emitted) :
  emitted = (text, agent) /\
  exists body,
    onSend toLowerCase numberToString (fst emitted) (snd emitted) = Some body /\
    Backend.intent body = js "CALCULATE".
Proof.
  unfold submit in H. destruct (truthy (trim text)) eqn:T; [|discriminate].
  inversion H; subst emitted. split; [reflexivity|].
  cbn [fst snd]. unfold onSend. rewrite T. eexists. split; reflexivity.
Qed.

Lemma submitted_text_is_sent_witness :
  (js " Si ", js "Agent") = (js " Si ", js "Agent") /\
  exists body,
    onSend asciiLowerCase exactToString
      (fst (js " Si ", js "Agent")) (snd (js " Si ", js "Agent")) = Some body /\
    Backend.intent body = js "CALCULATE".
Proof.
  apply (submitted_text_is_sent asciiLowerCase exactToString (js " Si ") (js "Agent")).
  reflexivity.
Defined.

(** ** Names of the element dictionary that never get their turn *)

Lemma startsWith_inv p : forall s, startsWith p s = true -> exists t, s = p ++ t.
Proof.
  induction p as [|a p IH]; intros s H; [now exists s|].
  destruct s as [|b s]; cbn [startsWith] in H; [discriminate|].
  apply andb_prop in H. destruct H as [E H]. apply N.eqb_eq in E. subst b.
  destruct (IH s H) as (t & ->). now exists t.
Qed.

Lemma includes_occursIn s key : includes s key = true <-> occursIn key s.
Proof.
  split.
  - induction s as [|c s IH]; cbn [includes]; intros H.
    + rewrite orb_false_r in H. apply startsWith_inv in H. destruct H as (t & E).
      now exists [], t.
    + apply orb_prop in H. destruct H as [H | H].
      * apply startsWith_inv in H. destruct H as (t & E). now exists [], t.
      * destruct (IH H) as (pre & post & ->). now exists (c :: pre), post.
  - intros (pre & post & ->). induction pre as [|c pre IH].
    + cbn [app]. destruct (key ++ post) eqn:E; cbn [includes];
        rewrite <- E, startsWith_app; reflexivity.
    + cbn [app includes]. rewrite IH. apply orb_true_r.
Qed.

Lemma includes_trans a b c :
  includes a b = true -> includes b c = true -> includes a c = true.
Proof.
  rewrite !includes_occursIn. intros (p1 & q1 & ->) (p2 & q2 & ->).
  exists (p1 ++ p2), (q2 ++ q1). now rewrite <- !app_assoc.
Qed.

(** The search of a table stops at or before every entry that it could
    stop at. *)
Lemma find_in_upTo {A} (f g : A -> bool) : forall l,
  (forall e, f e = true -> g e = true) -> existsb f l = true ->
  exists e, find g l = Some e /\ In e (upTo f l).
Proof.
  induction l as [|e l IH]; intros FG Ex; cbn [existsb] in Ex; [discriminate|].
  cbn [find upTo]. destruct (g e) eqn:G.
  - exists e. split; [reflexivity|]. destruct (f e); now left.
  - destruct (f e) eqn:Fe; [rewrite (FG e Fe) in G; discriminate|].
    cbn [orb] in Ex. destruct (IH FG Ex) as (x & Fx & Ix).
    exists x. split; [exact Fx | now right].
Qed.

Lemma elementMap_shadows :
  forallb (fun e =>
             negb (has shadowedNames (fst e)) ||
             (existsb (fun e' => includes (fst e) (fst e')) elementMap &&
              forallb (fun e' => negb (jsstring_eqb (snd e') (snd e)))
                      (upTo (fun e' => includes (fst e) (fst e')) elementMap)))
          elementMap = true.
Proof. vm_compute. reflexivity. Qed.

(** A text that holds [key] is answered with an entry at or before the
    first entry whose key [key] holds. *)
Lemma elementHit_earlier tl key :
  includes tl key = true ->
  existsb (fun e' => includes key (fst e')) elementMap = true ->
  exists e, find (fun e' => includes tl (fst e')) elementMap = Some e /\
            In e (upTo (fun e' => includes key (fst e')) elementMap).
Proof.
  intros Inc Ex. apply find_in_upTo; [|exact Ex].
  intros e' H. exact (includes_trans _ _ _ Inc H).
Qed.

(** Ten names of the element dictionary never select their own
    element: each holds a key that stands earlier in the dictionary
    (magnesium and silver hold "si", platinum holds "ti", ...), so a
    text with such a name is answered with the symbol of an earlier
    entry, a different element. *)
Theorem shadowed_element_names
    (textLower key sym : jsstring)
    (Hentry : In (key, sym) elementMap)
    (Hname : In key shadowedNames)
    (Hin : includes textLower key = true) :
  exists sym', elementHit textLower = Some sym' /\ sym' <> sym.
Proof.
  pose proof elementMap_shadows as T.
  rewrite forallb_forall in T. apply T in Hentry. cbn [fst snd] in Hentry.
  assert (Hs : has shadowedNames key = true).
  { unfold has. apply existsb_exists. exists key. split; [exact Hname|].
    apply jsstring_eqb_refl. }
  rewrite Hs in Hentry. cbn [negb orb] in Hentry.
  apply andb_prop in Hentry. destruct Hentry as [Ex Fa].
  destruct (elementHit_earlier textLower key Hin Ex) as (e & Fe & Ie).
  exists (snd e). unfold elementHit. rewrite Fe. split; [reflexivity|].
  rewrite forallb_forall in Fa. apply Fa in Ie.
  intros E. rewrite E, jsstring_eqb_refl in Ie. discriminate.
Qed.

Lemma shadowed_element_names_witness :
  exists sym',
    elementHit (js "energy of bulk silver") = Some sym' /\ sym' <> js "Ag".
Proof.
  apply (shadowed_element_names (js "energy of bulk silver") (js "silver") (js "Ag")).
  - vm_compute. tauto.
  - vm_compute. tauto.
  - reflexivity.
Defined.

(** The words go wrong through the whole interpreter: silver is
    silicon, platinum is titanium. *)
Example silver_is_silicon :
  material_name (parseMaterialRequest asciiLowerCase (js "energy of silver")) = js "Si" /\
  material_name (parseMaterialRequest asciiLowerCase (js "bulk platinum 2x2x2")) = js "Ti".
Proof. split; reflexivity. Qed.

(** The element dictionary never answers chromium or cobalt: both of
    their keys, the name and the symbol, hold the earlier key "c". *)
Theorem element_dictionary_never_Cr_Co (textLower : jsstring) :
  elementHit textLower <> Some (js "Cr") /\ elementHit textLower <> Some (js "Co").
Proof.
  assert (K : forall sym, In sym [js "Cr"; js "Co"] ->
                forallb (fun e => negb (jsstring_eqb (snd e) sym) ||
                                  has shadowedNames (fst e)) elementMap = true).
  { intros sym [<- | [<- | []]]; vm_compute; reflexivity. }
  assert (G : forall sym, In sym [js "Cr"; js "Co"] ->
                elementHit textLower <> Some sym).
  { intros sym Is H. unfold elementHit in H.
    destruct (find _ elementMap) as [[key s]|] eqn:F; [|discriminate].
    cbn in H. inversion H; subst s. pose proof F as F0.
    apply find_some in F. destruct F as [I Inc].
    cbn [fst] in Inc. specialize (K sym Is). rewrite forallb_forall in K.
    pose proof (K _ I) as Kk. cbn [fst snd] in Kk.
    rewrite jsstring_eqb_refl in Kk. cbn [negb orb] in Kk.
    unfold has in Kk. apply existsb_exists in Kk. destruct Kk as (x & Ix & Ex).
    apply jsstring_eqb_eq in Ex. subst x.
    pose proof elementMap_shadows as T.
    rewrite forallb_forall in T. pose proof (T _ I) as Tk. cbn [fst snd] in Tk.
    assert (Hs : has shadowedNames key = true).
    { unfold has. apply existsb_exists. exists key. split; [exact Ix|].
      apply jsstring_eqb_refl. }
    rewrite Hs in Tk. cbn [negb orb] in Tk.
    apply andb_prop in Tk. destruct Tk as [Ex Fa].
    destruct (elementHit_earlier textLower key Inc Ex) as (e & Fe & Ie).
    rewrite F0 in Fe. inversion Fe; subst e.
    rewrite forallb_forall in Fa. apply Fa in Ie. cbn [snd] in Ie.
    rewrite jsstring_eqb_refl in Ie. discriminate. }
  split; apply G; cbn; auto.
Qed.

(** ** The structure viewer *)

Lemma dropSpaces_lead ws s :
  forallb isSpace ws = true -> dropSpaces (ws ++ s) = dropSpaces s.
Proof.
  induction ws as [|c ws IH]; cbn [forallb app dropSpaces]; intros F; [reflexivity|].
  apply andb_prop in F. destruct F as [S F]. rewrite S. now apply IH.
Qed.

Lemma dropSpaces_app a x :
  forallb isSpace a = false -> dropSpaces (a ++ x) = dropSpaces a ++ x.
Proof.
  induction a as [|c a IH]; cbn [forallb app dropSpaces]; intros F; [discriminate|].
  destruct (isSpace c); [now apply IH | reflexivity].
Qed.

Lemma dropSpaces_blank a : forallb isSpace a = false ->
  forallb isSpace (dropSpaces a) = false.
Proof.
  intros F. destruct (forallb isSpace (dropSpaces a)) eqn:E; [|reflexivity].
  destruct (dropSpaces_spec a) as (ws & Ea & Fw & _).
  rewrite Ea, forallb_app, Fw, E in F. discriminate.
Qed.

Lemma trim_lead ws s : forallb isSpace ws = true -> trim (ws ++ s) = trim s.
Proof. intros F. unfold trim. now rewrite dropSpaces_lead. Qed.

Lemma trim_middle a m b :
  forallb isSpace a = false -> forallb isSpace b = false ->
  trim (a ++ m ++ b) = dropSpaces a ++ m ++ rev (dropSpaces (rev b)).
Proof.
  intros Fa Fb. unfold trim. rewrite dropSpaces_app by exact Fa.
  rewrite !rev_app_distr, <- app_assoc.
  rewrite dropSpaces_app by now rewrite forallb_rev.
  now rewrite !rev_app_distr, !rev_involutive, <- app_assoc.
Qed.

Lemma trim_trail s ws : forallb isSpace ws = true -> trim (s ++ ws) = trim s.
Proof.
  intros F. destruct (forallb isSpace s) eqn:Fs.
  - assert (E : trim (s ++ ws) = []) by (apply trim_nil; now rewrite forallb_app, Fs, F).
    rewrite E. symmetry. now apply trim_nil.
  - unfold trim. rewrite dropSpaces_app by exact Fs.
    rewrite rev_app_distr, dropSpaces_lead; [reflexivity | now rewrite forallb_rev].
Qed.

(** What [trim] leaves: no white space at either end. *)
Lemma trim_spec s :
  exists ws ws', s = ws ++ trim s ++ ws' /\
    forallb isSpace ws = true /\ forallb isSpace ws' = true /\
    headIs isSpace (trim s) = false.
Proof.
  destruct (dropSpaces_spec s) as (ws & E & F & H).
  destruct (dropSpaces_spec (rev (dropSpaces s))) as (ws' & E' & F' & _).
  unfold trim. set (d := dropSpaces s) in *. set (e := dropSpaces (rev d)) in *.
  assert (Ed : d = rev e ++ rev ws').
  { rewrite <- rev_app_distr, <- E'. now rewrite rev_involutive. }
  exists ws, (rev ws'). rewrite forallb_rev, <- Ed.
  repeat split; try assumption.
  destruct (rev e) as [|c t]; [reflexivity|].
  rewrite Ed in H. exact H.
Qed.

Lemma split_cons sep s : exists l ls, split sep s = l :: ls.
Proof.
  destruct s as [|c s]; cbn [split]; [eauto|].
  destruct (c =? sep)%N; [eauto|]. destruct (split sep s); eauto.
Qed.

Lemma split_app_sep sep x z :
  split sep (x ++ sep :: z) = split sep x ++ split sep z.
Proof.
  induction x as [|c x IH]; cbn [app split].
  - now rewrite N.eqb_refl.
  - destruct (c =? sep)%N; [now rewrite IH|]. rewrite IH.
    destruct (split_cons sep x) as (l & ls & ->). reflexivity.
Qed.

Lemma split_blank sep s :
  forallb isSpace s = true -> forallb (forallb isSpace) (split sep s) = true.
Proof.
  induction s as [|c s IH]; cbn [forallb split]; intros F; [reflexivity|].
  apply andb_prop in F. destruct F as [S F]. specialize (IH F).
  destruct (c =? sep)%N; [exact IH|].
  destruct (split sep s) as [|l ls]; cbn [forallb] in *; [now rewrite S|].
  apply andb_prop in IH. destruct IH as [A B]. now rewrite S, A, B.
Qed.

Lemma filter_blank ls :
  forallb (forallb isSpace) ls = true -> filter (fun l => truthy (trim l)) ls = [].
Proof.
  induction ls as [|l ls IH]; cbn [forallb filter]; intros F; [reflexivity|].
  apply andb_prop in F. destruct F as [A B]. apply trim_nil in A.
  unfold truthy. rewrite A. cbn. now apply IH.
Qed.

(** The first line of a text. *)
Lemma split_head sep s :
  exists l ls rest, split sep s = l :: ls /\ s = l ++ rest /\
                    (rest = [] \/ exists r, rest = sep :: r).
Proof.
  induction s as [|c s (l & ls & rest & E & Es & R)].
  - exists [], [], []. cbn. auto.
  - cbn [split]. destruct (c =? sep)%N eqn:D.
    + apply N.eqb_eq in D. subst c. exists [], (split sep s), (sep :: s).
      repeat split. right. now exists s.
    + rewrite E. exists (c :: l), ls, rest. cbn [app]. rewrite <- Es. auto.
Qed.

Lemma split_first c s :
  isSpace c = false ->
  exists first rest ls,
    split 10%N (c :: s) = (c :: first) :: ls /\ c :: s = (c :: first) ++ rest /\
    (rest = [] \/ headIs isSpace rest = true).
Proof.
  intros Sc. assert (Nc : (c =? 10)%N = false).
  { destruct (c =? 10)%N eqn:E; [|reflexivity]. apply N.eqb_eq in E. subst c.
    discriminate. }
  destruct (split_head 10%N s) as (l & ls & rest & E & Es & R).
  exists l, rest, ls. cbn [split]. rewrite Nc, E. cbn [app]. rewrite <- Es.
  repeat split. destruct R as [R | (r & ->)]; [now left | now right].
Qed.

Lemma space_no_digit R c : isSpace c = true -> radixDigit R c = None.
Proof.
  intros S. unfold radixDigit.
  assert (D : isDigit c = false) by chars.
  assert (L : isLower c = false) by chars.
  assert (U : isUpper c = false) by chars.
  now rewrite D, L, U.
Qed.

Lemma takeRadixDigits_tail R c tl : forall u,
  radixDigit R c = None ->
  takeRadixDigits R (u ++ c :: tl) = takeRadixDigits R u.
Proof.
  intros u H. induction u as [|a u IH]; cbn [app takeRadixDigits].
  - now rewrite H.
  - destruct (radixDigit R a); [now rewrite IH | reflexivity].
Qed.

Lemma radixPrefix_tail u c tl :
  isSpace c = true ->
  fst (radixPrefix (u ++ c :: tl)) = fst (radixPrefix u) /\
  takeRadixDigits (fst (radixPrefix (u ++ c :: tl))) (snd (radixPrefix (u ++ c :: tl)))
  = takeRadixDigits (fst (radixPrefix u)) (snd (radixPrefix u)).
Proof.
  intros S. pose proof (space_no_digit 10 c S) as D10.
  pose proof (space_no_digit 16 c S) as D16.
  destruct u as [|a [|b u]]; cbn [app radixPrefix].
  - destruct tl as [|b tl].
    + cbn. now rewrite D10.
    + assert (E : (c =? 48)%N = false) by chars. rewrite E. cbn. now rewrite D10.
  - assert (E : ((c =? 120)%N || (c =? 88)%N) = false) by chars.
    rewrite E, andb_false_r. cbn [fst snd]. split; [reflexivity|].
    now apply (takeRadixDigits_tail 10 c tl [a]).
  - destruct ((a =? 48)%N && ((b =? 120)%N || (b =? 88)%N)); cbn [fst snd].
    + split; [reflexivity|]. now apply takeRadixDigits_tail.
    + split; [reflexivity|]. now apply (takeRadixDigits_tail 10 c tl (a :: b :: u)).
Qed.

Lemma parseIntString_lead ws s :
  forallb isSpace ws = true -> parseIntString (ws ++ s) = parseIntString s.
Proof. intros F. unfold parseIntString. now rewrite dropSpaces_lead. Qed.

(** [parseInt] reads nothing past the first white space after the
    number. *)
Lemma parseIntString_tail c0 t tail :
  isSpace c0 = false -> (tail = [] \/ headIs isSpace tail = true) ->
  parseIntString ((c0 :: t) ++ tail) = parseIntString (c0 :: t).
Proof.
  intros S0 [-> | H]; [now rewrite app_nil_r|].
  destruct tail as [|c tl]; [discriminate|]. cbn [headIs] in H.
  unfold parseIntString. cbn [app dropSpaces]. rewrite S0. cbn [headIs].
  assert (E : dropSign (c0 :: t ++ c :: tl) = dropSign (c0 :: t) ++ c :: tl).
  { cbn [dropSign]. now destruct ((c0 =? 43)%N || (c0 =? 45)%N). }
  rewrite E. destruct (radixPrefix_tail (dropSign (c0 :: t)) c tl H) as [-> ->].
  reflexivity.
Qed.

(** The first line that is not blank holds the number that [parseInt]
    finds in the text as a whole. *)
Lemma first_line_count xyzData :
  forallb isSpace xyzData = false ->
  exists first rest,
    nonBlankLines xyzData = first :: rest /\
    parseIntString (trim first) = parseIntString xyzData.
Proof.
  intros H.
  destruct (trim_spec xyzData) as (ws & ws' & E & F & F' & Hd).
  destruct (trim xyzData) as [|c x] eqn:T.
  { apply trim_nil in T. congruence. }
  cbn [headIs] in Hd.
  destruct (split_first c x Hd) as (first & rest & ls & Sp & Ex & R).
  assert (NB : truthy (trim (c :: first)) = true).
  { unfold truthy. destruct (trim (c :: first)) eqn:Tf; [|reflexivity].
    apply trim_nil in Tf. cbn in Tf. rewrite Hd in Tf. discriminate. }
  exists (c :: first), (filter (fun l => truthy (trim l)) ls). split.
  { unfold nonBlankLines. rewrite T, Sp. cbn [filter]. now rewrite NB. }
  destruct (trim_spec (c :: first)) as (wa & wb & Ea & Fa & Fb & Ha).
  destruct wa as [|a wa];
    [|cbn in Ea, Fa; inversion Ea; subst a; rewrite Hd in Fa; discriminate].
  cbn [app] in Ea.
  destruct (trim (c :: first)) as [|c1 t1] eqn:Tf; [discriminate|].
  cbn [headIs] in Ha.
  rewrite E, parseIntString_lead by exact F.
  rewrite Ex, Ea, <- !app_assoc.
  symmetry. apply parseIntString_tail; [exact Ha|].
  destruct wb as [|b wb]; cbn [app].
  - destruct R as [-> | R]; cbn [app].
    + destruct ws' as [|w ws'']; [now left | right].
      cbn in F' |- *. now apply andb_prop in F'.
    + right. destruct rest; [discriminate | exact R].
  - right. cbn in Fb |- *. now apply andb_prop in Fb.
Qed.

(** The atom count is what [parseInt] makes of the text as a whole:
    cutting out the first line that is not blank, and trimming it,
    changes nothing. *)
Theorem atom_count_reads_whole_text
    (xyzData : jsstring) (debugMode : bool) (st : ViewerState)
    (H : forallb isSpace xyzData = false) :
  atomCount (parseXYZ (Some xyzData) debugMode st) = parseIntString xyzData.
Proof.
  destruct (first_line_count xyzData H) as (first & rest & L & C).
  destruct xyzData as [|d0 data]; [discriminate|].
  unfold parseXYZ. rewrite L. cbv zeta. rewrite C.
  destruct (debugMode && isPositive (parseIntString (d0 :: data))); reflexivity.
Qed.

Lemma atom_count_reads_whole_text_witness :
  atomCount (parseXYZ (Some (js "  0x10 atoms")) false
               {| atomCount := integerNaN; debugInfo := [] |})
  = parseIntString (js "  0x10 atoms").
Proof.
  apply (atom_count_reads_whole_text (js "  0x10 atoms")). reflexivity.
Defined.

(** A text of white space only is not the empty text: the empty text
    resets the viewer to no atoms and no note, a blank one leaves the
    state as it was, whatever it was. *)
Theorem blank_xyz_keeps_state
    (xyzData : jsstring) (debugMode : bool) (st : ViewerState)
    (Hne : xyzData <> [])
    (Hblank : forallb isSpace xyzData = true) :
  parseXYZ (Some xyzData) debugMode st = st /\
  parseXYZ (Some []) debugMode st
  = {| atomCount := {| negative := false; magnitude := Fin 0 |}; debugInfo := [] |}.
Proof.
  split; [|reflexivity].
  destruct xyzData as [|c data]; [contradiction|].
  unfold parseXYZ, nonBlankLines. apply trim_nil in Hblank. rewrite Hblank.
  reflexivity.
Qed.

Lemma blank_xyz_keeps_state_witness :
  parseXYZ (Some (js "   ")) true
    {| atomCount := {| negative := false; magnitude := Fin 8 |};
       debugInfo := js "Elements: Si" |}
  = {| atomCount := {| negative := false; magnitude := Fin 8 |};
       debugInfo := js "Elements: Si" |} /\
  parseXYZ (Some []) true
    {| atomCount := {| negative := false; magnitude := Fin 8 |};
       debugInfo := js "Elements: Si" |}
  = {| atomCount := {| negative := false; magnitude := Fin 0 |}; debugInfo := [] |}.
Proof.
  apply (blank_xyz_keeps_state (js "   ")); [discriminate | reflexivity].
Defined.

Lemma filter_split_blank blank :
  forallb isSpace blank = true ->
  filter (fun l => truthy (trim l)) (split 10%N blank) = [].
Proof. intros F. now apply filter_blank, split_blank. Qed.

Lemma nonBlankLines_skip a blank b :
  forallb isSpace blank = true ->
  nonBlankLines (a ++ 10%N :: blank ++ 10%N :: b) = nonBlankLines (a ++ 10%N :: b).
Proof.
  intros F. unfold nonBlankLines.
  assert (F10 : forall x, forallb isSpace x = true ->
                          forallb isSpace (10%N :: x) = true)
    by (intros x Fx; cbn [forallb]; now rewrite Fx).
  destruct (forallb isSpace a) eqn:Fa.
  { (* nothing but white space before *)
    assert (E1 : trim (a ++ 10%N :: blank ++ 10%N :: b) = trim b).
    { replace (a ++ 10%N :: blank ++ 10%N :: b)
        with ((a ++ 10%N :: blank ++ [10%N]) ++ b)
        by (rewrite <- app_assoc; cbn [app]; rewrite <- app_assoc; reflexivity).
      apply trim_lead. rewrite forallb_app, Fa. apply F10.
      rewrite forallb_app, F. reflexivity. }
    assert (E2 : trim (a ++ 10%N :: b) = trim b).
    { replace (a ++ 10%N :: b) with ((a ++ [10%N]) ++ b)
        by (rewrite <- app_assoc; reflexivity).
      apply trim_lead. now rewrite forallb_app, Fa. }
    now rewrite E1, E2. }
  destruct (forallb isSpace b) eqn:Fb.
  { (* nothing but white space after *)
    assert (E1 : trim (a ++ 10%N :: blank ++ 10%N :: b) = trim a).
    { apply trim_trail. apply F10. rewrite forallb_app, F. now apply F10. }
    assert (E2 : trim (a ++ 10%N :: b) = trim a).
    { apply trim_trail. now apply F10. }
    now rewrite E1, E2. }
  pose proof (trim_middle a (10%N :: blank ++ [10%N]) b Fa Fb) as E1.
  pose proof (trim_middle a [10%N] b Fa Fb) as E2.
  cbn [app] in E1, E2. rewrite <- !(app_assoc blank) in E1. cbn [app] in E1.
  rewrite E1, E2.
  rewrite !split_app_sep, !filter_app, (filter_split_blank blank F).
  reflexivity.
Qed.

(** Blank lines do not count.  A text with white space between two
    line breaks is read as the text with one line break there: when
    the comment line of an XYZ text is blank, the first atom line takes
    its place. *)
Theorem blank_lines_are_skipped
    (a blank b : jsstring) (debugMode : bool) (st : ViewerState)
    (H : forallb isSpace blank = true) :
  parseXYZ (Some (a ++ 10%N :: blank ++ 10%N :: b)) debugMode st
  = parseXYZ (Some (a ++ 10%N :: b)) debugMode st.
Proof.
  pose proof (nonBlankLines_skip a blank b H) as L.
  destruct (a ++ 10%N :: blank ++ 10%N :: b) as [|c1 d1] eqn:E1;
    [destruct a; discriminate|].
  destruct (a ++ 10%N :: b) as [|c2 d2] eqn:E2; [destruct a; discriminate|].
  unfold parseXYZ. now rewrite L.
Qed.

Lemma blank_lines_are_skipped_witness :
  parseXYZ (Some (js "2" ++ 10%N :: js " " ++ 10%N :: js "Si 0 0 0")) true
    {| atomCount := integerNaN; debugInfo := [] |}
  = parseXYZ (Some (js "2" ++ 10%N :: js "Si 0 0 0")) true
      {| atomCount := integerNaN; debugInfo := [] |}.
Proof.
  apply (blank_lines_are_skipped (js "2") (js " ") (js "Si 0 0 0")). reflexivity.
Defined.

(** With a blank comment line the first atom is read as the comment:
    of silicon and oxygen only oxygen is listed. *)
Example blank_comment_line_loses_an_atom :
  debugInfo
    (parseXYZ
       (Some (js "2" ++ 10%N :: 10%N :: js "Si 0 0 0" ++ 10%N :: js "O 1 1 1"))
       true {| atomCount := integerNaN; debugInfo := [] |})
  = js "Elements: O".
Proof. reflexivity. Qed.

(** ** The elements that the viewer lists *)

Lemma leadingToken_no_space l :
  forallb (fun c => negb (isSpace c)) (leadingToken l) = true.
Proof.
  induction l as [|c l IH]; cbn [leadingToken]; [reflexivity|].
  destruct (isSpace c) eqn:S; [reflexivity|]. cbn [forallb]. now rewrite S, IH.
Qed.

Lemma matchHere_space_hit bef c l :
  isSpace c = true -> exists y, matchHere (Plus space) bef (c :: l) = Some y.
Proof.
  intros S. unfold matchHere, Plus, space. rewrite matcher_seq.
  rewrite (char_step isSpace _ (MState bef (c :: l) []) c l eq_refl S).
  rewrite matcher_star.
  destruct (starLoop (matcher (Char isSpace)) Some _ _) as [y|] eqn:E; [eauto|].
  apply starLoop_total in E; [destruct E | discriminate].
Qed.

Lemma matchHere_space_miss bef l :
  headIs isSpace l = false -> matchHere (Plus space) bef l = None.
Proof.
  intros H. unfold matchHere, Plus, space. rewrite matcher_seq.
  now apply char_stop.
Qed.

Lemma search_space : forall l bef,
  match search (Plus space) bef l with
  | Some (s, _) => before s = rev (leadingToken l) ++ bef
  | None => leadingToken l = l
  end.
Proof.
  induction l as [|c l IH]; intros bef.
  - cbn [search]. now rewrite matchHere_space_miss.
  - cbn [search leadingToken]. destruct (isSpace c) eqn:S.
    + destruct (matchHere_space_hit bef c l S) as (y & ->). reflexivity.
    + rewrite matchHere_space_miss by exact S.
      specialize (IH (c :: bef)).
      destruct (search (Plus space) (c :: bef) l) as [[s s']|].
      * rewrite IH. cbn [rev]. now rewrite <- app_assoc.
      * now rewrite IH.
Qed.

(** What [split] on white space puts first is the leading run without
    white space. *)
Lemma splitHead_leadingToken l : splitHead (Plus space) l = leadingToken l.
Proof.
  unfold splitHead. pose proof (search_space l []) as H.
  destruct (search (Plus space) [] l) as [[s s']|].
  - rewrite H, app_nil_r. apply rev_involutive.
  - now rewrite H.
Qed.

Lemma setAdd_In x y set : In y (setAdd x set) -> y = x \/ In y set.
Proof.
  unfold setAdd. destruct (has set x); [now right|].
  intros I. apply in_app_or in I. destruct I as [I | [<- | []]]; auto.
Qed.

Lemma setAdd_NoDup x set : NoDup set -> NoDup (setAdd x set).
Proof.
  intros N. unfold setAdd. destruct (has set x) eqn:H; [exact N|].
  assert (Nx : ~ In x set).
  { intros I. unfold has in H.
    assert (E : existsb (jsstring_eqb x) set = true).
    { apply existsb_exists. exists x. split; [exact I | apply jsstring_eqb_refl]. }
    congruence. }
  apply NoDup_rev in N. rewrite <- (rev_involutive (set ++ [x])).
  apply NoDup_rev. rewrite rev_app_distr. cbn [rev app].
  constructor; [now rewrite <- in_rev | exact N].
Qed.

Lemma setAdd_length x set : length (setAdd x set) <= S (length set).
Proof.
  unfold setAdd. destruct (has set x); [lia|]. rewrite length_app. simpl. lia.
Qed.

Lemma collectElements_spec : forall lines i bound els,
  NoDup els ->
  NoDup (collectElements i bound lines els) /\
  (forall e, In e (collectElements i bound lines els) ->
             In e els \/ exists l, In l lines /\ e = leadingToken l) /\
  length (collectElements i bound lines els) <= length els + (bound - i).
Proof.
  induction lines as [|l lines IH]; intros i bound els N; cbn [collectElements].
  - repeat split; [exact N | auto | lia].
  - destruct (Nat.ltb i bound) eqn:L; [|repeat split; [exact N | auto | lia]].
    apply Nat.ltb_lt in L.
    destruct (IH (S i) bound (setAdd (splitHead (Plus space) l) els)
                (setAdd_NoDup _ _ N)) as (N' & I' & B').
    split; [exact N'|]. split.
    + intros e Ie. destruct (I' e Ie) as [Ia | (l' & Il & El)].
      * apply setAdd_In in Ia. destruct Ia as [-> | Ia]; [|now left].
        right. exists l. split; [now left | apply splitHead_leadingToken].
      * right. exists l'. split; [now right | exact El].
    + pose proof (setAdd_length (splitHead (Plus space) l) els). lia.
Qed.

(** In debug mode, for a text with a positive atom count, the note
    lists elements that are all different, each the leading run
    without white space of a line after the first two lines that are
    not blank, and never more of them than the atom count. *)
Theorem listed_elements
    (xyzData : jsstring) (st : ViewerState)
    (Hnb : forallb isSpace xyzData = false)
    (Hpos : isPositive (parseIntString xyzData) = true) :
  exists elements,
    debugInfo (parseXYZ (Some xyzData) true st)
    = js "Elements: " ++ join (js ", ") elements /\
    NoDup elements /\
    (forall e, In e elements ->
       forallb (fun c => negb (isSpace c)) e = true /\
       exists l, In l (skipn 2 (nonBlankLines xyzData)) /\ e = leadingToken l) /\
    (forall z, magnitude (parseIntString xyzData) = Fin z ->
               (Z.of_nat (length elements) <= z)%Z).
Proof.
  destruct (first_line_count xyzData Hnb) as (first & rest & L & C).
  destruct xyzData as [|d0 data]; [discriminate|].
  set (text := d0 :: data) in *.
  destruct (collectElements_spec (skipn 2 (nonBlankLines text)) 2
              (loopBound (parseIntString text) (length (nonBlankLines text)))
              [] (NoDup_nil _)) as (N & I & B).
  eexists. split; [|split; [exact N|split]].
  - unfold parseXYZ. fold text. rewrite L. cbv zeta. rewrite C, Hpos.
    cbn [andb debugInfo]. rewrite <- L. reflexivity.
  - intros e Ie. destruct (I e Ie) as [[] | (l & Il & ->)].
    split; [apply leadingToken_no_space | now exists l].
  - intros z Mz. unfold loopBound in B |- *. rewrite Mz in B |- *.
    unfold isPositive in Hpos. rewrite Mz in Hpos.
    apply andb_prop in Hpos. destruct Hpos as [_ Pz]. apply Z.ltb_lt in Pz.
    cbn [length] in B.
    pose proof (Z.le_min_l (2 + z) (Z.of_nat (length (nonBlankLines text)))) as M.
    set (m := Z.min (2 + z) (Z.of_nat (length (nonBlankLines text)))) in *.
    lia.
Qed.

Lemma listed_elements_witness :
  exists elements,
    debugInfo
      (parseXYZ (Some (js "3" ++ 10%N :: js "quartz" ++ 10%N :: js "Si 0 0 0" ++
                       10%N :: js "O 1 1 1" ++ 10%N :: js "O 2 2 2"))
         true {| atomCount := integerNaN; debugInfo := [] |})
    = js "Elements: " ++ join (js ", ") elements /\
    NoDup elements /\
    (forall e, In e elements ->
       forallb (fun c => negb (isSpace c)) e = true /\
       exists l,
         In l (skipn 2 (nonBlankLines
                          (js "3" ++ 10%N :: js "quartz" ++ 10%N :: js "Si 0 0 0" ++
                           10%N :: js "O 1 1 1" ++ 10%N :: js "O 2 2 2"))) /\
         e = leadingToken l) /\
    (forall z,
       magnitude (parseIntString
                    (js "3" ++ 10%N :: js "quartz" ++ 10%N :: js "Si 0 0 0" ++
                     10%N :: js "O 1 1 1" ++ 10%N :: js "O 2 2 2")) = Fin z ->
       (Z.of_nat (length elements) <= z)%Z).
Proof.
  apply (listed_elements
           (js "3" ++ 10%N :: js "quartz" ++ 10%N :: js "Si 0 0 0" ++
            10%N :: js "O 1 1 1" ++ 10%N :: js "O 2 2 2")).
  - reflexivity.
  - reflexivity.
Defined.

(** ** The two readings of [parseInt] agree

    On a run of digits, [parseInt] for any string is [parseInt] as the
    interpreter uses it on its captures. *)

Lemma radixDigit_decimal c : isDigit c = true -> radixDigit 10 c = Some (digitValue c).
Proof.
  intros D. unfold radixDigit, digitValue. rewrite D.
  replace (Z.of_N c - 48 <? 10)%Z with true; [reflexivity|].
  symmetry. apply Z.ltb_lt. chars.
Qed.

Lemma takeRadixDigits_decimal w :
  forallb isDigit w = true -> takeRadixDigits 10 w = map digitValue w.
Proof.
  induction w as [|c w IH]; cbn [forallb takeRadixDigits map]; intros F; [reflexivity|].
  apply andb_prop in F. destruct F as [D F]. now rewrite (radixDigit_decimal c D), IH.
Qed.

Lemma fold_left_map_digits w : forall acc,
  fold_left (fun a d => (10 * a + d)%Z) (map digitValue w) acc
  = fold_left (fun a c => (10 * a + digitValue c)%Z) w acc.
Proof. induction w as [|c w IH]; intros acc; cbn [map fold_left]; auto. Qed.

Lemma parseIntString_numeral w :
  isNumeral w ->
  parseIntString w = {| negative := false; magnitude := parseInt w |}.
Proof.
  intros [Nw Fw]. rewrite (parseInt_numeral w (conj Nw Fw)).
  destruct w as [|c w]; [contradiction|].
  cbn [forallb] in Fw. apply andb_prop in Fw. destruct Fw as [Dc Fw].
  assert (Sc : isSpace c = false) by now apply digit_not_space.
  assert (S1 : dropSign (c :: w) = c :: w).
  { cbn [dropSign]. replace ((c =? 43)%N || (c =? 45)%N) with false; [reflexivity|].
    symmetry. chars. }
  assert (S2 : radixPrefix (c :: w) = (10%Z, c :: w)).
  { destruct w as [|b w]; [reflexivity|]. cbn [radixPrefix].
    cbn [forallb] in Fw. apply andb_prop in Fw. destruct Fw as [Db _].
    replace ((b =? 120)%N || (b =? 88)%N) with false by (symmetry; chars).
    now rewrite andb_false_r. }
  unfold parseIntString. cbn [dropSpaces]. rewrite Sc, S1, S2. cbn [fst snd headIs].
  rewrite takeRadixDigits_decimal by (cbn [forallb]; now rewrite Dc, Fw).
  cbn [map]. unfold decimalValue. rewrite <- fold_left_map_digits. cbn [map].
  replace (45 =? c)%N with false by (symmetry; chars).
  reflexivity.
Qed.

(** ** Every request is answered, with defaults where nothing is found *)

Lemma formulaLoop_without lc ms : forall r,
  compound r = None ->
  (compound (formulaLoop lc ms r) = None <->
   forallb (withoutCompound lc) ms = true).
Proof.
  induction ms as [|m ms IH]; intros r C; cbn [formulaLoop forallb].
  - rewrite C. tauto.
  - unfold withoutCompound at 1. unfold passedOver.
    destruct (has commonWords (lc m)); cbn [negb orb andb]; [now apply IH|].
    destruct (test digit m); cbn [negb orb andb].
    + unfold twoCapitals.
      destruct (2 <=? length (matchAll elementPattern m)) eqn:L.
      * apply Nat.leb_le in L.
        replace (length (matchAll elementPattern m) <? 2) with false
          by (symmetry; apply Nat.ltb_ge; exact L).
        cbn. split; discriminate.
      * apply Nat.leb_gt in L.
        replace (length (matchAll elementPattern m) <? 2) with true
          by (symmetry; apply Nat.ltb_lt; exact L).
        cbn [andb]. now apply IH.
    + rewrite orb_false_r. unfold twoCapitals.
      destruct m as [|c0 [|c1 [|c2 m]]]; cbn [negb andb]; try now apply IH.
      destruct (test upper [c0] && test upper [c1]); cbn [negb andb].
      * cbn. split; discriminate.
      * now apply IH.
Qed.

Lemma parse_structure_type lc text :
  structure_type (parseMaterialRequest lc text) =
  match dictionaryHit (lc text) with
  | Some v => match entry_structure_type v with
              | Some st => Some st
              | None => matchingTag (lc text)
              end
  | None => matchingTag (lc text)
  end.
Proof.
  assert (P : structure_type (parameterStages (lc text)) = matchingTag (lc text)).
  { unfold parameterStages, latticeStage, structureStage, supercellStage.
    destruct (firstMatch latticePatterns _); destruct (matchingTag _);
      destruct (firstMatch supercellPatterns _); reflexivity. }
  destruct (dictionaryHit (lc text)) as [v|] eqn:Hit.
  - rewrite (parse_hit _ _ _ Hit). unfold applyEntry.
    destruct (entry_structure_type v); [reflexivity | exact P].
  - rewrite (parse_no_hit _ _ Hit).
    destruct (sourceStage_frame text
                (elementStage lc text (lc text)
                   (formulaStage lc text (parameterStages (lc text)))))
      as (_ & -> & _).
    destruct (elementStage_frame lc text (lc text)
                (formulaStage lc text (parameterStages (lc text))))
      as (_ & -> & _).
    destruct (formulaStage_frame lc text (parameterStages (lc text)))
      as (_ & -> & _).
    exact P.
Qed.

Lemma parse_inert_fields lc text :
  source_params (parseMaterialRequest lc text) = [] /\
  use_llm (parseMaterialRequest lc text) = false /\
  llm_provider (parseMaterialRequest lc text) = None /\
  llm_params (parseMaterialRequest lc text) = [].
Proof.
  destruct (parameterStages_fields (lc text)) as (_ & _ & _ & I1 & I2 & I3 & I4 & _).
  destruct (dictionaryHit (lc text)) as [v|] eqn:Hit.
  - rewrite (parse_hit _ _ _ Hit).
    destruct (applyEntry_frame v (parameterStages (lc text)))
      as (_ & _ & _ & -> & -> & -> & ->). auto.
  - rewrite (parse_no_hit _ _ Hit).
    set (rf := formulaStage lc text (parameterStages (lc text))).
    set (re := elementStage lc text (lc text) rf).
    destruct (sourceStage_frame text re) as (_ & _ & _ & _ & -> & -> & -> & ->).
    destruct (elementStage_frame lc text (lc text) rf)
      as (_ & _ & _ & _ & _ & A1 & A2 & A3 & A4). fold re in A1, A2, A3, A4.
    rewrite A1, A2, A3, A4.
    destruct (formulaStage_frame lc text (parameterStages (lc text)))
      as (_ & _ & _ & _ & B1 & B2 & B3 & B4). fold rf in B1, B2, B3, B4.
    rewrite B1, B2, B3, B4. auto.
Qed.

Lemma parse_source_none lc text :
  source_type (parseMaterialRequest lc text) = None <->
  dictionaryHit (lc text) <> None \/
  (jsMatch mpPattern text = None /\ jsMatch codPattern text = None /\
   jsMatch urlPattern text = None /\
   test separatorPattern text || test extensionPattern text = false).
Proof.
  destruct (dictionaryHit (lc text)) as [v|] eqn:Hit.
  - destruct (parse_compound_hit lc text v Hit) as (_ & _ & S).
    split; [intros _; left; discriminate | intros _; exact S].
  - rewrite (parse_no_hit _ _ Hit).
    destruct (sourceStage_cases text _ (before_sourceStage lc text))
      as [(m & A & S & _) | [(m & A & B & S & _) | [(m & A & B & C & S & _)
          | [(A & B & C & D & S & _) | (A & B & C & D & _ & S)]]]];
      rewrite S; split; try discriminate; try (intros [N | Q]; [congruence|]);
      try (destruct Q as (Q1 & Q2 & Q3 & Q4); congruence).
    intros _. right. auto.
Qed.

Lemma formulaLoop_folding lc lc' ms : forall r,
  (forall m, In m ms -> lc' m = lc m) ->
  formulaLoop lc' ms r = formulaLoop lc ms r.
Proof.
  induction ms as [|m ms IH]; intros r H; cbn [formulaLoop]; [reflexivity|].
  rewrite (H m (or_introl eq_refl)).
  assert (H' : forall x, In x ms -> lc' x = lc x) by (intros x I; apply H; now right).
  destruct (negb (has commonWords (lc m))); [|now apply IH].
  destruct (test digit m).
  - destruct (2 <=? length (matchAll elementPattern m)); [reflexivity | now apply IH].
  - destruct m as [|c0 [|c1 [|c2 m]]]; try now apply IH.
    destruct (test upper [c0] && test upper [c1]); [reflexivity | now apply IH].
Qed.

(** The record depends on the case folding of the host only through
    what it makes of the text and of the candidate tokens. *)
Lemma parse_folding lc lc' text :
  lc' text = lc text ->
  (forall m, In m (matchAll compoundPattern text) -> lc' m = lc m) ->
  (forall m, In m (matchAll symbolPattern text) -> lc' m = lc m) ->
  parseMaterialRequest lc' text = parseMaterialRequest lc text.
Proof.
  intros Et Ec Es. unfold parseMaterialRequest. rewrite Et.
  destruct (dictionaryHit (lc text)); [reflexivity|].
  set (base := latticeStage _ _).
  assert (F : formulaStage lc' text base = formulaStage lc text base).
  { unfold formulaStage. destruct (compound base); [reflexivity|].
    now apply formulaLoop_folding. }
  assert (P : potentialElements lc' text = potentialElements lc text).
  { unfold potentialElements. apply filter_ext_in. intros m I.
    now rewrite (Es m I). }
  rewrite F. unfold elementStage. now rewrite P.
Qed.

Lemma parse_name_default lc text :
  dictionaryHit (lc text) = None ->
  forallb (passedOver lc) (matchAll compoundPattern text) = true ->
  elementHit (lc text) = None -> potentialElements lc text = [] ->
  source_type (parseMaterialRequest lc text) = None ->
  material_name (parseMaterialRequest lc text) = js "Si".
Proof.
  intros Hit Tok Eh Pe Src.
  destruct (parameterStages_fields (lc text)) as (Pn & Pc & _).
  apply parse_source_none in Src. destruct Src as [N | (Mp & Cod & Url & File)];
    [contradiction|].
  rewrite (parse_no_hit _ _ Hit). unfold sourceStage. rewrite Mp, Cod, Url, File.
  unfold formulaStage. rewrite Pc, (formulaLoop_passedOver _ _ _ Tok).
  unfold elementStage. rewrite Pc, Eh, Pn, Pe. now rewrite jsstring_eqb_refl.
Qed.

(** C8: [parseMaterialRequest] answers every text with a fully
    populated record, and nothing in it can fail.

    - Every field is present: the name is never empty, the supercell
      has three components, and the four fields that no stage writes
      are at their inert defaults.
    - A field that no stage resolves is at its documented default: the
      supercell is (1,1,1) when no geometry pattern matches; structure
      type, lattice parameter, compound and source type are absent
      exactly when nothing in the text resolves them; the name is "Si"
      when no dictionary key, no candidate token, no element name or
      symbol and no source names the material.
    - The record is a function of the text, and of what the case
      folding of the host makes of the text and of its candidate
      tokens, and of nothing else.
    - No error path: every capture that the code reads took part in
      the match, so no number is read from [undefined].
    - Termination: the two loops that are not structural, the greedy
      star and the global match, are never cut short; any fuel from
      the length of the input left on gives the same result. *)
Theorem C8_total_with_defaults
    (toLowerCase : jsstring -> jsstring) (text : jsstring) :
  let tl := toLowerCase text in
  let r := parseMaterialRequest toLowerCase text in
  (material_name r <> [] /\ length (supercell_dims r) = 3 /\
   source_params r = [] /\ use_llm r = false /\
   llm_provider r = None /\ llm_params r = []) /\
  ((firstMatch supercellPatterns tl = None ->
    supercell_dims r = [Fin 1; Fin 1; Fin 1]) /\
   (structure_type r = None <->
    matchingTag tl = None /\
    forall v, dictionaryHit tl = Some v -> entry_structure_type v = None) /\
   (lattice_parameter r = None <-> firstMatch latticePatterns tl = None) /\
   (compound r = None <->
    dictionaryHit tl = None /\
    forallb (withoutCompound toLowerCase) (matchAll compoundPattern text) = true) /\
   (source_type r = None <->
    dictionaryHit tl <> None \/
    (jsMatch mpPattern text = None /\ jsMatch codPattern text = None /\
     jsMatch urlPattern text = None /\
     test separatorPattern text || test extensionPattern text = false)) /\
   (dictionaryHit tl = None ->
    forallb (passedOver toLowerCase) (matchAll compoundPattern text) = true ->
    elementHit tl = None -> potentialElements toLowerCase text = [] ->
    source_type r = None -> material_name r = js "Si")) /\
  (forall toLowerCase',
     toLowerCase' text = toLowerCase text ->
     (forall m, In m (matchAll compoundPattern text) ->
                toLowerCase' m = toLowerCase m) ->
     (forall m, In m (matchAll symbolPattern text) ->
                toLowerCase' m = toLowerCase m) ->
     parseMaterialRequest toLowerCase' text = r) /\
  ((forall m, firstMatch supercellPatterns tl = Some m ->
      exists a b c, group 1 m = Some a /\ group 2 m = Some b /\ group 3 m = Some c) /\
   (forall m, firstMatch latticePatterns tl = Some m ->
      exists w, group 1 m = Some w)) /\
  ((forall p k s fuel, length (rest s) <= fuel ->
      starLoop (matcher p) k fuel s = matcher (Star p) k s) /\
   (forall p str fuel, length str < fuel ->
      matchAllFrom fuel p [] str = matchAll p str)).
Proof.
  intros tl r. unfold r, tl.
  split; [|split; [|split; [|split]]].
  - (* present *)
    destruct (parse_dims_nonNegative toLowerCase text) as (a & b & c & D & _).
    pose proof (parse_name_truthy toLowerCase text) as T.
    split; [intros E; rewrite E in T; discriminate|].
    split; [now rewrite D|]. apply parse_inert_fields.
  - (* defaults *)
    split; [|split; [|split; [|split; [|split]]]].
    + intros H. rewrite parse_supercell_dims. unfold supercellStage. now rewrite H.
    + rewrite parse_structure_type.
      destruct (dictionaryHit (toLowerCase text)) as [v|].
      * destruct (entry_structure_type v) as [st|] eqn:St.
        -- split; [discriminate|]. intros (_ & H). specialize (H v eq_refl).
           congruence.
        -- split; [intros H; split; [exact H|]; intros v' E; congruence|].
           now intros (H & _).
      * split; [intros H; split; [exact H | discriminate] | now intros (H & _)].
    + rewrite parse_lattice_parameter.
      destruct (firstMatch latticePatterns (toLowerCase text));
        cbn [option_map]; split; congruence.
    + destruct (dictionaryHit (toLowerCase text)) as [v|] eqn:Hit.
      * destruct (parse_compound_hit toLowerCase text v Hit) as (_ & C & _).
        rewrite C. split; [discriminate | intros (H & _); discriminate].
      * rewrite (parse_compound_no_hit _ _ Hit).
        destruct (parameterStages_fields (toLowerCase text)) as (_ & Pc & _).
        rewrite (formulaLoop_without toLowerCase _ _ Pc).
        split; [now split | now intros (_ & H)].
    + apply parse_source_none.
    + apply parse_name_default.
  - (* a function of the text and its folding *)
    intros lc' Et Ec Es. now apply parse_folding.
  - (* captures *)
    split.
    + intros m H. apply firstMatch_supercell in H.
      destruct H as (a & b & c & G1 & G2 & G3 & _). exists a, b, c. now unfold group.
    + intros m H. apply firstMatch_lattice in H.
      destruct H as (_ & w & _ & _ & _ & _ & _ & G). now exists w.
  - (* fuel *)
    split.
    + intros p k s fuel H. now apply starLoop_fuel_enough.
    + intros p str fuel H. now apply matchAll_fuel_enough.
Qed.

(** "At the start": the one candidate token, "At", is a stop-list word;
    nothing resolves the request and every field is at its default. *)
Lemma C8_total_with_defaults_witness :
  matchAll compoundPattern (js "At the start") = [js "At"] /\
  parseMaterialRequest asciiLowerCase (js "At the start") = defaults.
Proof.
  split; [reflexivity|].
  destruct (C8_total_with_defaults asciiLowerCase (js "At the start"))
    as ((_ & _ & I1 & I2 & I3 & I4) & (Dd & St & Lp & Cp & Src & Nm) & _).
  assert (S : source_type (parseMaterialRequest asciiLowerCase (js "At the start"))
              = None).
  { apply Src. right. repeat split; reflexivity. }
  pose proof (Dd eq_refl) as D.
  assert (T : structure_type (parseMaterialRequest asciiLowerCase (js "At the start"))
              = None).
  { apply St. split; [reflexivity|]. intros v E. vm_compute in E. discriminate E. }
  pose proof (proj2 Lp eq_refl) as L.
  pose proof (proj2 Cp (conj eq_refl eq_refl)) as C.
  pose proof (Nm eq_refl eq_refl eq_refl eq_refl S) as N.
  destruct (parseMaterialRequest asciiLowerCase (js "At the start")).
  cbn [material_name supercell_dims structure_type lattice_parameter compound
       source_type source_params use_llm llm_provider llm_params] in *.
  subst. reflexivity.
Defined.
